(** * Mini-Games-Collection: the four simulation cores

    A shallow embedding of the game logic of the React pages
    [Tetris.tsx], [Cards.tsx], [Snake.tsx] and [Tanks.tsx], followed by
    the properties of the design document that were checked against it.

    Conventions of the embedding:
    - a React state cell is a record field; [setX (prev => e)] is the
      field update [e] applied to the latest value;
    - a [useRef] cell that the code reads while it lags behind the state
      is a separate field;
    - one browser event (a click, a key, a timer firing) runs to
      completion and is followed by a render and its effects before the
      next event;
    - [Math.random ()] and [Date.now ()] are read from the state;
    - JavaScript numbers that the code only uses as integers are [Z] or
      [nat]; where a read can leave an array, [undefined] is a value;
    - [None] as a result stands for a thrown [TypeError] (or a write
      that would leave the array), as each definition says;
    - audio, focus handling, layout and visual effects are left out. *)

From Stdlib Require Import ZArith QArith Qround Lia Ascii DecimalString DecimalNat DecimalZ.
From stdpp Require Import base tactics option list strings gmap.
From Equations Require Import Equations.

Local Open Scope Z_scope.

(** ** JavaScript values and helpers *)

Module Js.

(** The values a [number] slot can hold at run time in this code:
    an integer, [NaN] (from arithmetic on [undefined]) or [undefined]
    (from reading past the end of an array). *)
Inductive value : Type :=
| Num (z : Z)
| NaN
| Undefined.

#[global] Instance value_eq_dec : EqDecision value.
Proof. solve_decision. Defined.

(** [!v] is [negb (truthy v)]: [0], [NaN] and [undefined] are falsy. *)
Definition truthy (v : value) : bool :=
  match v with
  | Num z => negb (z =? 0)
  | NaN | Undefined => false
  end.

(** [v !== 0] *)
Definition strict_ne_zero (v : value) : bool :=
  match v with
  | Num z => negb (z =? 0)
  | NaN | Undefined => true
  end.

(** [a + b] on numbers; [undefined + n] and [NaN + n] are [NaN]. *)
Definition add (a b : value) : value :=
  match a, b with
  | Num x, Num y => Num (x + y)
  | _, _ => NaN
  end.

(** [for (let i = 0; i < n; i++) body(i)] over a threaded state. *)
Definition for_loop {S : Type} (n : nat) (body : nat -> S -> S) (s : S) : S :=
  foldl (fun acc i => body i acc) s (seq 0 n).

(** [m[i][j]] for an array of arrays; [None] is [undefined]
    (or a [TypeError] when row [i] itself is missing). *)
Definition mget {A : Type} (m : list (list A)) (i j : nat) : option A :=
  match m !! i with
  | Some row => row !! j
  | None => None
  end.

(** [m[i][j] = v] where the code has made sure that the slot exists. *)
Definition mset {A : Type} (m : list (list A)) (i j : nat) (v : A) : list (list A) :=
  alter (fun row => <[j := v]> row) i m.

(** [m[i][j] = v] on an array the caller supplied: [None] when row [i] is
    missing (a [TypeError]) or column [j] is past the end of the row (the
    array would grow, which the model does not follow). *)
Definition mset_checked {A : Type} (m : list (list A)) (i j : nat) (v : A)
  : option (list (list A)) :=
  match m !! i with
  | Some row =>
      if decide (j < length row)%nat then Some (<[i := <[j := v]> row]> m) else None
  | None => None
  end.

(** An array of [R] rows that all have [C] cells. *)
Definition rect {A : Type} (R C : nat) (m : list (list A)) : Prop :=
  length m = R /\ Forall (fun row => length row = C) m.

(** [`${z}`] for an integer, and for a non-negative one. *)
Definition show_Z (z : Z) : string := NilZero.string_of_int (Z.to_int z).
Definition show_nat (n : nat) : string := show_Z (Z.of_nat n).

(** [s.split(sep)] for a one-character separator. *)
Fixpoint split (sep : ascii) (s : string) : list string :=
  match s with
  | EmptyString => [EmptyString]
  | String c s' =>
      if decide (c = sep) then EmptyString :: split sep s'
      else match split sep s' with
           | h :: t => String c h :: t
           | [] => [String c EmptyString]
           end
  end.

(** [Number(s)] on the strings this code parses: the empty string is [0],
    a decimal integer is its value, anything else is taken as [NaN]. *)
Definition Number (s : string) : value :=
  match s with
  | EmptyString => Num 0
  | _ => match NilZero.int_of_string s with
         | Some d => Num (Z.of_int d)
         | None => NaN
         end
  end.

End Js.

(** ** Math.random *)

Module Rand.

(** The generator: an infinite sequence of raw draws and a cursor.  A raw
    draw [n] stands for the double [(n mod 2^53) / 2^53], so that every
    value of [Math.random ()] lies in [0, 1). *)
Record rng : Type := mkRng {
  draws : nat -> N;
  cursor : nat
}.

Definition unit_interval (n : N) : Q :=
  Z.of_N (n mod 2 ^ 53) # (2 ^ 53).

(** [Math.random ()] *)
Definition random (g : rng) : Q * rng :=
  (unit_interval (draws g (cursor g)), mkRng (draws g) (S (cursor g))).

(** [Math.floor (u * m)] *)
Definition floor_mul (u : Q) (m : Z) : Z := Qfloor (u * inject_Z m).

(** [u < p] *)
Definition lt (u p : Q) : bool := negb (Qle_bool p u).

(** A generator for the sample runs below: draws 0.5, 0.83.., 0.16.., ... *)
Definition demo_rng : rng :=
  mkRng (fun k => (N.of_nat k * 3000000000000000 + 2 ^ 52)%N) 0.

End Rand.

(** ** Tetris ([Tetris.tsx]) *)

Module Tetris.
Import Js.

Definition TetrisCell : Type := value.
Definition PieceShape : Type := list (list TetrisCell).
Definition Board : Type := list (list TetrisCell).

Record ActivePiece : Type := mkPiece {
  shape : PieceShape;
  x : Z;
  y : Z;
  color : Z;
  idx : nat
}.

Record TetrisStats : Type := mkStats {
  score : value;
  lines : Z;
  level : Z
}.

Definition COLS : nat := 10.
Definition ROWS : nat := 20.

Definition SHAPES : list PieceShape :=
  [ [[Num 1; Num 1; Num 1; Num 1]];
    [[Num 1; Num 1]; [Num 1; Num 1]];
    [[Num 0; Num 1; Num 0]; [Num 1; Num 1; Num 1]];
    [[Num 0; Num 1; Num 1]; [Num 1; Num 1; Num 0]];
    [[Num 1; Num 1; Num 0]; [Num 0; Num 1; Num 1]];
    [[Num 1; Num 0; Num 0]; [Num 1; Num 1; Num 1]];
    [[Num 0; Num 0; Num 1]; [Num 1; Num 1; Num 1]] ].

(** [shape[r][c]] for a valid row [r]: a column past the end of a
    shorter row reads [undefined]. *)
Definition read (shape : PieceShape) (r c : nat) : TetrisCell :=
  default Undefined (mget shape r c).

(** [rotate]: [None] is the [TypeError] of [shape[0].length] on an empty
    array.  [res] has [cols] rows of [rows] cells and the loops stay
    inside it. *)
Definition rotate (shape : PieceShape) : option PieceShape :=
  match shape with
  | [] => None
  | row0 :: _ =>
      let rows := length shape in
      let cols := length row0 in
      let res := replicate cols (replicate rows (Num 0)) in
      Some (for_loop rows (fun r res =>
              for_loop cols (fun c res =>
                mset res c (rows - 1 - r) (read shape r c)) res) res)
  end.

Definition rotate4 (shape : PieceShape) : option PieceShape :=
  s1 ← rotate shape; s2 ← rotate s1; s3 ← rotate s2; rotate s3.

(** The body of the two loops of [merge] for one cell of the shape. *)
Definition merge_cell (p : ActivePiece) (r c : nat) (copy : option Board) : option Board :=
  match copy with
  | None => None
  | Some copy =>
      if negb (truthy (read (shape p) r c)) then Some copy
      else
        let y := y p + Z.of_nat r in
        let x := x p + Z.of_nat c in
        if (0 <=? y) && (y <? Z.of_nat ROWS) && (0 <=? x) && (x <? Z.of_nat COLS)
        then mset_checked copy (Z.to_nat y) (Z.to_nat x) (Num (color p))
        else Some copy
  end.

(** [merge]: the inner bound [p.shape[0].length] is only evaluated when
    the shape has a row. *)
Definition merge (b : Board) (p : ActivePiece) : option Board :=
  let cols := match shape p with row0 :: _ => length row0 | [] => O end in
  for_loop (length (shape p)) (fun r copy =>
    for_loop cols (fun c copy => merge_cell p r c copy) copy) (Some b).

Definition emptyRow : list TetrisCell := replicate COLS (Num 0).

(** [while (newBoard.length < ROWS) newBoard.unshift(Array(COLS).fill(0))] *)
Equations? backfill (newBoard : Board) : Board by wf (ROWS - length newBoard)%nat lt :=
  backfill newBoard with decide (length newBoard < ROWS)%nat => {
    | left _ := backfill (emptyRow :: newBoard);
    | right _ := newBoard }.
Proof. unfold ROWS in *. lia. Qed.

Record Cleared : Type := mkCleared {
  board : Board;
  linesCleared : nat
}.

(** [row.every((v) => v !== 0)] *)
Definition full (row : list TetrisCell) : bool := forallb strict_ne_zero row.

(** The callback of [b.filter]: it counts the full rows as it drops them. *)
Definition clearLines_row (acc : Board * nat) (row : list TetrisCell) : Board * nat :=
  if full row then (acc.1, S acc.2) else (acc.1 ++ [row], acc.2).

Definition clearLines (b : Board) : Cleared :=
  let '(newBoard, n) := foldl clearLines_row ([], O) b in
  mkCleared (backfill newBoard) n.

Definition pointsPerLines : list value := [Num 0; Num 100; Num 300; Num 500; Num 800].

(** [addScoreAndLevel (lines)] as the update of the statistics.
    [Math.floor (newLines / 10)] is [newLines / 10] on integers. *)
Definition addScoreAndLevel (n : nat) (s : TetrisStats) : TetrisStats :=
  if decide (n = O) then s
  else
    let newLines := lines s + Z.of_nat n in
    let newScore := add (score s) (default Undefined (pointsPerLines !! n)) in
    let newLevel := Z.min 10 (1 + newLines / 10) in
    mkStats newScore newLines newLevel.

(** The part shared by the lock branch of [tick] and by the hard drop:
    merge, clear, score. *)
Definition lock (b : Board) (p : ActivePiece) (s : TetrisStats) : option (Cleared * TetrisStats) :=
  match merge b p with
  | None => None
  | Some merged =>
      let cl := clearLines merged in
      Some (cl, if decide (linesCleared cl = O) then s else addScoreAndLevel (linesCleared cl) s)
  end.

(** The scoring table in the words of the design document:
    1 -> 100, 2 -> 300, 3 -> 500, 4 -> 800. *)
Definition tablePoints (n : nat) : Z :=
  match n with
  | 1%nat => 100
  | 2%nat => 300
  | 3%nat => 500
  | 4%nat => 800
  | _ => 0
  end.

End Tetris.

(** ** Cards ([Cards.tsx]) *)

Module Cards.
Import Rand.

Record CardItem : Type := mkCard {
  id : nat;
  value : nat;
  matched : bool;
  flipped : bool
}.

#[global] Instance CardItem_eq_dec : EqDecision CardItem.
Proof. solve_decision. Defined.

(** [[a[i], a[j]] = [a[j], a[i]]]; [shuffle] calls it with [j <= i < a.length]. *)
Definition swap {T : Type} (a : list T) (i j : nat) : list T :=
  match a !! i, a !! j with
  | Some ai, Some aj => <[j := ai]> (<[i := aj]> a)
  | _, _ => a
  end.

(** The loop of [shuffle], from index [i] down to 1. *)
Fixpoint shuffle_from {T : Type} (i : nat) (a : list T) (g : rng) : list T * rng :=
  match i with
  | O => (a, g)
  | S i' =>
      let '(u, g') := random g in
      let j := Z.to_nat (floor_mul u (Z.of_nat i + 1)) in
      shuffle_from i' (swap a i j) g'
  end.

Definition shuffle {T : Type} (arr : list T) (g : rng) : list T * rng :=
  shuffle_from (length arr - 1) arr g.

Definition makeDeckFor (count : nat) (g : rng) : list CardItem * rng :=
  let base := map S (seq 0 count) in
  let '(a, g') := shuffle (base ++ base) g in
  (imap (fun idx v => mkCard (idx + 1) v false false) a, g').

(** The pending timer of the pair effect with the values its callback
    closes over. *)
Record Timer : Type := mkTimer {
  id1 : Js.value;
  id2 : Js.value;
  isMatch : bool
}.

(** The component state.  [cleanup] tells whether the last run of the
    pair effect returned its cleanup function. *)
Record State : Type := mkState {
  pairs : nat;
  deck : list CardItem;
  busy : bool;
  busyRef : bool;
  moves : nat;
  seconds : nat;
  running : bool;
  lastPairRef : option string;
  timerRef : option Timer;
  cleanup : bool;
  gen : rng
}.

Definition set_deck (d : list CardItem) (s : State) : State :=
  mkState (pairs s) d (busy s) (busyRef s) (moves s) (seconds s) (running s)
          (lastPairRef s) (timerRef s) (cleanup s) (gen s).
Definition set_moves (m : nat) (s : State) : State :=
  mkState (pairs s) (deck s) (busy s) (busyRef s) m (seconds s) (running s)
          (lastPairRef s) (timerRef s) (cleanup s) (gen s).
Definition set_seconds (n : nat) (s : State) : State :=
  mkState (pairs s) (deck s) (busy s) (busyRef s) (moves s) n (running s)
          (lastPairRef s) (timerRef s) (cleanup s) (gen s).
Definition set_running (r : bool) (s : State) : State :=
  mkState (pairs s) (deck s) (busy s) (busyRef s) (moves s) (seconds s) r
          (lastPairRef s) (timerRef s) (cleanup s) (gen s).
Definition set_lastPairRef (k : option string) (s : State) : State :=
  mkState (pairs s) (deck s) (busy s) (busyRef s) (moves s) (seconds s) (running s)
          k (timerRef s) (cleanup s) (gen s).
Definition set_timerRef (t : option Timer) (s : State) : State :=
  mkState (pairs s) (deck s) (busy s) (busyRef s) (moves s) (seconds s) (running s)
          (lastPairRef s) t (cleanup s) (gen s).
Definition set_cleanup (c : bool) (s : State) : State :=
  mkState (pairs s) (deck s) (busy s) (busyRef s) (moves s) (seconds s) (running s)
          (lastPairRef s) (timerRef s) c (gen s).
Definition set_pairs (p : nat) (s : State) : State :=
  mkState p (deck s) (busy s) (busyRef s) (moves s) (seconds s) (running s)
          (lastPairRef s) (timerRef s) (cleanup s) (gen s).

(** [setBusyState]: the ref and the state together. *)
Definition setBusyState (v : bool) (s : State) : State :=
  mkState (pairs s) (deck s) v v (moves s) (seconds s) (running s)
          (lastPairRef s) (timerRef s) (cleanup s) (gen s).

(** [c.flipped && !c.matched] *)
Definition pending (c : CardItem) : bool := flipped c && negb (matched c).

Definition flip (c : CardItem) : CardItem := mkCard (id c) (value c) (matched c) true.
Definition unflip (c : CardItem) : CardItem := mkCard (id c) (value c) (matched c) false.
Definition mark (c : CardItem) : CardItem := mkCard (id c) (value c) true (flipped c).

(** [handleFlip] with the updater of [setDeck] applied at once. *)
Definition handleFlip (cid : nat) (s : State) : State :=
  if busyRef s || busy s || negb (running s) then s
  else
    match List.find (fun c => (id c =? cid)%nat) (deck s) with
    | None => s
    | Some card =>
        if flipped card || matched card then s
        else
          let next := map (fun c => if (id c =? cid)%nat then flip c else c) (deck s) in
          let flippedNow := List.filter pending next in
          let s' := set_deck next s in
          if (length flippedNow =? 2)%nat then setBusyState true s' else s'
    end.

(** [pairKey]: the ids of the two pending cards, smaller first, or [""]. *)
Definition pairKey (d : list CardItem) : string :=
  match List.filter pending d with
  | [a; b] =>
      if (id a <? id b)%nat
      then Js.show_nat (id a) +:+ "-" +:+ Js.show_nat (id b)
      else Js.show_nat (id b) +:+ "-" +:+ Js.show_nat (id a)
  | _ => ""
  end.

(** [c.id === v] for a parsed id [v]. *)
Definition same_id (v : Js.value) (c : CardItem) : bool :=
  bool_decide (Js.Num (Z.of_nat (id c)) = v).

(** [const [s1, s2] = pairKey.split('-')] followed by [Number]: a missing
    component is [undefined], whose [Number] is [NaN]. *)
Definition parseKey (key : string) : Js.value * Js.value :=
  let parts := Js.split "-"%char key in
  (default Js.NaN (Js.Number <$> parts !! 0%nat),
   default Js.NaN (Js.Number <$> parts !! 1%nat)).

(** The body of the pair effect.  [None] is the [TypeError] of [a.value]
    when [deck.find] finds no card. *)
Definition pairEffect (s : State) : option State :=
  let key := pairKey (deck s) in
  if decide (key = "") then
    let s1 := set_cleanup false (set_lastPairRef None (set_timerRef None s)) in
    Some (if busy s then setBusyState false s1 else s1)
  else if decide (lastPairRef s = Some key) then Some (set_cleanup false s)
  else
    let s1 := set_moves (moves s + 1) (setBusyState true (set_lastPairRef (Some key) s)) in
    let '(i1, i2) := parseKey key in
    match List.find (same_id i1) (deck s), List.find (same_id i2) (deck s) with
    | Some a, Some b =>
        Some (set_cleanup true
                (set_timerRef (Some (mkTimer i1 i2 (value a =? value b)%nat)) s1))
    | _, _ => None
    end.

(** A run of the pair effect after its dependencies changed: the cleanup
    of the previous run first. *)
Definition runEffect (s : State) : option State :=
  pairEffect (if cleanup s then set_cleanup false (set_timerRef None s) else s).

(** [allMatched] and the effect that stops the clock. *)
Definition allMatched (d : list CardItem) : bool :=
  (0 <? length d)%nat && forallb matched d.
Definition winEffect (s : State) : State :=
  if allMatched (deck s) then set_running false s else s.

(** The render that follows a change of [deck] or [busy]: the pair effect
    runs, and once more when it changed [busy] itself. *)
Definition render (s : State) : option State :=
  match runEffect s with
  | None => None
  | Some s1 =>
      if bool_decide (busy s1 = busy s) then Some (winEffect s1)
      else winEffect <$> runEffect s1
  end.

(** The callback of the resolution timer. *)
Definition resolve (t : Timer) (d : list CardItem) : list CardItem :=
  map (fun c =>
         if isMatch t && (same_id (id1 t) c || same_id (id2 t) c) then mark c
         else if negb (isMatch t) && (same_id (id1 t) c || same_id (id2 t) c) then unflip c
         else c) d.
Definition timerFire (t : Timer) (s : State) : State :=
  set_timerRef None (setBusyState false (set_deck (resolve t (deck s)) s)).

(** [reset] *)
Definition reset (nextPairs : option nat) (s : State) : State :=
  let p := default (pairs s) nextPairs in
  let '(d, g) := makeDeckFor p (gen s) in
  mkState (pairs s) d false false 0 0 true None None (cleanup s) g.

Inductive Event : Type :=
| Flip (cid : nat)
| TimerFires
| Restart
| ChangePairs (n : nat)
| SecondTick.

(** One event and the renders it causes.  A rejected flip returns the
    previous array and causes no render; choosing a difficulty calls
    [setPairs] and [reset(n)], and the change of [pairs] makes the mount
    effect call [reset()] once more. *)
Definition step (e : Event) (s : State) : option State :=
  match e with
  | Flip cid =>
      let s' := handleFlip cid s in
      if decide (deck s' = deck s) then Some s' else render s'
  | TimerFires =>
      match timerRef s with
      | Some t => render (timerFire t s)
      | None => Some s
      end
  | Restart => render (reset None s)
  | ChangePairs n =>
      match render (reset (Some n) (set_pairs n s)) with
      | Some s1 => render (reset None s1)
      | None => None
      end
  | SecondTick => Some (if running s then set_seconds (seconds s + 1) s else s)
  end.

(** The state after mounting: [useState] defaults, then the mount effect
    calls [reset()]. *)
Definition initial (g : rng) : State :=
  mkState 8 [] false false 0 0 false None None false g.
Definition mount (g : rng) : option State := render (reset None (initial g)).

Inductive reachable : State -> Prop :=
| reachable_mount g s : mount g = Some s -> reachable s
| reachable_step e s s' : reachable s -> step e s = Some s' -> reachable s'.

(** The timer that the pair effect arms for the pending cards [a], [b]. *)
Definition expectedTimer (a b : CardItem) : Timer :=
  if (id a <? id b)%nat
  then mkTimer (Js.Num (Z.of_nat (id a))) (Js.Num (Z.of_nat (id b))) (value a =? value b)%nat
  else mkTimer (Js.Num (Z.of_nat (id b))) (Js.Num (Z.of_nat (id a))) (value b =? value a)%nat.

(** What holds between events: ids are unique, the lock is set exactly
    while two cards wait for their timer. *)
Definition Inv (s : State) : Prop :=
  NoDup (map id (deck s)) /\ busy s = busyRef s /\
  match List.filter pending (deck s) with
  | [] | [_] => busyRef s = false /\ timerRef s = None /\ lastPairRef s = None
  | [a; b] =>
      busyRef s = true /\ lastPairRef s = Some (pairKey (deck s)) /\
      timerRef s = Some (expectedTimer a b)
  | _ => False
  end.

(** What the resolution timer makes of a card when [a] and [b] wait. *)
Definition resolved (a b c : CardItem) : CardItem :=
  if decide (id c = id a \/ id c = id b)
  then (if (value a =? value b)%nat then mark c else unflip c)
  else c.

(** A sample run: the mounted page and two flips. *)
Definition demo_mounted : State := default (initial demo_rng) (mount demo_rng).
Definition demo_one : State := default demo_mounted (step (Flip 1) demo_mounted).
Definition demo_two : State := default demo_one (step (Flip 4) demo_one).

End Cards.

(** ** Snake ([Snake.tsx]) *)

Module Snake.
Import Rand.

Inductive GameDir : Type := up | down | left | right.
Inductive GameStatus : Type := idle | countdown | running | paused | ended.
Inductive FoodKind : Type := apple | strawberry | donut.

#[global] Instance GameDir_eq_dec : EqDecision GameDir.
Proof. solve_decision. Defined.
#[global] Instance GameStatus_eq_dec : EqDecision GameStatus.
Proof. solve_decision. Defined.

Record Point : Type := mkPoint { x : Z; y : Z }.

#[global] Instance Point_eq_dec : EqDecision Point.
Proof. solve_decision. Defined.

Definition GRID : Z := 18.

Definition delta (d : GameDir) : Point :=
  match d with
  | up => mkPoint 0 (-1)
  | down => mkPoint 0 1
  | left => mkPoint (-1) 0
  | right => mkPoint 1 0
  end.

(** [`${p.x},${p.y}`] *)
Definition key (p : Point) : string := Js.show_Z (x p) +:+ "," +:+ Js.show_Z (y p).

(** [new Set(points.map((p) => `${p.x},${p.y}`))] *)
Definition keySet (points : list Point) : gset string := list_to_set (map key points).

(** The result of an event handler: a new state, a thrown [TypeError], or
    a loop that was still running when the fuel ran out. *)
Inductive outcome (A : Type) : Type :=
| Done (a : A)
| Throws
| Unfinished.
Arguments Done {A} a.
Arguments Throws {A}.
Arguments Unfinished {A}.

(** [randomFood]: at most [fuel] rounds of the [while (true)] loop. *)
Fixpoint randomFood (fuel : nat) (used : gset string) (g : rng) : option (Point * rng) :=
  match fuel with
  | O => None
  | S fuel' =>
      let '(u1, g1) := random g in
      let x := floor_mul u1 GRID in
      let '(u2, g2) := random g1 in
      let y := floor_mul u2 GRID in
      if decide (key (mkPoint x y) ∈ used) then randomFood fuel' used g2
      else Some (mkPoint x y, g2)
  end.

(** The cell that round [k] of [randomFood] draws from generator [g]. *)
Definition candidate (g : rng) (k : nat) : Point :=
  let c := (cursor g + 2 * k)%nat in
  mkPoint (floor_mul (unit_interval (draws g c)) GRID)
          (floor_mul (unit_interval (draws g (S c))) GRID).

Definition kinds : list FoodKind := [apple; strawberry; donut].

(** [randomFoodKind]; the index is always inside [kinds]. *)
Definition randomFoodKind (g : rng) : FoodKind * rng :=
  let '(u, g') := random g in
  (default apple (kinds !! Z.to_nat (floor_mul u (Z.of_nat (length kinds)))), g').

Definition initialSnake : list Point := [mkPoint 3 3; mkPoint 2 3; mkPoint 1 3].

(** The state of the page.  [dirRef], [statusRef] and [snakeRef] equal
    [dir], [status] and [snake] whenever an event starts, so they have no
    field of their own. *)
Record State : Type := mkState {
  status : GameStatus;
  dir : GameDir;
  snake : list Point;
  food : Point;
  foodKind : FoodKind;
  score : Z;
  countdownLeft : Z;
  gen : rng
}.

Definition set_status (st : GameStatus) (s : State) : State :=
  mkState st (dir s) (snake s) (food s) (foodKind s) (score s) (countdownLeft s) (gen s).
Definition set_dir (d : GameDir) (s : State) : State :=
  mkState (status s) d (snake s) (food s) (foodKind s) (score s) (countdownLeft s) (gen s).
Definition set_snake (l : list Point) (s : State) : State :=
  mkState (status s) (dir s) l (food s) (foodKind s) (score s) (countdownLeft s) (gen s).
Definition set_countdown (n : Z) (s : State) : State :=
  mkState (status s) (dir s) (snake s) (food s) (foodKind s) (score s) n (gen s).

(** [prev.some((p) => p.x === nx && p.y === ny)] *)
Definition hits (prev : list Point) (nx ny : Z) : bool :=
  existsb (fun p => (x p =? nx) && (y p =? ny)) prev.

(** The callback of the main-loop interval.  [prev[0]] of an empty snake
    is [undefined] and [head.x] throws.  After the food is moved the code
    draws the food kind and one more number for the id of the ripple. *)
Definition tick (fuel : nat) (s : State) : outcome State :=
  match snake s with
  | [] => Throws
  | head :: _ =>
      let prev := snake s in
      let d := delta (dir s) in
      let nx := x head + x d in
      let ny := y head + y d in
      if (nx <? 0) || (nx >=? GRID) || (ny <? 0) || (ny >=? GRID) || hits prev nx ny
      then Done (set_status ended s)
      else
        let next := mkPoint nx ny :: prev in
        if (nx =? x (food s)) && (ny =? y (food s)) then
          match randomFood fuel (keySet next) (gen s) with
          | None => Unfinished
          | Some (f, g1) =>
              let '(k, g2) := randomFoodKind g1 in
              let '(_, g3) := random g2 in
              Done (mkState (status s) (dir s) next f k (score s + 10) (countdownLeft s) g3)
          end
        else Done (set_snake (removelast next) s)
  end.

(** [beginCountdown], [reset] *)
Definition beginCountdown (s : State) : State := set_status countdown (set_countdown 3 s).

Definition reset (fuel : nat) (s : State) : outcome State :=
  match randomFood fuel (keySet initialSnake) (gen s) with
  | None => Unfinished
  | Some (f, g1) =>
      let '(k, g2) := randomFoodKind g1 in
      Done (mkState idle right initialSnake f k 0 (countdownLeft s) g2)
  end.

(** The direction guard shared by the keyboard and the touch pad. *)
Definition opposite (d : GameDir) : GameDir :=
  match d with up => down | down => up | left => right | right => left end.
Definition turn (d : GameDir) (s : State) : State :=
  if decide (dir s = opposite d) then s else set_dir d s.

(** [setStatus((s) => s === 'paused' ? 'running' : s === 'running' ? 'paused' : s)] *)
Definition togglePause (s : State) : State :=
  match status s with
  | paused => set_status running s
  | running => set_status paused s
  | _ => s
  end.

Inductive Key : Type := KeySpace | KeyEnter | KeyDir (d : GameDir) | KeyOther.

Definition onKeyDown (k : Key) (s : State) : State :=
  match status s with
  | idle => match k with KeySpace | KeyEnter => beginCountdown s | _ => s end
  | countdown => s
  | _ =>
      match k with
      | KeySpace => togglePause s
      | KeyDir d => if decide (status s = running) then turn d s else s
      | _ => s
      end
  end.

Definition handleTapDir (d : GameDir) (s : State) : State :=
  if decide (status s = running) then turn d s else s.

(** One step of the countdown interval. *)
Definition countdownStep (s : State) : State :=
  let next := countdownLeft s - 1 in
  if 1 <=? next then set_countdown next s
  else set_status running (set_countdown 0 s).

(** The button under the board. *)
Definition mainButton (s : State) : State :=
  match status s with
  | idle => beginCountdown s
  | running => set_status paused s
  | paused => set_status running s
  | _ => s
  end.

Inductive Event : Type :=
| Tick
| KeyDown (k : Key)
| TapDir (d : GameDir)
| PauseButton
| MainButton
| StartButton
| AgainButton
| ResetButton
| CountdownTick.

(** The interval timers only exist in the status they belong to, and the
    two overlay buttons only in theirs. *)
Definition step (fuel : nat) (e : Event) (s : State) : outcome State :=
  match e with
  | Tick => if decide (status s = running) then tick fuel s else Done s
  | KeyDown k => Done (onKeyDown k s)
  | TapDir d => Done (handleTapDir d s)
  | PauseButton => Done (togglePause s)
  | MainButton => Done (mainButton s)
  | StartButton => if decide (status s = idle) then Done (beginCountdown s) else Done s
  | AgainButton =>
      if decide (status s = ended) then
        match reset fuel s with
        | Done s' => Done (beginCountdown s')
        | Throws => Throws
        | Unfinished => Unfinished
        end
      else Done s
  | ResetButton => reset fuel s
  | CountdownTick => if decide (status s = countdown) then Done (countdownStep s) else Done s
  end.

(** The state after mounting. *)
Definition initial (fuel : nat) (g : rng) : outcome State :=
  match randomFood fuel (keySet initialSnake) g with
  | None => Unfinished
  | Some (f, g1) =>
      let '(k, g2) := randomFoodKind g1 in
      Done (mkState idle right initialSnake f k 0 3 g2)
  end.

Inductive reachable : State -> Prop :=
| reachable_initial fuel g s : initial fuel g = Done s -> reachable s
| reachable_step fuel e s s' : reachable s -> step fuel e s = Done s' -> reachable s'.

Definition inGrid (p : Point) : Prop := 0 <= x p < GRID /\ 0 <= y p < GRID.

(** The cell the head moves to at the next tick. *)
Definition nextHead (s : State) (head : Point) : Point :=
  mkPoint (x head + x (delta (dir s))) (y head + y (delta (dir s))).

(** A snake that has a head, touches no cell twice and lies on the board. *)
Definition wellFormed (l : list Point) : Prop :=
  l <> [] /\ NoDup l /\ Forall inGrid l.

(** Consecutive cells of a snake are neighbours on the board. *)
Fixpoint contiguous (l : list Point) : bool :=
  match l with
  | p :: rest =>
      match rest with
      | q :: _ => (Z.abs (x p - x q) + Z.abs (y p - y q) =? 1) && contiguous rest
      | [] => true
      end
  | [] => true
  end.

(** A raw draw that [Math.floor (Math.random () * GRID)] turns into [c],
    and a generator whose first candidate is the cell [p]. *)
Definition rawFor (c : Z) : N := Z.to_N (c * 2 ^ 53 / GRID + 1).
Definition genFor (p : Point) : rng :=
  mkRng (fun k => match k with O => rawFor (x p) | S _ => rawFor (y p) end) 0.

(** The grid filled by a snake in boustrophedon order, except for the
    cell [(0, 17)] where the food lies; the head is next to it. *)
Definition serpentineRow (r : Z) : list Point :=
  let cols := map Z.of_nat (seq 0 18) in
  map (fun c => mkPoint c r) (if Z.even r then cols else rev cols).
Definition serpentine : list Point :=
  concat (map (fun r => serpentineRow (Z.of_nat r)) (seq 0 18)).
Definition fullSnake : list Point := tl (rev serpentine).
Definition fullState (g : rng) : State :=
  mkState running left fullSnake (mkPoint 0 17) apple 3200 0 g.

(** The example of the design document. *)
Definition exampleState (g : rng) : State :=
  mkState running right initialSnake (mkPoint 4 3) apple 0 0 g.

(** A snake curled up so that the cell ahead of the head is its tail. *)
Definition curledState (g : rng) : State :=
  mkState running right [mkPoint 1 1; mkPoint 1 2; mkPoint 2 2; mkPoint 2 1]
          (mkPoint 9 9) apple 10 0 g.

(** A sample run: mount, start, and the three steps of the countdown. *)
Definition run (fuel : nat) (events : list Event) (s : State) : outcome State :=
  foldl (fun o e => match o with Done s => step fuel e s | _ => o end) (Done s) events.
Definition demo_mounted : State :=
  match initial 1 demo_rng with Done s => s | _ => exampleState demo_rng end.
Definition demo_running : State :=
  match run 1 [StartButton; CountdownTick; CountdownTick; CountdownTick] demo_mounted with
  | Done s => s
  | _ => demo_mounted
  end.

End Snake.

(** ** Tanks ([Tanks.tsx]): the resolution of bullets *)

Module Tanks.
Import Rand.

Inductive CellType : Type := empty | brick | steel | base.
Inductive Direction : Type := up | right | down | left.
Inductive Side : Type := player | enemy.
Inductive PowerKind : Type := shield | rapid.

(** Ids are the string ['P1'] of the player or a prefix followed by
    [Date.now ()] and [Math.random ()]. *)
Inductive Id : Type :=
| P1
| Stamp (prefix : string) (time : Z) (r : Q).

#[global] Instance Q_eq_dec : EqDecision Q.
Proof. solve_decision. Defined.
#[global] Instance Id_eq_dec : EqDecision Id.
Proof. solve_decision. Defined.
#[global] Instance Side_eq_dec : EqDecision Side.
Proof. solve_decision. Defined.
#[global] Instance CellType_eq_dec : EqDecision CellType.
Proof. solve_decision. Defined.

Record Tank : Type := mkTank {
  tid : Id;
  tx : Z;
  ty : Z;
  tdir : Direction;
  side : Side;
  alive : bool
}.

Record Bullet : Type := mkBullet {
  bid : Id;
  bx : Z;
  by_ : Z;
  bdir : Direction;
  owner : Side;
  active : bool
}.

Record PowerUp : Type := mkPowerUp {
  pid : Id;
  px : Z;
  py : Z;
  kind : PowerKind
}.

Record GameState : Type := mkGameState {
  score : Z;
  lives : Z;
  level : Z;
  kills : Z;
  running : bool;
  paused : bool
}.

Record PlayerPower : Type := mkPlayerPower {
  shieldCharges : Z;
  rapidUntil : Z
}.

Definition GRID : Z := 15.

Definition dirDelta (d : Direction) : Z * Z :=
  match d with
  | up => (0, -1)
  | right => (1, 0)
  | down => (0, 1)
  | left => (-1, 0)
  end.

(** The page between two renders.  The first six fields are the React
    state with every queued updater applied; the [..Ref] fields are what
    the refs hold: the values of the last render, and for [tanksRef] the
    in-place writes made since.  [respawnTimers] counts the pending
    [setTimeout] callbacks of player deaths. *)
Record World : Type := mkWorld {
  terrain : list (list CellType);
  tanks : list Tank;
  bullets : list Bullet;
  powerUps : list PowerUp;
  state : GameState;
  power : PlayerPower;
  terrainRef : list (list CellType);
  tanksRef : list Tank;
  stateRef : GameState;
  powerRef : PlayerPower;
  respawnTimers : nat;
  now : Z;
  gen : rng
}.

Definition set_terrain (t : list (list CellType)) (w : World) : World :=
  mkWorld t (tanks w) (bullets w) (powerUps w) (state w) (power w)
          (terrainRef w) (tanksRef w) (stateRef w) (powerRef w)
          (respawnTimers w) (now w) (gen w).
Definition set_tanks (t : list Tank) (w : World) : World :=
  mkWorld (terrain w) t (bullets w) (powerUps w) (state w) (power w)
          (terrainRef w) (tanksRef w) (stateRef w) (powerRef w)
          (respawnTimers w) (now w) (gen w).
Definition set_bullets (b : list Bullet) (w : World) : World :=
  mkWorld (terrain w) (tanks w) b (powerUps w) (state w) (power w)
          (terrainRef w) (tanksRef w) (stateRef w) (powerRef w)
          (respawnTimers w) (now w) (gen w).
Definition set_powerUps (p : list PowerUp) (w : World) : World :=
  mkWorld (terrain w) (tanks w) (bullets w) p (state w) (power w)
          (terrainRef w) (tanksRef w) (stateRef w) (powerRef w)
          (respawnTimers w) (now w) (gen w).
Definition set_state (s : GameState) (w : World) : World :=
  mkWorld (terrain w) (tanks w) (bullets w) (powerUps w) s (power w)
          (terrainRef w) (tanksRef w) (stateRef w) (powerRef w)
          (respawnTimers w) (now w) (gen w).
Definition set_power (p : PlayerPower) (w : World) : World :=
  mkWorld (terrain w) (tanks w) (bullets w) (powerUps w) (state w) p
          (terrainRef w) (tanksRef w) (stateRef w) (powerRef w)
          (respawnTimers w) (now w) (gen w).
Definition set_tanksRef (t : list Tank) (w : World) : World :=
  mkWorld (terrain w) (tanks w) (bullets w) (powerUps w) (state w) (power w)
          (terrainRef w) t (stateRef w) (powerRef w)
          (respawnTimers w) (now w) (gen w).
Definition set_respawnTimers (n : nat) (w : World) : World :=
  mkWorld (terrain w) (tanks w) (bullets w) (powerUps w) (state w) (power w)
          (terrainRef w) (tanksRef w) (stateRef w) (powerRef w)
          n (now w) (gen w).
Definition set_gen (g : rng) (w : World) : World :=
  mkWorld (terrain w) (tanks w) (bullets w) (powerUps w) (state w) (power w)
          (terrainRef w) (tanksRef w) (stateRef w) (powerRef w)
          (respawnTimers w) (now w) g.

(** [dropPowerUp]: 35% of the time a power-up of a random kind. *)
Definition dropPowerUp (x y : Z) (w : World) : World :=
  let '(u1, g1) := random (gen w) in
  if lt u1 (35 # 100) then
    let '(u2, g2) := random g1 in
    let k := if lt u2 (1 # 2) then shield else rapid in
    let '(u3, g3) := random g2 in
    set_gen g3 (set_powerUps (powerUps w ++ [mkPowerUp (Stamp "PU" (now w) u3) x y k]) w)
  else set_gen g1 w.

Inductive Result : Type := blocked | hit | none.

(** The state updaters that [damageAt] queues. *)
Definition gameOver (s : GameState) : GameState :=
  mkGameState (score s) (lives s) (level s) (kills s) false false.
Definition enemyKilled (s : GameState) : GameState :=
  mkGameState (score s + 100) (lives s) (level s) (kills s + 1) (running s) (paused s).
Definition lifeLost (s : GameState) : GameState :=
  mkGameState (score s) (Z.max 0 (lives s - 1)) (level s) (kills s) (running s) (paused s).
Definition shieldUsed (p : PlayerPower) : PlayerPower :=
  mkPlayerPower (Z.max 0 (shieldCharges p - 1)) (rapidUntil p).
Definition killed (t : Tank) : Tank :=
  mkTank (tid t) (tx t) (ty t) (tdir t) (side t) false.

(** [tanksRef.current.findIndex((t) => t.alive && t.x === x && t.y === y)] *)
Definition tankAt (x y : Z) (l : list Tank) : option (nat * Tank) :=
  list_find (fun t => alive t = true /\ tx t = x /\ ty t = y) l.

(** The part of [damageAt] that follows the terrain: the tank on the cell. *)
Definition damageTank (x y : Z) (owner : Side) (w : World) : Result * World :=
  match tankAt x y (tanksRef w) with
  | None => (none, w)
  | Some (hitIndex, target) =>
      if decide (owner = side target) then (blocked, w)
      else if bool_decide (side target = player) && (0 <? shieldCharges (powerRef w))
      then (hit, set_power (shieldUsed (power w)) w)
      else
        let w1 :=
          set_tanks (map (fun t => if decide (tid t = tid target) then killed t else t) (tanks w))
                    (set_tanksRef (<[hitIndex := killed target]> (tanksRef w)) w) in
        match side target with
        | enemy => (hit, dropPowerUp x y (set_state (enemyKilled (state w1)) w1))
        | player =>
            (hit, set_respawnTimers (S (respawnTimers w1))
                    (set_state (lifeLost (state w1)) w1))
        end
  end.

(** [damageAt].  [None] is the [TypeError] of reading a cell of a row
    that the terrain does not have (or, for the queued [setTerrain], of
    writing it).  A cell past the end of a row reads [undefined], which
    is none of the three walls. *)
Definition damageAt (x y : Z) (owner : Side) (w : World) : option (Result * World) :=
  if (x <? 0) || (x >=? GRID) || (y <? 0) || (y >=? GRID) then Some (blocked, w)
  else
    match terrainRef w !! Z.to_nat y with
    | None => None
    | Some row =>
        match row !! Z.to_nat x with
        | Some steel => Some (blocked, w)
        | Some brick =>
            match Js.mset_checked (terrain w) (Z.to_nat y) (Z.to_nat x) empty with
            | Some t => Some (hit, set_terrain t w)
            | None => None
            end
        | Some base => Some (hit, set_state (gameOver (state w)) w)
        | Some empty | None => Some (damageTank x y owner w)
        end
    end.

(** The cell a bullet moves to. *)
Definition ahead (b : Bullet) : Z * Z :=
  (bx b + (dirDelta (bdir b)).1, by_ b + (dirDelta (bdir b)).2).
Definition moved (b : Bullet) : Bullet :=
  mkBullet (bid b) (ahead b).1 (ahead b).2 (bdir b) (owner b) (active b).

(** One round of the loop over the bullets in [tick]. *)
Definition bulletStep (acc : option (World * list Bullet)) (b : Bullet)
  : option (World * list Bullet) :=
  match acc with
  | None => None
  | Some (w, next) =>
      if negb (active b) then Some (w, next)
      else
        match damageAt (ahead b).1 (ahead b).2 (owner b) w with
        | None => None
        | Some (blocked, w') | Some (hit, w') => Some (w', next)
        | Some (none, w') => Some (w', next ++ [moved b])
        end
  end.

(** The bullet phase of [tick]: [setBullets((prev) => ...)]. *)
Definition advanceBullets (w : World) : option World :=
  match foldl bulletStep (Some (w, [])) (bullets w) with
  | None => None
  | Some (w', next) => Some (set_bullets next w')
  end.

(** The callback of the respawn timer. *)
Definition respawned (t : Tank) : Tank :=
  mkTank (tid t) (GRID / 2) (GRID - 3) up (side t) true.
Definition respawnTimer (w : World) : World :=
  match respawnTimers w with
  | O => w
  | S n =>
      let w := set_respawnTimers n w in
      if (0 <? lives (stateRef w)) && running (stateRef w)
      then set_tanks (map (fun t => if decide (side t = player) then respawned t else t) (tanks w)) w
      else set_state (gameOver (state w)) w
  end.

(** A render: the effects copy the state into the refs. *)
Definition render (w : World) : World :=
  mkWorld (terrain w) (tanks w) (bullets w) (powerUps w) (state w) (power w)
          (terrain w) (tanks w) (state w) (power w)
          (respawnTimers w) (now w) (gen w).

(** A small board for the examples: the base at the bottom centre inside
    its ring of bricks, two enemies side by side in the top row, a bullet
    of the left one flying right, and a bullet above the base flying down. *)
Definition demoTerrain : list (list CellType) :=
  let blank := replicate 15 empty in
  replicate 13 blank
    ++ [replicate 6 empty ++ [brick; empty; brick] ++ replicate 6 empty;
        replicate 6 empty ++ [brick; base; brick] ++ replicate 6 empty].
Definition demoTanks : list Tank :=
  [ mkTank P1 7 12 up player true;
    mkTank (Stamp "E" 1000 (1 # 4)) 3 1 right enemy true;
    mkTank (Stamp "E" 2000 (3 # 4)) 4 1 down enemy true ].
Definition demoBullets : list Bullet :=
  [ mkBullet (Stamp "B-E" 3000 (1 # 8)) 3 1 right enemy true;
    mkBullet (Stamp "B-E" 3100 (5 # 8)) 7 13 down enemy true ].
Definition demoWorld : World :=
  let st := mkGameState 300 3 1 3 true false in
  let pw := mkPlayerPower 0 0 in
  mkWorld demoTerrain demoTanks demoBullets [] st pw
          demoTerrain demoTanks st pw 0 5000 demo_rng.

End Tanks.

(** ** The preference store *)

Module Storage.

(** What a call that may throw gives back. *)
Inductive result (A : Type) : Type :=
| Ok (a : A)
| Raised.
Arguments Ok {A} a.
Arguments Raised {A}.

(** [localStorage] as a key-value store that can be unavailable, in which
    case every access throws. *)
Record LocalStorage : Type := mkStorage {
  available : bool;
  items : gmap string string
}.

Definition getItem (ls : LocalStorage) (k : string) : result (option string) :=
  if available ls then Ok (items ls !! k) else Raised.
Definition setItem (ls : LocalStorage) (k v : string) : result LocalStorage :=
  if available ls then Ok (mkStorage true (<[k := v]> (items ls))) else Raised.

(** [Cards.tsx]: [bestKey] and the two reads made at every render,
    [Number(localStorage.getItem(key) || 0)]. *)
Definition bestKey (pairs : nat) (kind : string) : string :=
  "cards_best_" +:+ Js.show_nat pairs +:+ "_" +:+ kind.
Definition cardsBest (ls : LocalStorage) (pairs : nat) (kind : string) : result Js.value :=
  match getItem ls (bestKey pairs kind) with
  | Raised => Raised
  | Ok None | Ok (Some EmptyString) => Ok (Js.Num 0)
  | Ok (Some s) => Ok (Js.Number s)
  end.

(** [Cards.tsx]: the writes of the effect that runs once all cards are
    matched; [best] is the value read at that render. *)
Definition cardsWrite (ls : LocalStorage) (pairs : nat) (kind : string) (current best : nat)
  : result LocalStorage :=
  if (0 <? current)%nat && ((best =? 0)%nat || (current <? best)%nat)
  then setItem ls (bestKey pairs kind) (Js.show_nat current)
  else Ok ls.
Definition cardsWinEffect (ls : LocalStorage) (pairs moves seconds bestMoves bestSeconds : nat)
  : result LocalStorage :=
  match cardsWrite ls pairs "moves" moves bestMoves with
  | Raised => Raised
  | Ok ls' => cardsWrite ls' pairs "seconds" seconds bestSeconds
  end.

(** [String(b)] *)
Definition showBool (b : bool) : string := if b then "true" else "false".

(** [Tanks.tsx]: the initialisers of [comfort] and [soundOn] (in a
    browser, where [window] is defined) and the effects that store them
    inside [try { } catch { }]. *)
Definition tanksComfortInit (ls : LocalStorage) : result bool :=
  match getItem ls "tanks_comfort" with
  | Raised => Raised
  | Ok None => Ok true
  | Ok (Some saved) => Ok (bool_decide (saved = "true"))
  end.
Definition tanksSoundInit (ls : LocalStorage) : result bool :=
  match getItem ls "tanks_sound" with
  | Raised => Raised
  | Ok None => Ok false
  | Ok (Some saved) => Ok (bool_decide (saved = "true"))
  end.
Definition tanksPersist (key : string) (ls : LocalStorage) (v : bool) : result LocalStorage :=
  match setItem ls key (showBool v) with
  | Raised => Ok ls
  | Ok ls' => Ok ls'
  end.

Definition unavailable : LocalStorage := mkStorage false ∅.

End Storage.

(** ** Snake: the rendered grid ([cells] of [Snake.tsx]) *)

Module SnakeView.
Import Snake.

(** ['empty' | 'body' | 'head' | 'food']; the last one is [foodCell]
    here because [food] is a field of the state. *)
Inductive CellKind : Type := empty | body | head | foodCell.

#[global] Instance CellKind_eq_dec : EqDecision CellKind.
Proof. solve_decision. Defined.

(** [snake.forEach((p, i) => sset.set(`${p.x},${p.y}`, i))]: a later
    cell with the same key replaces the index of an earlier one. *)
Definition sset (snake : list Point) : gmap string nat :=
  foldl (fun m ip => <[key ip.2 := ip.1]> m) ∅ (imap pair snake).

(** The body of the inner loop at column [cx] of row [cy]. *)
Definition paint (m : gmap string nat) (food : Point) (cy cx : nat)
    (items : list (list CellKind)) : list (list CellKind) :=
  let items1 :=
    if (Z.of_nat cx =? x food) && (Z.of_nat cy =? y food)
    then Js.mset items cy cx foodCell else items in
  match m !! key (mkPoint (Z.of_nat cx) (Z.of_nat cy)) with
  | Some O => Js.mset items1 cy cx head
  | Some (S _) => Js.mset items1 cy cx body
  | None => items1
  end.

(** [cells]: rows are indexed by [y], columns by [x]. *)
Definition cells (snake : list Point) (food : Point) : list (list CellKind) :=
  let m := sset snake in
  let items := replicate (Z.to_nat GRID) (replicate (Z.to_nat GRID) empty) in
  Js.for_loop (Z.to_nat GRID) (fun cy items =>
    Js.for_loop (Z.to_nat GRID) (fun cx items => paint m food cy cx items) items) items.

(** What a cell of the board shows, read off the state. *)
Definition shown (snake : list Point) (food : Point) (p : Point) : CellKind :=
  match snake with
  | h :: t =>
      if decide (p = h) then head
      else if decide (p ∈ t) then body
      else if decide (p = food) then foodCell else empty
  | [] => if decide (p = food) then foodCell else empty
  end.

(** What the state of a game keeps besides the shape of the snake. *)
Definition boardInv (s : State) : Prop :=
  inGrid (food s) /\ ~ In (food s) (snake s) /\
  score s = 10 * (Z.of_nat (length (snake s)) - 3) /\
  contiguous (snake s) = true /\ (3 <= length (snake s))%nat.

(** What [paint] leaves in its cell when it finds it [empty]. *)
Definition painted (m : gmap string nat) (food : Point) (cx cy : nat) : CellKind :=
  match m !! key (mkPoint (Z.of_nat cx) (Z.of_nat cy)) with
  | Some O => head
  | Some (S _) => body
  | None =>
      if (Z.of_nat cx =? x food) && (Z.of_nat cy =? y food) then foodCell else empty
  end.

End SnakeView.

(** ** Cards: the number of columns ([getColumns] of [Cards.tsx]) *)

Module CardsView.

(** [Math.ceil (a / c)] on integers, through the exact quotient. *)
Definition ceil_div (a c : Z) : Z := Qceiling (inject_Z a / inject_Z c).

(** The score of the column count [c]; [%] is the remainder of the
    truncated division. *)
Definition columnScore (totalCards c : Z) : Z :=
  let rows := ceil_div totalCards c in
  let remainder := Z.rem totalCards c in
  let ratioDiff := Z.abs (c - rows) in
  let notDivisible := if remainder =? 0 then 0 else 1 in
  notDivisible * 1000 + ratioDiff * 10 + remainder.

(** One round of the loop; [bestScore = None] is
    [Number.POSITIVE_INFINITY]. *)
Definition consider (totalCards : Z) (acc : Z * option Z) (c : Z) : Z * option Z :=
  let '(best, bestScore) := acc in
  let score := columnScore totalCards c in
  match bestScore with
  | Some b => if score <? b then (c, Some score) else acc
  | None => (c, Some score)
  end.

Definition getColumns (totalCards vw : Z) : Z :=
  if vw <? 640 then 3
  else
    let isTablet := vw <? 1024 in
    let min := 4 in
    let max := if isTablet then 5 else 6 in
    fst (foldl (consider totalCards) (min, None)
           (map (fun k => min + Z.of_nat k) (seq 0 (Z.to_nat (max - min + 1))))).

(** The difficulties of the selector. *)
Definition offeredPairs : list Z := [6; 8; 10; 12].

End CardsView.

(** ** Cards: what a game keeps *)

Module CardsTable.
Import Rand Cards.

(** The number of moves after the pair effect has looked at the deck. *)
Definition counted (s : State) : nat :=
  if decide (pairKey (deck s) = "") then moves s
  else if decide (lastPairRef s = Some (pairKey (deck s))) then moves s
  else (moves s + 1)%nat.

Definition base (n : nat) : list nat := map S (seq 0 n).

(** Ids in order, every value on two cards, the clock running exactly
    until the last pair is found, and matched cards face up. *)
Definition tableInv (s : State) : Prop :=
  map id (deck s) = seq 1 (2 * pairs s) /\
  map value (deck s) ≡ₚ base (pairs s) ++ base (pairs s) /\
  running s = negb (allMatched (deck s)) /\
  Forall (fun c => matched c = true -> flipped c = true) (deck s).

End CardsTable.

(** ** Tanks: configuration, terrain, spawning and movement *)

Module TanksRules.
Import Rand Tanks.

(** Decimal literals of the source are read as the rationals they
    denote, and sums and products of them are exact. *)
Record Config : Type := mkConfig {
  tickMs : Z;
  playerStepEvery : Z;
  enemyStepEvery : Z;
  bulletStepEvery : Z;
  enemyFireProb : Q;
  enemyMaxActiveBullets : Z;
  maxConcurrentEnemies : Z
}.

Definition KILLS_PER_LEVEL : Z := 6.
Definition ENEMIES_PER_LEVEL : Z := 6.

Definition standard : Config := mkConfig 65 2 4 1 (8 # 100) 2 3.
Definition comfyBase : Config := mkConfig 65 3 5 1 (5 # 100) 2 2.

Definition getConfig (comfort : bool) (level : Z) : Config :=
  if negb comfort then standard
  else if level <=? 1 then
    mkConfig (tickMs comfyBase) 4 6 (bulletStepEvery comfyBase) (35 # 1000)
             (enemyMaxActiveBullets comfyBase) 1
  else if level =? 2 then
    mkConfig (tickMs comfyBase) 4 6 (bulletStepEvery comfyBase) (45 # 1000)
             (enemyMaxActiveBullets comfyBase) 2
  else comfyBase.

(** [Math.max (min, Math.min (max, n))] *)
Definition clamp (n min max : Z) : Z := Z.max min (Z.min max n).

Definition turnLeft (d : Direction) : Direction :=
  match d with up => left | left => down | down => right | right => up end.
Definition turnRight (d : Direction) : Direction :=
  match d with up => right | right => down | down => left | left => up end.

Definition getBasePos : Z * Z := (GRID / 2, GRID - 1).

(** [for (let i = lo; i < hi; i++) body (i)] *)
Definition for_range {S : Type} (lo hi : Z) (body : Z -> S -> S) (s : S) : S :=
  foldl (fun acc k => body (lo + Z.of_nat k) acc) s (seq 0 (Z.to_nat (hi - lo))).

(** [Math.min] on rationals. *)
Definition Math_min (a b : Q) : Q := if Qle_bool a b then a else b.

(** The densities of [buildTerrain], brick first. *)
Definition normalBrick (level : Z) : Q := (12 # 100) + Math_min (6 # 100) (inject_Z level * (2 # 100)).
Definition normalSteel (level : Z) : Q := (6 # 100) + Math_min (4 # 100) (inject_Z level * (15 # 1000)).
Definition densities (level : Z) : Q * Q :=
  if level =? 1
  then ((normalBrick level * (5 # 10))%Q, (normalSteel level * (5 # 10))%Q)
  else if level =? 2
  then ((normalBrick level * (75 # 100))%Q, (normalSteel level * (7 # 10))%Q)
  else (normalBrick level, normalSteel level).

(** The body of the scattering loops at the cell [(x, y)]. *)
Definition scatter (brickDensity steelDensity : Q) (y x : Z)
    (acc : list (list CellType) * rng) : list (list CellType) * rng :=
  let '(terrain, g) := acc in
  let nearBase := (Z.abs (x - getBasePos.1) <=? 1) && (Z.abs (y - getBasePos.2) <=? 1) in
  let nearSpawn := y >? GRID - 4 in
  if nearBase || nearSpawn then acc
  else
    let '(r, g') := random g in
    if lt r steelDensity then (Js.mset terrain (Z.to_nat y) (Z.to_nat x) steel, g')
    else if lt r (steelDensity + brickDensity)%Q
    then (Js.mset terrain (Z.to_nat y) (Z.to_nat x) brick, g')
    else (terrain, g').

(** The body of the loops that lay the ring of bricks. *)
Definition ringCell (dy dx : Z) (terrain : list (list CellType)) : list (list CellType) :=
  if (dx =? 0) && (dy =? 0) then terrain
  else
    let xx := getBasePos.1 + dx in
    let yy := getBasePos.2 + dy in
    if (xx >=? 0) && (xx <? GRID) && (yy >=? 0) && (yy <? GRID)
    then Js.mset terrain (Z.to_nat yy) (Z.to_nat xx) brick
    else terrain.

Definition buildTerrain (level : Z) (g : rng) : list (list CellType) * rng :=
  let terrain := replicate (Z.to_nat GRID) (replicate (Z.to_nat GRID) empty) in
  let '(brickDensity, steelDensity) := densities level in
  let '(terrain, g') :=
    for_range 1 (GRID - 1) (fun y acc =>
      for_range 1 (GRID - 1) (fun x acc => scatter brickDensity steelDensity y x acc) acc)
      (terrain, g) in
  let terrain := Js.mset terrain (Z.to_nat getBasePos.2) (Z.to_nat getBasePos.1) base in
  let terrain :=
    for_range (-1) 2 (fun dy terrain =>
      for_range (-1) 2 (fun dx terrain => ringCell dy dx terrain) terrain) terrain in
  (terrain, g').

(** [`${x},${y}`] *)
Definition posKey (x y : Z) : string := Js.show_Z x +:+ "," +:+ Js.show_Z y.

(** [new Set (tanks.filter (t => t.alive).map (t => `${t.x},${t.y}`))] *)
Definition occupiedKeys (tanks : list Tank) : gset string :=
  list_to_set (map (fun t => posKey (tx t) (ty t)) (List.filter alive tanks)).

Definition candidates : list (Z * Z) := [(1, 1); (GRID / 2, 1); (GRID - 2, 1)].

(** The inner loop of [spawnEnemyPositions] over the remaining values
    of [k]; [None] when it ends without returning. *)
Fixpoint probe (occupied : gset string) (ks : list Z) (x y : Z) : option (Z * Z) :=
  match ks with
  | [] => None
  | k :: ks' =>
      if decide (posKey x y ∈ occupied)
      then probe occupied ks' (clamp (x + (k - 1)) 1 (GRID - 2)) (clamp (y + 1) 1 (GRID - 2))
      else Some (x, y)
  end.

Fixpoint firstFree (occupied : gset string) (cs : list (Z * Z)) : option (Z * Z) :=
  match cs with
  | [] => None
  | (x, y) :: rest =>
      match probe occupied [0; 1; 2] x y with
      | Some p => Some p
      | None => firstFree occupied rest
      end
  end.

Definition spawnEnemyPositions (tanks : list Tank) : Z * Z :=
  default (GRID / 2, 1) (firstFree (occupiedKeys tanks) candidates).

(** The nine cells that [spawnEnemyPositions] looks at, in its order. *)
Definition probes : list (Z * Z) :=
  [(1, 1); (1, 2); (1, 3); (7, 1); (6, 2); (6, 3); (13, 1); (12, 2); (12, 3)].

(** [tanks.some (t => t.alive && t.x === x && t.y === y)] *)
Definition tankOn (x y : Z) (l : list Tank) : bool :=
  existsb (fun t => alive t && (tx t =? x) && (ty t =? y)) l.

Definition manhattan (ax ay bx by_ : Z) : Z := Z.abs (ax - bx) + Z.abs (ay - by_).

(** [baseDanger] *)
Definition baseDanger (bullets : list Bullet) : bool :=
  existsb (fun b => bool_decide (owner b = enemy) &&
                    (manhattan (bx b) (by_ b) getBasePos.1 getBasePos.2 <=? 3)) bullets.

(** [canMoveTo]; [None] is the [TypeError] of reading a cell of a row
    that [terrainRef] does not have. *)
Definition canMoveTo (x y : Z) (w : World) : option bool :=
  if (x <? 0) || (x >=? GRID) || (y <? 0) || (y >=? GRID) then Some false
  else
    match terrainRef w !! Z.to_nat y with
    | None => None
    | Some row =>
        match row !! Z.to_nat x with
        | Some brick | Some steel | Some base => Some false
        | Some empty | None => Some (negb (tankOn x y (tanksRef w)))
        end
    end.

(** [moveTank] writes into the tank object it is given; the result is
    that object after the call. *)
Definition moveTank (t : Tank) (dir : Direction) (w : World) : option Tank :=
  let '(dx, dy) := dirDelta dir in
  let nx := clamp (tx t + dx) 0 (GRID - 1) in
  let ny := clamp (ty t + dy) 0 (GRID - 1) in
  match canMoveTo nx ny w with
  | None => None
  | Some true => Some (mkTank (tid t) nx ny dir (side t) (alive t))
  | Some false => Some (mkTank (tid t) (tx t) (ty t) dir (side t) (alive t))
  end.

(** The updaters of [power] besides [shieldUsed]: picking up a shield or
    a rapid-fire power-up, and [nextLevel]. *)
Definition shieldPicked (p : PlayerPower) : PlayerPower :=
  mkPlayerPower (Z.min 3 (shieldCharges p + 1)) (rapidUntil p).
Definition rapidPicked (now : Z) (p : PlayerPower) : PlayerPower :=
  mkPlayerPower (shieldCharges p) (now + 8000).
Definition shieldKept (p : PlayerPower) : PlayerPower :=
  mkPlayerPower (Z.min 2 (shieldCharges p)) (rapidUntil p).

(** [pickupPowerUpIfAny]; [powerUpsRef] is the list of the last render. *)
Definition pickupPowerUpIfAny (x y : Z) (powerUpsRef : list PowerUp) (w : World) : World :=
  match list_find (fun pu => px pu = x /\ py pu = y) powerUpsRef with
  | None => w
  | Some (_, pu) =>
      let w1 :=
        match kind pu with
        | shield => set_power (shieldPicked (power w)) w
        | rapid => set_power (rapidPicked (now w) (power w)) w
        end in
      set_powerUps (List.filter (fun p => bool_decide (pid p <> pid pu)) (powerUps w1)) w1
  end.

Definition playerStart : Tank := mkTank P1 (GRID / 2) (GRID - 3) up player true.

(** [nextLevel] *)
Definition nextLevel (w : World) : World :=
  let s := state w in
  let '(t, g) := buildTerrain (level (stateRef w) + 1) (gen w) in
  mkWorld t
    (map (fun t => mkTank (tid t) (GRID / 2) (GRID - 3) up (side t) true)
         (List.filter (fun t => bool_decide (side t = player)) (tanks w)))
    [] []
    (mkGameState (score s) (lives s) (level s + 1) 0 (running s) (paused s))
    (shieldKept (power w))
    (terrainRef w) (tanksRef w) (stateRef w) (powerRef w) (respawnTimers w) (now w) g.

(** [reset] and [handleReset] *)
Definition reset (w : World) : World :=
  let s := state w in
  let '(t, g) := buildTerrain (level (stateRef w)) (gen w) in
  mkWorld t [playerStart] [] []
    (mkGameState (score s) (lives s) (level s) 0 true false)
    (mkPlayerPower 0 0)
    (terrainRef w) (tanksRef w) (stateRef w) (powerRef w) (respawnTimers w) (now w) g.
Definition handleReset (w : World) : World :=
  let '(t, g) := buildTerrain 1 (gen w) in
  mkWorld t [playerStart] [] []
    (mkGameState 0 3 1 0 true false)
    (mkPlayerPower 0 0)
    (terrainRef w) (tanksRef w) (stateRef w) (powerRef w) (respawnTimers w) (now w) g.

(** What the scattering leaves: a full board on which walls only stand
    in rows 1 to 11 and columns 1 to 13, and there is no base yet. *)
Definition scattered (acc : list (list CellType) * rng) : Prop :=
  Js.rect 15 15 acc.1 /\
  forall i j c, Js.mget acc.1 i j = Some c ->
    c = empty \/ ((c = steel \/ c = brick) /\ (1 <= i <= 11)%nat /\ (1 <= j <= 13)%nat).

Definition ring : list (nat * nat) :=
  [(13, 6); (13, 7); (13, 8); (14, 6); (14, 8)]%nat.

End TanksRules.

(** ** Tanks: the books of a bullet phase *)

Module TanksLedger.
Import Rand Tanks.

(** The live enemies of a list of tanks. *)
Definition liveEnemy (t : Tank) : bool := alive t && bool_decide (side t = enemy).
Definition aliveEnemies (l : list Tank) : Z := Z.of_nat (length (List.filter liveEnemy l)).

(** What one call of [damageAt], and so a whole bullet phase, keeps. *)
Record ledger (w w' : World) : Prop := mkLedger {
  ledger_level : level (state w') = level (state w);
  ledger_kills : kills (state w) <= kills (state w');
  ledger_score : score (state w') = score (state w) + 100 * (kills (state w') - kills (state w));
  ledger_enemies :
    kills (state w') + aliveEnemies (tanksRef w') = kills (state w) + aliveEnemies (tanksRef w);
  ledger_lives : 0 <= lives (state w) -> 0 <= lives (state w') <= lives (state w);
  ledger_shield :
    0 <= shieldCharges (power w) ->
    0 <= shieldCharges (power w') <= shieldCharges (power w);
  ledger_refs :
    terrainRef w' = terrainRef w /\ stateRef w' = stateRef w /\ powerRef w' = powerRef w;
  ledger_bullets : bullets w' = bullets w
}.

(** Worlds that differ at most in the shield state. *)
Definition sameButPower (w0 w : World) : Prop :=
  terrain w0 = terrain w /\ tanks w0 = tanks w /\ powerUps w0 = powerUps w /\
  state w0 = state w /\ terrainRef w0 = terrainRef w /\ tanksRef w0 = tanksRef w /\
  powerRef w0 = powerRef w.

(** A board for the examples of this part: the player at (7, 12) with
    one shield charge, and three enemy bullets about to reach it from
    the left, from the right and from above. *)
Definition volleyWorld : World :=
  let st := mkGameState 0 3 1 0 true false in
  let pw := mkPlayerPower 1 0 in
  let bs := [ mkBullet (Stamp "B-E" 1 (1 # 8)) 6 12 right enemy true;
              mkBullet (Stamp "B-E" 2 (1 # 8)) 8 12 left enemy true;
              mkBullet (Stamp "B-E" 3 (1 # 8)) 7 11 down enemy true ] in
  mkWorld demoTerrain demoTanks bs [] st pw demoTerrain demoTanks st pw 0 5000 demo_rng.

End TanksLedger.

(** ** Tetris: the game around the board ([Tetris.tsx]) *)

Module TetrisGame.
Import Js Rand Tetris.

Definition SPEEDS : list Z := [800; 650; 520; 420; 330; 260; 200; 160; 130; 100].

(** [randomIndex] *)
Definition randomIndex (g : rng) : nat * rng :=
  let '(u, g') := random g in
  (Z.to_nat (floor_mul u (Z.of_nat (length SHAPES))), g').

(** [buildPiece]; [None] is the [TypeError] of [shape[0]] when
    [SHAPES[idx]] is [undefined]. *)
Definition buildPiece (i : nat) : option ActivePiece :=
  match SHAPES !! i with
  | Some (row0 :: rest) =>
      Some (mkPiece (row0 :: rest) ((Z.of_nat COLS - Z.of_nat (length row0)) / 2) 0
                    (Z.of_nat i + 1) i)
  | _ => None
  end.

(** The body of the loops of [collide] for one cell of the shape:
    [Some true] returns [true], [Some false] goes on, [None] is the
    [TypeError] of reading a cell of a row that the board does not have.
    A cell past the end of a row reads [undefined], which is not [0]. *)
Definition collide_cell (b : Board) (p : ActivePiece) (r c : nat) : option bool :=
  if negb (truthy (read (shape p) r c)) then Some false
  else
    let cy := y p + Z.of_nat r in
    let cx := x p + Z.of_nat c in
    if (cx <? 0) || (cx >=? Z.of_nat COLS) || (cy >=? Z.of_nat ROWS) then Some true
    else if cy >=? 0 then
      match b !! Z.to_nat cy with
      | None => None
      | Some row => Some (strict_ne_zero (default Undefined (row !! Z.to_nat cx)))
      end
    else Some false.

(** A loop that returns [true] from inside its body. *)
Fixpoint first_true (f : nat -> option bool) (l : list nat) : option bool :=
  match l with
  | [] => Some false
  | i :: l' =>
      match f i with
      | None => None
      | Some true => Some true
      | Some false => first_true f l'
      end
  end.

Definition collide (b : Board) (p : ActivePiece) : option bool :=
  let cols := match shape p with row0 :: _ => length row0 | [] => O end in
  first_true (fun r => first_true (fun c => collide_cell b p r c) (seq 0 cols))
             (seq 0 (length (shape p))).

Definition set_x (v : Z) (p : ActivePiece) : ActivePiece :=
  mkPiece (shape p) v (y p) (color p) (idx p).
Definition set_y (v : Z) (p : ActivePiece) : ActivePiece :=
  mkPiece (shape p) (x p) v (color p) (idx p).
Definition set_shape (sh : PieceShape) (p : ActivePiece) : ActivePiece :=
  mkPiece sh (x p) (y p) (color p) (idx p).

(** The page. *)
Record Game : Type := mkGame {
  board : Board;
  piece : option ActivePiece;
  stats : TetrisStats;
  running : bool;
  gameOver : bool;
  nextIdx : nat;
  holdIdx : option nat;
  canHold : bool;
  gen : rng
}.

Definition set_board (b : Board) (s : Game) : Game :=
  mkGame b (piece s) (stats s) (running s) (gameOver s) (nextIdx s) (holdIdx s)
         (canHold s) (gen s).
Definition set_piece (p : option ActivePiece) (s : Game) : Game :=
  mkGame (board s) p (stats s) (running s) (gameOver s) (nextIdx s) (holdIdx s)
         (canHold s) (gen s).
Definition set_stats (st : TetrisStats) (s : Game) : Game :=
  mkGame (board s) (piece s) st (running s) (gameOver s) (nextIdx s) (holdIdx s)
         (canHold s) (gen s).
Definition set_running (r : bool) (s : Game) : Game :=
  mkGame (board s) (piece s) (stats s) r (gameOver s) (nextIdx s) (holdIdx s)
         (canHold s) (gen s).
Definition set_gameOver (o : bool) (s : Game) : Game :=
  mkGame (board s) (piece s) (stats s) (running s) o (nextIdx s) (holdIdx s)
         (canHold s) (gen s).
Definition set_nextIdx (n : nat) (s : Game) : Game :=
  mkGame (board s) (piece s) (stats s) (running s) (gameOver s) n (holdIdx s)
         (canHold s) (gen s).
Definition set_holdIdx (h : option nat) (s : Game) : Game :=
  mkGame (board s) (piece s) (stats s) (running s) (gameOver s) (nextIdx s) h
         (canHold s) (gen s).
Definition set_canHold (c : bool) (s : Game) : Game :=
  mkGame (board s) (piece s) (stats s) (running s) (gameOver s) (nextIdx s) (holdIdx s)
         c (gen s).
Definition set_gen (g : rng) (s : Game) : Game :=
  mkGame (board s) (piece s) (stats s) (running s) (gameOver s) (nextIdx s) (holdIdx s)
         (canHold s) g.

(** [spawn (b)]: the piece, or [None] for [ok: false], and the state
    with the updates it queued. *)
Definition spawn (b : Board) (s : Game) : option (option ActivePiece * Game) :=
  match buildPiece (nextIdx s) with
  | None => None
  | Some current =>
      let '(next, g) := randomIndex (gen s) in
      let s1 := set_gen g (set_nextIdx next s) in
      match collide b current with
      | None => None
      | Some true => Some (None, s1)
      | Some false => Some (Some current, set_canHold true s1)
      end
  end.

(** [setRunning (false); setGameOver (true)] and the piece set to [null]. *)
Definition gameEnds (s : Game) : Game :=
  set_piece None (set_gameOver true (set_running false s)).

(** What [tick] and the hard drop do with a piece that has landed:
    merge, clear, score, spawn, [setBoard]. *)
Definition lockAndSpawn (p : ActivePiece) (s : Game) : option Game :=
  match lock (board s) p (stats s) with
  | None => None
  | Some (cl, st) =>
      match spawn (Tetris.board cl) (set_stats st s) with
      | None => None
      | Some (None, s2) => Some (gameEnds (set_board (Tetris.board cl) s2))
      | Some (Some newP, s2) => Some (set_piece (Some newP) (set_board (Tetris.board cl) s2))
      end
  end.

(** [tick] *)
Definition tick (s : Game) : option Game :=
  if negb (running s) || gameOver s then Some s
  else
    match piece s with
    | None => Some s
    | Some prev =>
        let moved := set_y (y prev + 1) prev in
        match collide (board s) moved with
        | None => None
        | Some false => Some (set_piece (Some moved) s)
        | Some true => lockAndSpawn prev s
        end
    end.

(** [while (!collide (b, { ...fall, y: fall.y + 1 })) fall.y += 1],
    at most [fuel] rounds. *)
Fixpoint fall (fuel : nat) (b : Board) (p : ActivePiece) : Snake.outcome ActivePiece :=
  match fuel with
  | O => Snake.Unfinished
  | S fuel' =>
      match collide b (set_y (y p + 1) p) with
      | None => Snake.Throws
      | Some true => Snake.Done p
      | Some false => fall fuel' b (set_y (y p + 1) p)
      end
  end.

(** [computeGhost] *)
Definition computeGhost (fuel : nat) (p : option ActivePiece) (b : Board)
  : Snake.outcome (option ActivePiece) :=
  match p with
  | None => Snake.Done None
  | Some p =>
      match fall fuel b p with
      | Snake.Done ghost => Snake.Done (Some ghost)
      | Snake.Throws => Snake.Throws
      | Snake.Unfinished => Snake.Unfinished
      end
  end.

(** [doHold] *)
Definition doHold (s : Game) : option Game :=
  match piece s with
  | None => Some s
  | Some prev =>
      if negb (canHold s) then Some s
      else
        let s0 := set_canHold false s in
        match holdIdx s with
        | None =>
            match spawn (board s) (set_holdIdx (Some (idx prev)) s0) with
            | None => None
            | Some (None, s2) => Some (gameEnds s2)
            | Some (Some newP, s2) => Some (set_piece (Some newP) s2)
            end
        | Some h =>
            match buildPiece h with
            | None => None
            | Some swapped =>
                let s1 := set_holdIdx (Some (idx prev)) s0 in
                match collide (board s) swapped with
                | None => None
                | Some true => Some (gameEnds s1)
                | Some false => Some (set_piece (Some swapped) s1)
                end
            end
        end
  end.

Inductive Key : Type :=
| ArrowLeft | ArrowRight | ArrowDown | ArrowUp | Space | KeyP | KeyC | OtherKey.

Definition lift {A : Type} (o : option A) : Snake.outcome A :=
  match o with Some a => Snake.Done a | None => Snake.Throws end.

(** A move that is made when the moved piece does not collide. *)
Definition tryMove (moved : ActivePiece) (s : Game) : Snake.outcome Game :=
  match collide (board s) moved with
  | None => Snake.Throws
  | Some true => Snake.Done s
  | Some false => Snake.Done (set_piece (Some moved) s)
  end.

(** [handleKey] *)
Definition handleKey (fuel : nat) (k : Key) (s : Game) : Snake.outcome Game :=
  match piece s with
  | None => Snake.Done s
  | Some p =>
      if negb (running s) || gameOver s then Snake.Done s
      else
        match k with
        | ArrowLeft => tryMove (set_x (x p - 1) p) s
        | ArrowRight => tryMove (set_x (x p + 1) p) s
        | ArrowDown => tryMove (set_y (y p + 1) p) s
        | ArrowUp =>
            match rotate (shape p) with
            | None => Snake.Throws
            | Some sh => tryMove (set_shape sh p) s
            end
        | Space =>
            match fall fuel (board s) p with
            | Snake.Done landed => lift (lockAndSpawn landed s)
            | Snake.Throws => Snake.Throws
            | Snake.Unfinished => Snake.Unfinished
            end
        | KeyP => Snake.Done (set_running (negb (running s)) s)
        | KeyC => lift (doHold s)
        | OtherKey => Snake.Done s
        end
  end.

Definition emptyBoard : Board := replicate ROWS (replicate COLS (Num 0)).

(** [startGame] *)
Definition startGame (s : Game) : option Game :=
  let '(n, g1) := randomIndex (gen s) in
  let '(f, g2) := randomIndex g1 in
  match buildPiece f with
  | None => None
  | Some first =>
      Some (mkGame emptyBoard (Some first) (mkStats (Num 0) 0 1) true false n None true g2)
  end.

(** The delay of the falling interval: [None] is [null] (no interval). *)
Definition delay (s : Game) : option value :=
  if running s && negb (gameOver s)
  then Some (let k := Z.min (level (stats s) - 1) (Z.of_nat (length SPEEDS) - 1) in
             if k <? 0 then Undefined
             else match SPEEDS !! Z.to_nat k with Some d => Num d | None => Undefined end)
  else None.

(** The interval, the keyboard and the buttons.  The pause button is
    shown while the game runs, the resume button while it neither runs
    nor is over; a button that starts a game is always shown. *)
Inductive Event : Type :=
| Tick
| KeyDown (k : Key)
| PauseButton
| ResumeButton
| StartButton.

Definition step (fuel : nat) (e : Event) (s : Game) : Snake.outcome Game :=
  match e with
  | Tick => if running s && negb (gameOver s) then lift (tick s) else Snake.Done s
  | KeyDown k => handleKey fuel k s
  | PauseButton => Snake.Done (if running s then set_running false s else s)
  | ResumeButton =>
      Snake.Done (if negb (running s) && negb (gameOver s) then set_running true s else s)
  | StartButton => lift (startGame s)
  end.

(** The state after mounting. *)
Definition initial (g : rng) : Game :=
  let '(n, g') := randomIndex g in
  mkGame emptyBoard None (mkStats (Num 0) 0 1) false false n None true g'.

Inductive reachable : Game -> Prop :=
| reachable_initial g : reachable (initial g)
| reachable_step fuel e s s' : reachable s -> step fuel e s = Snake.Done s' -> reachable s'.

(** The shapes a piece of kind [i] can take: the shape of the table
    and its quarter turns. *)
Definition turns (sh : PieceShape) : list PieceShape :=
  sh :: match rotate sh with
        | Some s1 => s1 :: match rotate s1 with
                           | Some s2 => s2 :: match rotate s2 with
                                              | Some s3 => [s3]
                                              | None => []
                                              end
                           | None => []
                           end
        | None => []
        end.
Definition orbit (i : nat) : list PieceShape :=
  match SHAPES !! i with Some sh => turns sh | None => [] end.

(** The cells of the board that the piece covers. *)
Definition covers (p : ActivePiece) (i j : nat) : Prop :=
  exists r c, truthy (read (shape p) r c) = true /\
    (r < length (shape p))%nat /\
    (c < match shape p with row0 :: _ => length row0 | [] => O end)%nat /\
    Z.of_nat i = y p + Z.of_nat r /\ Z.of_nat j = x p + Z.of_nat c.

(** What holds of the page between events. *)
Record Inv (s : Game) : Prop := mkInv {
  inv_board : rect ROWS COLS (board s);
  inv_rows : Forall (fun row => full row = false) (board s);
  inv_score : exists z, score (stats s) = Num z /\ 0 <= z;
  inv_lines : 0 <= lines (stats s);
  inv_level : level (stats s) = Z.min 10 (1 + lines (stats s) / 10);
  inv_next : (nextIdx s < length SHAPES)%nat;
  inv_hold : forall h, holdIdx s = Some h -> (h < length SHAPES)%nat;
  inv_piece : forall p, piece s = Some p ->
    collide (board s) p = Some false /\ In (shape p) (orbit (idx p)) /\
    color p = Z.of_nat (idx p) + 1 /\ 0 <= y p;
  inv_over : gameOver s = true -> running s = false /\ piece s = None
}.

(** The width that the loops of [collide] and [merge] use. *)
Definition width (p : ActivePiece) : nat :=
  match shape p with row0 :: _ => length row0 | [] => O end.

(** The cell [(r, c)] of the shape is set and lies outside the board to
    the left, to the right or below, or on a cell of the board that is
    not [0]. *)
Definition blocked_at (b : Board) (p : ActivePiece) (r c : nat) : Prop :=
  truthy (read (shape p) r c) = true /\
  let cy := y p + Z.of_nat r in
  let cx := x p + Z.of_nat c in
  cx < 0 \/ Z.of_nat COLS <= cx \/ Z.of_nat ROWS <= cy \/
  (0 <= cy /\ strict_ne_zero (read b (Z.to_nat cy) (Z.to_nat cx)) = true).

(** The set cells of the shape that the loops of [merge] have visited
    before round [(r0, c0)], as cells [(i, j)] of the board. *)
Definition visited (p : ActivePiece) (r0 c0 : nat) (i j : nat) : Prop :=
  exists r c, ((r < r0)%nat \/ (r = r0 /\ (c < c0)%nat)) /\
    (r < length (shape p))%nat /\ (c < width p)%nat /\
    truthy (read (shape p) r c) = true /\
    Z.of_nat i = y p + Z.of_nat r /\ Z.of_nat j = x p + Z.of_nat c.

Definition merged_upto (b : Board) (p : ActivePiece) (r0 c0 : nat)
    (copy : option Board) : Prop :=
  exists m, copy = Some m /\ rect ROWS COLS m /\
    forall i j, (i < ROWS)%nat -> (j < COLS)%nat ->
      (visited p r0 c0 i j -> mget m i j = Some (Num (color p))) /\
      (~ visited p r0 c0 i j -> mget m i j = mget b i j).

Definition has_cell_b (sh : PieceShape) : bool :=
  existsb (fun r =>
    existsb (fun c => truthy (read sh r c))
            (seq 0 (match sh with row0 :: _ => length row0 | [] => O end)))
    (seq 0 (length sh)).

(** What [fall] answers for a piece that is free where it starts. *)
Definition landing (b : Board) (p landed : ActivePiece) : Prop :=
  shape landed = shape p /\ x landed = x p /\ color landed = color p /\
  idx landed = idx p /\ y p <= y landed /\
  collide b landed = Some false /\
  collide b (set_y (y landed + 1) landed) = Some true /\
  forall yy, y p <= yy <= y landed -> collide b (set_y yy p) = Some false.

(** A piece that is free on the board [b] and of a shape of its kind. *)
Definition goodPiece (b : Board) (p : ActivePiece) : Prop :=
  collide b p = Some false /\ In (shape p) (orbit (idx p)) /\
  color p = Z.of_nat (idx p) + 1 /\ 0 <= y p.

Definition goodStats (st : TetrisStats) : Prop :=
  (exists z, score st = Num z /\ 0 <= z) /\ 0 <= lines st /\
  level st = Z.min 10 (1 + lines st / 10).

(** A sample game: started, then the piece dropped at once. *)
Definition demo_started : Game :=
  match startGame (initial demo_rng) with Some s => s | None => initial demo_rng end.
Definition demo_dropped : Game :=
  match step 30 (KeyDown Space) demo_started with
  | Snake.Done s => s
  | _ => demo_started
  end.

End TetrisGame.

(** * Properties *)

(** ** Arrays of arrays *)

Module JsFacts.
Import Js.

Lemma for_loop_S {S : Type} (n : nat) (body : nat -> S -> S) (s : S) :
  for_loop (Datatypes.S n) body s = body n (for_loop n body s).
Proof.
  unfold for_loop. rewrite seq_S, foldl_app. reflexivity.
Qed.

Lemma for_loop_0 {S : Type} (body : nat -> S -> S) (s : S) :
  for_loop 0 body s = s.
Proof. reflexivity. Qed.

Section Matrix.
Context {A : Type}.
Implicit Types (m : list (list A)) (v : A).

Lemma rect_replicate (R C : nat) v : rect R C (replicate R (replicate C v)).
Proof.
  split; [apply length_replicate|].
  apply Forall_replicate, length_replicate.
Qed.

Lemma rect_mset R C m i j v : rect R C m -> rect R C (mset m i j v).
Proof.
  intros [Hl Hr]. unfold mset. split.
  - rewrite length_alter. exact Hl.
  - rewrite Forall_lookup in *. intros k row Hk.
    destruct (decide (k = i)) as [->|Hne].
    + rewrite list_lookup_alter_eq in Hk.
      destruct (m !! i) as [row0|] eqn:E; simplify_eq/=.
      rewrite length_insert. eauto.
    + rewrite list_lookup_alter_ne in Hk by congruence. eauto.
Qed.

Lemma mget_is_Some R C m i j :
  rect R C m -> (i < R)%nat -> (j < C)%nat -> is_Some (mget m i j).
Proof.
  intros [Hl Hr] Hi Hj. unfold mget.
  destruct (lookup_lt_is_Some_2 m i) as [row Hrow]; [lia|].
  rewrite Hrow. apply lookup_lt_is_Some_2.
  rewrite Forall_lookup in Hr. rewrite (Hr _ _ Hrow). exact Hj.
Qed.

Lemma mget_mset R C m i j v i' j' :
  rect R C m -> (i < R)%nat -> (j < C)%nat ->
  mget (mset m i j v) i' j' =
    if decide (i' = i /\ j' = j) then Some v else mget m i' j'.
Proof.
  intros [Hl Hr] Hi Hj. unfold mget, mset.
  destruct (lookup_lt_is_Some_2 m i) as [row Hrow]; [lia|].
  assert (length row = C) as Hlen by (rewrite Forall_lookup in Hr; eauto).
  destruct (decide (i' = i)) as [->|Hne].
  - rewrite list_lookup_alter_eq, Hrow. simpl.
    destruct (decide (j' = j)) as [->|Hnj].
    + rewrite decide_True by done. apply list_lookup_insert_eq. lia.
    + rewrite decide_False by (intros [_ ?]; done).
      apply list_lookup_insert_ne. congruence.
  - rewrite list_lookup_alter_ne by congruence.
    rewrite decide_False by (intros [? _]; done). reflexivity.
Qed.

(** Two arrays of the same shape with the same cells are equal. *)
Lemma rect_ext R C m1 m2 :
  rect R C m1 -> rect R C m2 ->
  (forall i j, (i < R)%nat -> (j < C)%nat -> mget m1 i j = mget m2 i j) ->
  m1 = m2.
Proof.
  intros [Hl1 Hr1] [Hl2 Hr2] Hcells.
  apply list_eq. intros i.
  destruct (decide (i < R)%nat) as [Hi|Hi].
  - destruct (lookup_lt_is_Some_2 m1 i) as [r1 E1]; [lia|].
    destruct (lookup_lt_is_Some_2 m2 i) as [r2 E2]; [lia|].
    rewrite E1, E2. f_equal.
    rewrite Forall_lookup in Hr1, Hr2.
    pose proof (Hr1 _ _ E1) as L1. pose proof (Hr2 _ _ E2) as L2.
    apply list_eq. intros j.
    destruct (decide (j < C)%nat) as [Hj|Hj].
    + specialize (Hcells i j Hi Hj). unfold mget in Hcells.
      rewrite E1, E2 in Hcells. exact Hcells.
    + rewrite !lookup_ge_None_2 by lia. reflexivity.
  - rewrite !lookup_ge_None_2 by lia. reflexivity.
Qed.

End Matrix.

(** *** Template strings and their parsing *)

Fixpoint no_char (sep : ascii) (s : string) : Prop :=
  match s with
  | EmptyString => True
  | String c s' => c <> sep /\ no_char sep s'
  end.

Lemma uint_no_char (sep : ascii) (d : Decimal.uint) :
  sep = "-"%char \/ sep = ","%char ->
  no_char sep (NilEmpty.string_of_uint d).
Proof.
  intros Hsep. induction d; simpl; try exact I;
    (split; [destruct Hsep; subst; discriminate|assumption]).
Qed.

Lemma nzuint_no_char (sep : ascii) (d : Decimal.uint) :
  sep = "-"%char \/ sep = ","%char ->
  no_char sep (NilZero.string_of_uint d).
Proof.
  intros Hsep. destruct d; try apply (uint_no_char sep _ Hsep).
  simpl. split; [destruct Hsep; subst; discriminate|exact I].
Qed.

Lemma show_Z_no_comma (z : Z) : no_char "," (show_Z z).
Proof.
  unfold show_Z. destruct (Z.to_int z) as [d|d]; simpl.
  - apply nzuint_no_char. right. reflexivity.
  - split; [discriminate|]. apply nzuint_no_char. right. reflexivity.
Qed.

Lemma show_nat_no_dash (n : nat) : no_char "-" (show_nat n).
Proof.
  unfold show_nat, show_Z.
  destruct (Z.of_nat n) eqn:E; try lia; unfold Z.to_int, NilZero.string_of_int;
    apply nzuint_no_char; left; reflexivity.
Qed.

Lemma split_none (sep : ascii) (s : string) :
  no_char sep s -> split sep s = [s].
Proof.
  induction s as [|c s IH]; simpl; [reflexivity|].
  intros [Hc Hs]. rewrite decide_False by exact Hc.
  rewrite IH by exact Hs. reflexivity.
Qed.

Lemma split_app (sep : ascii) (s1 s2 : string) :
  no_char sep s1 ->
  split sep (s1 +:+ String sep s2) = s1 :: split sep s2.
Proof.
  induction s1 as [|c s1 IH]; simpl.
  - intros _. rewrite decide_True by reflexivity. reflexivity.
  - intros [Hc Hs]. rewrite decide_False by exact Hc.
    rewrite IH by exact Hs. reflexivity.
Qed.

Lemma to_int_nonnil (z : Z) :
  Z.to_int z <> Decimal.Pos Decimal.Nil /\ Z.to_int z <> Decimal.Neg Decimal.Nil.
Proof.
  destruct z as [|p|p]; simpl; split; try discriminate;
    intros [= H]; exact (DecimalPos.Unsigned.to_uint_nonnil p H).
Qed.

Lemma show_Z_nonempty (z : Z) : show_Z z <> EmptyString.
Proof.
  unfold show_Z. intros E.
  destruct (to_int_nonnil z) as [Hp Hn].
  pose proof (NilZero.isi _ Hp Hn) as Hisi.
  rewrite E in Hisi. discriminate Hisi.
Qed.

(** Parsing a printed integer gives the integer back. *)
Lemma Number_show_Z (z : Z) : Number (show_Z z) = Num z.
Proof.
  unfold Number, show_Z.
  destruct (to_int_nonnil z) as [Hp Hn].
  pose proof (NilZero.isi (Z.to_int z) Hp Hn) as Hisi.
  destruct (NilZero.string_of_int (Z.to_int z)) eqn:E.
  - simpl in Hisi. discriminate.
  - rewrite Hisi, DecimalZ.of_to. reflexivity.
Qed.

Lemma show_Z_inj (z z' : Z) : show_Z z = show_Z z' -> z = z'.
Proof.
  intros H. apply (f_equal Number) in H. rewrite !Number_show_Z in H.
  congruence.
Qed.

(** The keys [`${x},${y}`] of two cells agree only for the same cell. *)
Lemma comma_key_inj (x y x' y' : Z) :
  show_Z x +:+ "," +:+ show_Z y = show_Z x' +:+ "," +:+ show_Z y' ->
  x = x' /\ y = y'.
Proof.
  intros H. apply (f_equal (split ",")) in H.
  change ("," +:+ show_Z y) with (String "," (show_Z y)) in H.
  change ("," +:+ show_Z y') with (String "," (show_Z y')) in H.
  rewrite !split_app, !split_none in H by apply show_Z_no_comma.
  injection H as Hx Hy. split; apply show_Z_inj; assumption.
Qed.

End JsFacts.

(** ** Math.random *)

Module RandFacts.
Import Rand.

Lemma floor_mul_range (n : N) (m : Z) :
  0 < m -> 0 <= floor_mul (unit_interval n) m < m.
Proof.
  intros Hm. unfold floor_mul, unit_interval.
  cbv [Qfloor Qmult inject_Z Qnum Qden]. rewrite Pos.mul_1_r.
  assert (HP : (2 ^ 53)%N = N.pos (2 ^ 53)%positive) by reflexivity.
  pose proof (N.mod_lt n (2 ^ 53)%N) as Hlt.
  rewrite HP in *. specialize (Hlt ltac:(discriminate)).
  set (a := (n mod N.pos (2 ^ 53))%N) in *.
  assert (Ha : 0 <= Z.of_N a < Z.pos (2 ^ 53)) by lia.
  split.
  - apply Z.div_pos; nia.
  - apply Z.div_lt_upper_bound; nia.
Qed.

Lemma random_cursor (g : rng) :
  cursor (snd (random g)) = S (cursor g) /\ draws (snd (random g)) = draws g.
Proof. split; reflexivity. Qed.

End RandFacts.

(** ** Tetris *)

Module TetrisFacts.
Import Js JsFacts Tetris.

(** Closes the case analysis on which cells a loop has written. *)
Ltac solve_cells :=
  first [ reflexivity
        | exfalso; lia
        | destruct_and?; subst; do 2 f_equal; lia ].

(** One pass of the inner loop of [rotate] writes column [k] of the
    first [n] rows of [res] and nothing else. *)
Lemma rotate_inner (R C k n : nat) (f : nat -> TetrisCell) (res : PieceShape) :
  rect C R res -> (k < R)%nat -> (n <= C)%nat ->
  let res' := for_loop n (fun c res => mset res c k (f c)) res in
  rect C R res' /\
  forall i j, mget res' i j =
    if decide ((i < n)%nat /\ j = k) then Some (f i) else mget res i j.
Proof.
  intros Hrect Hk. induction n as [|n IH]; intros Hn res'.
  - split; [exact Hrect|]. intros i j.
    rewrite decide_False by lia. reflexivity.
  - subst res'. rewrite for_loop_S.
    destruct IH as [IHr IHc]; [lia|].
    split; [apply rect_mset; exact IHr|].
    intros i j. rewrite (mget_mset C R) by (done || lia).
    rewrite IHc. repeat case_decide; solve_cells.
Qed.

(** After [m] passes of the outer loop the last [m] columns of [res]
    hold the first [m] rows of the shape. *)
Lemma rotate_outer (shape res : PieceShape) (R C m : nat) :
  rect C R res -> (m <= R)%nat ->
  let res' := for_loop m (fun r res =>
                for_loop C (fun c res => mset res c (R - 1 - r) (read shape r c)) res) res in
  rect C R res' /\
  forall i j, mget res' i j =
    if decide ((i < C)%nat /\ (R - m <= j < R)%nat)
    then Some (read shape (R - 1 - j) i) else mget res i j.
Proof.
  intros Hrect. induction m as [|m IH]; intros Hm res'.
  - split; [exact Hrect|]. intros i j.
    rewrite decide_False by lia. reflexivity.
  - subst res'. rewrite for_loop_S.
    destruct IH as [IHr IHc]; [lia|].
    destruct (rotate_inner R C (R - 1 - m) C (fun c => read shape m c) _ IHr)
      as [Hr' Hc']; [lia|lia|].
    split; [exact Hr'|].
    intros i j. rewrite Hc', IHc.
    repeat case_decide; solve_cells.
Qed.

(** What [rotate] returns on any shape that has a first row. *)
Lemma rotate_cells (row0 : list TetrisCell) (rest : PieceShape) :
  let shape := row0 :: rest in
  exists res, rotate shape = Some res /\
    rect (length row0) (length shape) res /\
    forall r c, (r < length shape)%nat -> (c < length row0)%nat ->
      mget res c (length shape - 1 - r) = Some (read shape r c).
Proof.
  intros shape. eexists. split; [reflexivity|].
  set (R := length shape). set (C := length row0).
  destruct (rotate_outer shape (replicate C (replicate R (Num 0))) R C R)
    as [Hr Hc]; [apply rect_replicate|lia|].
  split; [exact Hr|].
  intros r c Hlt Hc'. rewrite Hc.
  rewrite decide_True by lia. do 2 f_equal. lia.
Qed.

Lemma read_rect (R C : nat) (shape : PieceShape) (r c : nat) :
  rect R C shape -> (r < R)%nat -> (c < C)%nat ->
  mget shape r c = Some (read shape r c).
Proof.
  intros Hrect Hr Hc. unfold read.
  destruct (mget_is_Some R C shape r c Hrect Hr Hc) as [v ->]. reflexivity.
Qed.

(** [rotate] on a rectangular shape of [R] rows and [C] columns. *)
Lemma rotate_rect (R C : nat) (shape : PieceShape) :
  rect R C shape -> (0 < R)%nat ->
  exists res, rotate shape = Some res /\ rect C R res /\
    forall r c, (r < R)%nat -> (c < C)%nat ->
      mget res c (R - 1 - r) = mget shape r c.
Proof.
  intros Hrect HR.
  destruct shape as [|row0 rest]; [destruct Hrect as [Hl _]; simpl in Hl; lia|].
  assert (length row0 = C) as HC.
  { destruct Hrect as [_ Hf]. inversion Hf; subst. reflexivity. }
  assert (length (row0 :: rest) = R) as HRl by apply Hrect.
  destruct (rotate_cells row0 rest) as (res & Hrot & Hres & Hcells).
  exists res. rewrite HC, HRl in *. split; [exact Hrot|]. split; [exact Hres|].
  intros r c Hr Hc. rewrite Hcells by lia.
  symmetry. apply (read_rect R C); assumption.
Qed.

Lemma rotate4_rect (R C : nat) (shape : PieceShape) :
  rect R C shape -> (0 < R)%nat -> (0 < C)%nat -> rotate4 shape = Some shape.
Proof.
  intros H0 HR HC. unfold rotate4.
  destruct (rotate_rect R C shape H0 HR) as (s1 & E1 & H1 & C1).
  destruct (rotate_rect C R s1 H1 HC) as (s2 & E2 & H2 & C2).
  destruct (rotate_rect R C s2 H2 HR) as (s3 & E3 & H3 & C3).
  destruct (rotate_rect C R s3 H3 HC) as (s4 & E4 & H4 & C4).
  rewrite E1. simpl. rewrite E2. simpl. rewrite E3. simpl. rewrite E4.
  f_equal. apply (rect_ext R C); [exact H4|exact H0|].
  intros i j Hi Hj.
  rewrite <- (C1 i j Hi Hj).
  rewrite <- (C2 j (R - 1 - i)%nat) by lia.
  rewrite <- (C3 (R - 1 - i)%nat (C - 1 - j)%nat) by lia.
  rewrite <- (C4 (C - 1 - j)%nat (R - 1 - (R - 1 - i))%nat) by lia.
  f_equal; lia.
Qed.

(** The seven pieces, by evaluation. *)
Lemma rotate4_SHAPES : Forall (fun s => rotate4 s = Some s) SHAPES.
Proof. repeat constructor. Qed.

(** C1. [rotate] turns a shape of [R] rows and [C] columns (both at least
    one, all rows of the same length) clockwise by a quarter turn: the
    result has [C] rows and [R] columns and [result[c][R-1-r] = shape[r][c]];
    four quarter turns give the shape back, cell for cell. *)
Theorem rotate_clockwise_period4 (R C : nat) (shape : PieceShape) :
  rect R C shape -> (0 < R)%nat -> (0 < C)%nat ->
  (exists res, rotate shape = Some res /\ rect C R res /\
     forall r c, (r < R)%nat -> (c < C)%nat ->
       mget res c (R - 1 - r) = mget shape r c) /\
  rotate4 shape = Some shape.
Proof.
  intros Hrect HR HC. split.
  - apply rotate_rect; assumption.
  - apply (rotate4_rect R C); assumption.
Qed.

Lemma rotate_clockwise_period4_witness :
  let T := [[Num 0; Num 1; Num 0]; [Num 1; Num 1; Num 1]] in
  rotate T = Some [[Num 1; Num 0]; [Num 1; Num 1]; [Num 1; Num 0]] /\
  rotate4 T = Some T.
Proof.
  intros T.
  destruct (rotate_clockwise_period4 2 3 T) as [_ H4].
  - split; [reflexivity|]. repeat constructor.
  - lia.
  - lia.
  - split; [reflexivity|exact H4].
Defined.

(** *** Line clearing *)

Lemma clearLines_fold (b acc : Board) (n : nat) :
  foldl clearLines_row (acc, n) b =
    (acc ++ List.filter (fun row => negb (full row)) b,
     (n + length (List.filter full b))%nat).
Proof.
  revert acc n. induction b as [|row b IH]; intros acc n; simpl.
  - rewrite app_nil_r. f_equal. lia.
  - unfold clearLines_row at 2. destruct (full row); simpl.
    + rewrite IH. f_equal. lia.
    + rewrite IH, <- app_assoc. reflexivity.
Qed.

Lemma backfill_short (nb : Board) :
  (length nb <= ROWS)%nat ->
  backfill nb = replicate (ROWS - length nb) emptyRow ++ nb.
Proof.
  funelim (backfill nb); intros Hle.
  - rewrite H by (simpl; lia). simpl length.
    replace (ROWS - length newBoard)%nat with (S (ROWS - S (length newBoard))) by lia.
    rewrite replicate_S_end, <- app_assoc. reflexivity.
  - replace (ROWS - length newBoard)%nat with O by lia. reflexivity.
Qed.

Lemma filter_split_length {A : Type} (f : A -> bool) (l : list A) :
  (length (List.filter f l) + length (List.filter (fun a => negb (f a)) l))%nat = length l.
Proof.
  induction l as [|a l IH]; simpl; [reflexivity|].
  destruct (f a); simpl; lia.
Qed.

Lemma clearLines_eq (b : Board) :
  (length b <= ROWS)%nat ->
  clearLines b =
    mkCleared
      (replicate (ROWS - length (List.filter (fun row => negb (full row)) b)) emptyRow
         ++ List.filter (fun row => negb (full row)) b)
      (length (List.filter full b)).
Proof.
  intros Hle. unfold clearLines. rewrite clearLines_fold. simpl.
  rewrite backfill_short; [reflexivity|].
  pose proof (filter_split_length full b). lia.
Qed.

Lemma addScoreAndLevel_table (n : nat) (s : TetrisStats) (z : Z) :
  score s = Num z -> (1 <= n <= 4)%nat ->
  addScoreAndLevel n s =
    mkStats (Num (z + tablePoints n)) (lines s + Z.of_nat n)
            (Z.min 10 (1 + (lines s + Z.of_nat n) / 10)).
Proof.
  intros Hs Hn. unfold addScoreAndLevel. rewrite decide_False by lia.
  rewrite Hs.
  destruct n as [|[|[|[|[|n]]]]]; try lia; reflexivity.
Qed.

(** C2. On a board of 20 rows of 10 cells, [clearLines] counts and drops
    exactly the rows without a zero cell, keeps the other rows in their
    order at the bottom and puts one empty row on top for each dropped
    row, so that the board is 20 by 10 again.  A lock whose merged board
    is [b] and that clears [n] rows, [n] from 1 to 4, adds 100, 300, 500
    or 800 to the score and [n] to the line count, and sets the level to
    [min 10 (1 + lines / 10)]. *)
Theorem clearLines_lock_spec (b : Board) :
  rect ROWS COLS b ->
  let cl := clearLines b in
  linesCleared cl = length (List.filter full b) /\
  board cl =
    replicate (linesCleared cl) emptyRow ++ List.filter (fun row => negb (full row)) b /\
  rect ROWS COLS (board cl) /\
  forall (b0 : Board) (p : ActivePiece) (s : TetrisStats) (z : Z),
    merge b0 p = Some b -> score s = Num z -> (1 <= linesCleared cl <= 4)%nat ->
    lock b0 p s =
      Some (cl, mkStats (Num (z + tablePoints (linesCleared cl)))
                        (lines s + Z.of_nat (linesCleared cl))
                        (Z.min 10 (1 + (lines s + Z.of_nat (linesCleared cl)) / 10))).
Proof.
  intros [Hlen Hrows] cl.
  assert (Hcl : cl = clearLines b) by reflexivity.
  rewrite clearLines_eq in Hcl by lia.
  pose proof (filter_split_length full b) as Hsplit.
  assert (Hn : linesCleared cl = length (List.filter full b)) by (rewrite Hcl; reflexivity).
  assert (Hb : board cl = replicate (linesCleared cl) emptyRow
                 ++ List.filter (fun row => negb (full row)) b).
  { rewrite Hn, Hcl. simpl. do 2 f_equal. lia. }
  split; [exact Hn|]. split; [exact Hb|]. split.
  - rewrite Hb. split.
    + rewrite length_app, length_replicate. lia.
    + apply Forall_app. split.
      * apply Forall_replicate. apply length_replicate.
      * apply Forall_forall. intros row Hin.
        apply list_elem_of_In, filter_In in Hin. destruct Hin as [Hin _].
        rewrite Forall_forall in Hrows. apply Hrows, list_elem_of_In, Hin.
  - intros b0 p s z Hm Hs Hrange. unfold lock. rewrite Hm.
    fold cl. rewrite decide_False by lia.
    rewrite (addScoreAndLevel_table _ s z Hs Hrange). reflexivity.
Qed.

Lemma clearLines_lock_spec_witness :
  let incomplete := Num 1 :: replicate 9 (Num 0) in
  let b0 : Board :=
    replicate 18 emptyRow ++ [incomplete; replicate 6 (Num 2) ++ replicate 4 (Num 0)] in
  let p := mkPiece [[Num 1; Num 1; Num 1; Num 1]] 6 19 1 0 in
  lock b0 p (mkStats (Num 0) 0 1) =
    Some (mkCleared (replicate 19 emptyRow ++ [incomplete]) 1, mkStats (Num 100) 1 1).
Proof.
  intros incomplete b0 p.
  pose (b := replicate 18 emptyRow
               ++ [incomplete; replicate 6 (Num 2) ++ replicate 4 (Num 1)] : Board).
  assert (Hrect : rect ROWS COLS b).
  { split; [reflexivity|]. repeat constructor. }
  destruct (clearLines_lock_spec b Hrect) as (Hn & Hb & _ & Hlock).
  assert (Hcl : clearLines b = mkCleared (replicate 19 emptyRow ++ [incomplete]) 1).
  { destruct (clearLines b) as [bd n]. simpl in Hn, Hb. subst n bd. reflexivity. }
  rewrite (Hlock b0 p (mkStats (Num 0) 0 1) 0); [|reflexivity|reflexivity|rewrite Hcl; simpl; lia].
  rewrite Hcl. reflexivity.
Defined.

End TetrisFacts.
(** ** Cards *)

Module CardsFacts.
Import Rand RandFacts Cards.

(** Reduces the projections of a state built by the setters. *)
Ltac fields :=
  cbn [pairs deck busy busyRef moves seconds running lastPairRef timerRef cleanup gen
       set_deck set_moves set_seconds set_running set_lastPairRef set_timerRef
       set_cleanup set_pairs setBusyState].

(** *** The deck *)

Lemma insert_cons_Permutation {T : Type} (l : list T) (j : nat) (x y : T) :
  l !! j = Some y -> y :: <[j := x]> l ≡ₚ x :: l.
Proof.
  revert j. induction l as [|z l IH]; intros [|j] Hj; simplify_eq/=.
  - apply perm_swap.
  - rewrite perm_swap. rewrite (IH j Hj). apply perm_swap.
Qed.

Lemma swap_Permutation {T : Type} (a : list T) (i j : nat) : swap a i j ≡ₚ a.
Proof.
  unfold swap.
  destruct (a !! i) as [ai|] eqn:Ei; [|reflexivity].
  destruct (a !! j) as [aj|] eqn:Ej; [|reflexivity].
  destruct (decide (i = j)) as [->|Hne].
  - rewrite Ei in Ej. injection Ej as <-.
    rewrite list_insert_insert_eq, list_insert_id by done. reflexivity.
  - apply (Permutation_cons_inv (a := aj)).
    etransitivity; [|apply (insert_cons_Permutation a i aj ai Ei)].
    apply insert_cons_Permutation.
    rewrite list_lookup_insert_ne by done. exact Ej.
Qed.

Lemma shuffle_from_Permutation {T : Type} (i : nat) (a : list T) (g : rng) :
  (shuffle_from i a g).1 ≡ₚ a.
Proof.
  revert a g. induction i as [|i IH]; intros a g; simpl; [reflexivity|].
  rewrite IH. apply swap_Permutation.
Qed.

Lemma shuffle_Permutation {T : Type} (a : list T) (g : rng) : (shuffle a g).1 ≡ₚ a.
Proof. apply shuffle_from_Permutation. Qed.

(** The index drawn at step [i] of the shuffle is one of [0 .. i]. *)
Lemma shuffle_index_range (n : N) (i : nat) :
  (Z.to_nat (floor_mul (unit_interval n) (Z.of_nat i + 1)) <= i)%nat.
Proof.
  pose proof (floor_mul_range n (Z.of_nat i + 1)). lia.
Qed.

Lemma imap_value (f : nat -> nat -> CardItem) (l : list nat) :
  (forall i v, value (f i v) = v) -> map value (imap f l) = l.
Proof.
  revert f. induction l as [|v l IH]; intros f Hf; simpl; [reflexivity|].
  rewrite Hf, IH; [reflexivity|]. intros i w. apply Hf.
Qed.

Lemma imap_id (f : nat -> nat -> CardItem) (k : nat) (l : list nat) :
  (forall i v, id (f i v) = (k + i)%nat) -> map id (imap f l) = seq k (length l).
Proof.
  revert f k. induction l as [|v l IH]; intros f k Hf; simpl; [reflexivity|].
  rewrite Hf, Nat.add_0_r. f_equal. apply IH.
  intros i w. simpl. rewrite Hf. lia.
Qed.

Lemma imap_fresh (f : nat -> nat -> CardItem) (l : list nat) :
  (forall i v, matched (f i v) = false /\ flipped (f i v) = false) ->
  Forall (fun c => matched c = false /\ flipped c = false) (imap f l).
Proof.
  revert f. induction l as [|v l IH]; intros f Hf; simpl; constructor.
  - apply Hf.
  - apply IH. intros i w. apply Hf.
Qed.

Lemma makeDeckFor_values (count : nat) (g : rng) :
  map value (makeDeckFor count g).1 ≡ₚ map S (seq 0 count) ++ map S (seq 0 count).
Proof.
  unfold makeDeckFor.
  pose proof (shuffle_Permutation (map S (seq 0 count) ++ map S (seq 0 count)) g) as Hp.
  destruct (shuffle _ g) as [a g']. simpl in *.
  rewrite imap_value by reflexivity. exact Hp.
Qed.

Lemma makeDeckFor_ids (count : nat) (g : rng) :
  map id (makeDeckFor count g).1 = seq 1 (length (makeDeckFor count g).1).
Proof.
  unfold makeDeckFor. destruct (shuffle _ g) as [a g']. simpl.
  rewrite length_imap. apply imap_id. intros i v. simpl. lia.
Qed.

Lemma makeDeckFor_fresh (count : nat) (g : rng) :
  Forall (fun c => matched c = false /\ flipped c = false) (makeDeckFor count g).1.
Proof.
  unfold makeDeckFor. destruct (shuffle _ g) as [a g']. simpl.
  apply imap_fresh. intros i v. split; reflexivity.
Qed.

Lemma count_occ_base (count v : nat) :
  (1 <= v <= count)%nat -> count_occ Nat.eq_dec (map S (seq 0 count)) v = 1%nat.
Proof.
  intros Hv. apply NoDup_count_occ'.
  - apply Finite.Injective_map_NoDup; [intros ? ? ?; lia|]. apply List.seq_NoDup.
  - apply in_map_iff. exists (v - 1)%nat. split; [lia|]. apply in_seq. lia.
Qed.

(** *** The pair key *)

Lemma pairKey_two (d : list CardItem) (a b : CardItem) :
  List.filter pending d = [a; b] ->
  pairKey d =
    Js.show_nat (Nat.min (id a) (id b)) +:+ "-" +:+ Js.show_nat (Nat.max (id a) (id b)).
Proof.
  intros H. unfold pairKey. rewrite H.
  destruct (Nat.ltb_spec (id a) (id b)).
  - rewrite Nat.min_l, Nat.max_r by lia. reflexivity.
  - rewrite Nat.min_r, Nat.max_l by lia. reflexivity.
Qed.

Lemma show_nat_nonempty (n : nat) : Js.show_nat n <> "".
Proof. apply JsFacts.show_Z_nonempty. Qed.

Lemma pairKey_two_nonempty (d : list CardItem) (a b : CardItem) :
  List.filter pending d = [a; b] -> pairKey d <> "".
Proof.
  intros H. rewrite (pairKey_two d a b H).
  destruct (Js.show_nat (Nat.min (id a) (id b))) eqn:E.
  - exfalso. exact (show_nat_nonempty _ E).
  - discriminate.
Qed.

Lemma pairKey_lt_two (d : list CardItem) :
  (length (List.filter pending d) < 2)%nat -> pairKey d = "".
Proof.
  unfold pairKey. destruct (List.filter pending d) as [|a [|b [|c l]]]; simpl;
    intros; (reflexivity || lia).
Qed.

Lemma parseKey_pair (lo hi : nat) :
  parseKey (Js.show_nat lo +:+ "-" +:+ Js.show_nat hi) =
    (Js.Num (Z.of_nat lo), Js.Num (Z.of_nat hi)).
Proof.
  unfold parseKey.
  change ("-" +:+ Js.show_nat hi) with (String "-" (Js.show_nat hi)).
  rewrite JsFacts.split_app by apply JsFacts.show_nat_no_dash.
  rewrite JsFacts.split_none by apply JsFacts.show_nat_no_dash.
  simpl. unfold Js.show_nat. rewrite !JsFacts.Number_show_Z. reflexivity.
Qed.

Lemma find_same_id (d : list CardItem) (c : CardItem) :
  NoDup (map id d) -> In c d ->
  List.find (same_id (Js.Num (Z.of_nat (id c)))) d = Some c.
Proof.
  induction d as [|x d IH]; intros Hnd Hin; [destruct Hin|].
  simpl in *. inversion Hnd as [|? ? Hx Hd]; subst.
  unfold same_id at 1. destruct Hin as [->|Hin].
  - rewrite bool_decide_eq_true_2 by reflexivity. reflexivity.
  - rewrite bool_decide_eq_false_2; [apply IH; assumption|].
    intros [= E]. apply Hx. apply Nat2Z.inj in E. rewrite E.
    apply list_elem_of_In, in_map. exact Hin.
Qed.

(** *** Flipping and resolving *)

Lemma filter_none {T : Type} (f : T -> bool) (l : list T) :
  (forall x, In x l -> f x = false) -> List.filter f l = [].
Proof.
  induction l as [|x l IH]; intros H; simpl; [reflexivity|].
  rewrite (H x) by (left; reflexivity). apply IH. intros y Hy. apply H. right. exact Hy.
Qed.

Lemma map_unchanged {T : Type} (f : T -> T) (l : list T) :
  (forall x, In x l -> f x = x) -> map f l = l.
Proof.
  induction l as [|x l IH]; intros H; simpl; [reflexivity|].
  rewrite (H x) by (left; reflexivity). f_equal. apply IH. intros y Hy. apply H. right. exact Hy.
Qed.

(** Flipping the face-down, unmatched card [card] adds exactly that card
    to the pending ones. *)
Lemma flip_in_deck (d : list CardItem) (card : CardItem) :
  NoDup (map id d) -> In card d -> flipped card = false -> matched card = false ->
  let next := map (fun c => if (id c =? id card)%nat then flip c else c) d in
  map id next = map id d /\
  exists l1 l2, List.filter pending d = l1 ++ l2 /\
                List.filter pending next = l1 ++ flip card :: l2.
Proof.
  intros Hnd Hin Hf Hm next. split.
  - subst next. rewrite map_map. apply map_ext. intros c.
    destruct (id c =? id card)%nat; reflexivity.
  - destruct (in_split _ _ Hin) as (d1 & d2 & ->).
    rewrite map_app in Hnd. simpl in Hnd.
    apply NoDup_app in Hnd. destruct Hnd as (_ & Hdisj & Hnd2).
    apply NoDup_cons in Hnd2. destruct Hnd2 as [Hnot2 _].
    assert (H1 : forall c, In c d1 -> id c <> id card).
    { intros c Hc E. apply (Hdisj (id c)).
      - apply list_elem_of_In, in_map, Hc.
      - rewrite E. left. }
    assert (H2 : forall c, In c d2 -> id c <> id card).
    { intros c Hc E. apply Hnot2. rewrite <- E. apply list_elem_of_In, in_map, Hc. }
    subst next. rewrite map_app. simpl. rewrite Nat.eqb_refl.
    rewrite (map_unchanged _ d1), (map_unchanged _ d2).
    + exists (List.filter pending d1), (List.filter pending d2).
      rewrite !List.filter_app. simpl.
      assert (pending card = false) as -> by (unfold pending; rewrite Hf; reflexivity).
      assert (pending (flip card) = true) as ->
        by (unfold pending; simpl; rewrite Hm; reflexivity).
      split; reflexivity.
    + intros c Hc. rewrite (proj2 (Nat.eqb_neq _ _) (H2 c Hc)). reflexivity.
    + intros c Hc. rewrite (proj2 (Nat.eqb_neq _ _) (H1 c Hc)). reflexivity.
Qed.

Lemma same_id_eqb (n : nat) (c : CardItem) :
  same_id (Js.Num (Z.of_nat n)) c = (id c =? n)%nat.
Proof.
  unfold same_id. destruct (Nat.eqb_spec (id c) n) as [->|Hne].
  - apply bool_decide_eq_true_2. reflexivity.
  - apply bool_decide_eq_false_2. intros [= E]. lia.
Qed.

Lemma resolve_expected (a b : CardItem) (d : list CardItem) :
  resolve (expectedTimer a b) d = map (resolved a b) d.
Proof.
  unfold resolve. apply map_ext. intros c.
  unfold expectedTimer, resolved.
  pose proof (Nat.eqb_sym (value b) (value a)) as Hsym.
  destruct (id a <? id b)%nat; simpl; try rewrite Hsym; rewrite !same_id_eqb;
    destruct (value a =? value b)%nat; simpl;
    destruct (Nat.eqb_spec (id c) (id a)); destruct (Nat.eqb_spec (id c) (id b));
    case_decide; simpl; try reflexivity; exfalso; lia.
Qed.

Lemma resolved_id (a b c : CardItem) : id (resolved a b c) = id c.
Proof.
  unfold resolved. case_decide; [|reflexivity].
  destruct (value a =? value b)%nat; reflexivity.
Qed.

Lemma resolved_not_pending (a b : CardItem) (d : list CardItem) :
  List.filter pending d = [a; b] ->
  List.filter pending (map (resolved a b) d) = [].
Proof.
  intros H. apply filter_none. intros c' Hc'.
  apply in_map_iff in Hc'. destruct Hc' as (c & <- & Hc).
  unfold resolved. case_decide as Hid.
  - destruct (value a =? value b)%nat; unfold pending; simpl;
      [apply andb_false_r|reflexivity].
  - destruct (pending c) eqn:Hp; [|reflexivity].
    exfalso. apply Hid.
    assert (In c (List.filter pending d)) as Hin by (apply filter_In; auto).
    rewrite H in Hin. destruct Hin as [<-|[<-|[]]]; auto.
Qed.

(** *** Renders *)

Lemma winEffect_fields (s : State) :
  deck (winEffect s) = deck s /\ busy (winEffect s) = busy s /\
  busyRef (winEffect s) = busyRef s /\ timerRef (winEffect s) = timerRef s /\
  lastPairRef (winEffect s) = lastPairRef s.
Proof. unfold winEffect. destruct (allMatched (deck s)); repeat split; reflexivity. Qed.

(** With fewer than two pending cards a render releases the lock and
    forgets the last pair. *)
Lemma render_lt_two (s : State) :
  busy s = busyRef s ->
  (length (List.filter pending (deck s)) < 2)%nat ->
  exists s', render s = Some s' /\ deck s' = deck s /\
    busy s' = false /\ busyRef s' = false /\
    timerRef s' = None /\ lastPairRef s' = None.
Proof.
  intros Hb Hlen. pose proof (pairKey_lt_two _ Hlen) as Hkey.
  destruct s as [p d bz br mv sec run lp tr cl g]. simpl in *. subst br.
  unfold render, runEffect, pairEffect.
  destruct cl, bz; simpl; rewrite ?Hkey; simpl;
    rewrite ?Hkey; simpl; eexists; (split; [reflexivity|]);
    pose proof (winEffect_fields) as W;
    match goal with |- context [winEffect ?s0] =>
      destruct (W s0) as (-> & -> & -> & -> & ->) end;
    repeat split; reflexivity.
Qed.

(** With two pending cards, the lock set and no pair remembered, a render
    arms the timer for them. *)
Lemma render_two (s : State) (a b : CardItem) :
  NoDup (map id (deck s)) ->
  List.filter pending (deck s) = [a; b] ->
  busy s = true -> busyRef s = true ->
  lastPairRef s = None -> timerRef s = None ->
  exists s', render s = Some s' /\ deck s' = deck s /\
    busy s' = true /\ busyRef s' = true /\
    lastPairRef s' = Some (pairKey (deck s)) /\
    timerRef s' = Some (expectedTimer a b).
Proof.
  intros Hnd Hab Hb Hbr Hlp Htr.
  pose proof (pairKey_two_nonempty _ _ _ Hab) as Hne.
  assert (Ha : In a (deck s)).
  { apply (proj1 (filter_In pending a (deck s))). rewrite Hab. left. reflexivity. }
  assert (Hb' : In b (deck s)).
  { apply (proj1 (filter_In pending b (deck s))). rewrite Hab. right. left. reflexivity. }
  pose proof (find_same_id _ _ Hnd Ha) as Fa.
  pose proof (find_same_id _ _ Hnd Hb') as Fb.
  destruct s as [p d bz br mv sec run lp tr cl g]. simpl in *. subst bz br lp tr.
  assert (Hrun : pairEffect (mkState p d true true mv sec run None None false g) =
    Some (mkState p d true true (mv + 1) sec run (Some (pairKey d))
            (Some (expectedTimer a b)) true g)).
  { unfold pairEffect. cbn [deck lastPairRef busy moves].
    rewrite decide_False by exact Hne.
    rewrite decide_False by discriminate.
    unfold pairKey. rewrite Hab. unfold expectedTimer.
    destruct (id a <? id b)%nat; rewrite parseKey_pair; cbn [deck];
      rewrite Fa, Fb; reflexivity. }
  unfold render, runEffect.
  destruct cl; simpl; unfold set_cleanup, set_timerRef; simpl; rewrite Hrun; simpl;
    eexists; (split; [reflexivity|]);
    match goal with |- context [winEffect ?s0] =>
      destruct (winEffect_fields s0) as (-> & -> & -> & -> & ->) end;
    repeat split; reflexivity.
Qed.

(** Two runs of the pair effect are enough: a third one would not change
    [busy], so [render] stops where the page stops rendering. *)
Lemma render_settled (s s1 s2 : State) :
  runEffect s = Some s1 -> runEffect s1 = Some s2 -> busy s2 = busy s1.
Proof.
  destruct s as [p d bz br mv sec run lp tr cl g].
  unfold runEffect, pairEffect.
  destruct cl; fields;
    (destruct (decide (pairKey d = "")) as [Hk|Hk];
     [ intros [= <-]; destruct bz; fields;
       rewrite decide_True by exact Hk; fields; intros [= <-]; reflexivity
     | destruct (decide (lp = Some (pairKey d))) as [Hl|Hl]; try discriminate;
       [ intros [= <-]; fields;
         rewrite decide_False by exact Hk; rewrite decide_True by exact Hl;
         intros [= <-]; reflexivity
       | try (rewrite decide_False by discriminate);
         destruct (parseKey (pairKey d)) as [i1 i2];
         destruct (List.find (same_id i1) d) as [a|]; [|discriminate];
         destruct (List.find (same_id i2) d) as [b|]; [|discriminate];
         intros [= <-]; fields;
         rewrite decide_False by exact Hk; rewrite decide_True by reflexivity;
         intros [= <-]; reflexivity ] ]).
Qed.

(** *** The invariant *)

Lemma Inv_lt_two (s : State) :
  NoDup (map id (deck s)) ->
  (length (List.filter pending (deck s)) < 2)%nat ->
  busy s = false -> busyRef s = false ->
  timerRef s = None -> lastPairRef s = None ->
  Inv s.
Proof.
  intros Hnd Hlen Hb Hbr Ht Hl. unfold Inv.
  split; [exact Hnd|]. split; [congruence|].
  destruct (List.filter pending (deck s)) as [|a [|b l]]; simpl in Hlen;
    try lia; auto.
Qed.

Lemma reset_fields (np : option nat) (s : State) :
  let s' := reset np s in
  NoDup (map id (deck s')) /\ List.filter pending (deck s') = [] /\
  busy s' = false /\ busyRef s' = false.
Proof.
  unfold reset.
  pose proof (makeDeckFor_ids (default (pairs s) np) (gen s)) as Hids.
  pose proof (makeDeckFor_fresh (default (pairs s) np) (gen s)) as Hfresh.
  destruct (makeDeckFor _ (gen s)) as [d g]. simpl in *.
  split; [rewrite Hids; apply NoDup_seq|].
  split; [|split; reflexivity].
  apply filter_none. intros c Hc. rewrite Forall_forall in Hfresh.
  destruct (Hfresh c) as [_ Hf]; [apply list_elem_of_In, Hc|].
  unfold pending. rewrite Hf. reflexivity.
Qed.

Lemma render_reset_Inv (np : option nat) (s : State) :
  exists s', render (reset np s) = Some s' /\ Inv s'.
Proof.
  destruct (reset_fields np s) as (Hnd & Hp & Hb & Hbr).
  destruct (render_lt_two (reset np s)) as (s' & Hr & Hd & Hb' & Hbr' & Ht & Hl).
  - congruence.
  - rewrite Hp. simpl. lia.
  - exists s'. split; [exact Hr|].
    apply Inv_lt_two; rewrite ?Hd, ?Hp; simpl; auto.
Qed.

Lemma mount_Inv (g : rng) : exists s, mount g = Some s /\ Inv s.
Proof. apply render_reset_Inv. Qed.

(** A flip that [handleFlip] lets through: the lock is open, the game
    runs, and the card is in the deck, face down and unmatched. *)
Lemma handleFlip_cases (cid : nat) (s : State) :
  handleFlip cid s = s \/
  exists card,
    busyRef s = false /\ busy s = false /\ running s = true /\
    In card (deck s) /\ id card = cid /\ flipped card = false /\ matched card = false /\
    let next := map (fun c => if (id c =? id card)%nat then flip c else c) (deck s) in
    handleFlip cid s =
      if (length (List.filter pending next) =? 2)%nat
      then setBusyState true (set_deck next s) else set_deck next s.
Proof.
  unfold handleFlip.
  destruct (busyRef s) eqn:Hbr; [left; reflexivity|].
  destruct (busy s) eqn:Hb; [left; reflexivity|].
  destruct (running s) eqn:Hr; [|left; reflexivity]. simpl.
  destruct (List.find _ (deck s)) as [card|] eqn:Hfind; [|left; reflexivity].
  apply find_some in Hfind. destruct Hfind as [Hin Hid].
  apply Nat.eqb_eq in Hid.
  destruct (flipped card) eqn:Hf; [left; reflexivity|].
  destruct (matched card) eqn:Hm; [left; reflexivity|]. simpl.
  right. exists card. subst cid. repeat split; auto.
Qed.

Lemma step_Inv (e : Event) (s : State) :
  Inv s -> exists s', step e s = Some s' /\ Inv s'.
Proof.
  intros HI. destruct e as [cid| | |n|]; simpl.
  - (* Flip *)
    destruct (handleFlip_cases cid s) as [->|(card & Hbr & Hb & Hrun & Hin & Hid & Hf & Hm & Hh)].
    { rewrite decide_True by reflexivity. eauto. }
    destruct HI as (Hnd & Hbb & Hmatch).
    destruct (flip_in_deck (deck s) card Hnd Hin Hf Hm) as (Hids & l1 & l2 & Hold & Hnew).
    simpl in Hh. rewrite Hh. clear Hh.
    set (next := map (fun c => if (id c =? id card)%nat then flip c else c) (deck s)) in *.
    assert (Hne : next <> deck s).
    { intros E. rewrite E, Hold in Hnew. apply (f_equal length) in Hnew.
      rewrite !length_app in Hnew. simpl in Hnew. lia. }
    assert (Hfacts : (length (l1 ++ l2) < 2)%nat /\ timerRef s = None /\ lastPairRef s = None).
    { rewrite Hold in Hmatch.
      destruct (l1 ++ l2) as [|a [|b [|c l]]]; simpl.
      - destruct Hmatch as (_ & ? & ?). repeat split; auto.
      - destruct Hmatch as (_ & ? & ?). repeat split; auto.
      - destruct Hmatch as (? & _). congruence.
      - contradiction. }
    destruct Hfacts as (Hlen & Ht & Hl). rewrite length_app in Hlen.
    destruct l1 as [|x1 [|x2 l1]]; destruct l2 as [|y1 [|y2 l2]];
      simpl in Hlen; try lia; rewrite Hnew; simpl.
    + rewrite decide_False by (simpl; exact Hne).
      destruct (render_lt_two (set_deck next s)) as (s' & Hr & Hd & Hb' & Hbr' & Ht' & Hl');
        [simpl; congruence|simpl; rewrite Hnew; simpl; lia|].
      exists s'. split; [exact Hr|].
      apply Inv_lt_two; rewrite ?Hd; simpl; rewrite ?Hnew, ?Hids; simpl; auto.
    + rewrite decide_False by (simpl; exact Hne).
      destruct (render_two (setBusyState true (set_deck next s)) (flip card) y1)
        as (s' & Hr & Hd & Hb' & Hbr' & Hl' & Ht'); simpl; auto; [congruence|].
      exists s'. split; [exact Hr|].
      unfold Inv. rewrite Hd. simpl. rewrite Hnew, Hids. simpl. repeat split; auto; congruence.
    + rewrite decide_False by (simpl; exact Hne).
      destruct (render_two (setBusyState true (set_deck next s)) x1 (flip card))
        as (s' & Hr & Hd & Hb' & Hbr' & Hl' & Ht'); simpl; auto; [congruence|].
      exists s'. split; [exact Hr|].
      unfold Inv. rewrite Hd. simpl. rewrite Hnew, Hids. simpl. repeat split; auto; congruence.
  - (* TimerFires *)
    destruct (timerRef s) as [t|] eqn:Ht; [|eauto].
    destruct HI as (Hnd & Hbb & Hmatch).
    destruct (List.filter pending (deck s)) as [|a [|b [|c l]]] eqn:Hp;
      try (destruct Hmatch as (_ & Hnone & _); congruence); [|contradiction].
    destruct Hmatch as (_ & _ & Hexp). rewrite Ht in Hexp. injection Hexp as ->.
    destruct (render_lt_two (timerFire (expectedTimer a b) s))
      as (s' & Hr & Hd & Hb' & Hbr' & Ht' & Hl').
    + reflexivity.
    + simpl. rewrite resolve_expected, (resolved_not_pending a b _ Hp). simpl. lia.
    + exists s'. split; [exact Hr|].
      apply Inv_lt_two; rewrite ?Hd; simpl; auto;
        rewrite resolve_expected.
      * rewrite map_map.
        rewrite (map_ext _ id (fun c => resolved_id a b c)). exact Hnd.
      * rewrite (resolved_not_pending a b _ Hp). simpl. lia.
  - (* Restart *) apply render_reset_Inv.
  - (* ChangePairs *)
    destruct (render_reset_Inv (Some n) (set_pairs n s)) as (s1 & -> & _).
    apply render_reset_Inv.
  - (* SecondTick *)
    eexists. split; [reflexivity|].
    destruct (running s); [|exact HI]. exact HI.
Qed.

Lemma reachable_Inv (s : State) : reachable s -> Inv s.
Proof.
  induction 1 as [g s Hm|e s s' _ IH Hs].
  - destruct (mount_Inv g) as (s0 & E & HI). congruence.
  - destruct (step_Inv e s IH) as (s0 & E & HI). congruence.
Qed.

Lemma NoDup_id_inj (d : list CardItem) (c c' : CardItem) :
  NoDup (map id d) -> In c d -> In c' d -> id c = id c' -> c = c'.
Proof.
  intros Hnd Hc Hc' E.
  pose proof (find_same_id d c Hnd Hc) as F.
  pose proof (find_same_id d c' Hnd Hc') as F'.
  rewrite E in F. congruence.
Qed.

Lemma cards_demo_reachable : reachable demo_two.
Proof.
  apply (reachable_step (Flip 4) demo_one); [|vm_compute; reflexivity].
  apply (reachable_step (Flip 1) demo_mounted); [|vm_compute; reflexivity].
  apply (reachable_mount demo_rng). vm_compute. reflexivity.
Defined.

(** C3. In every reachable state at most two cards are face up and
    unmatched, and [handleFlip] changes nothing (so the flip causes no
    render either) when two such cards wait for their timer, when the
    game is not running, or when the card asked for is already face up
    or matched. *)
Theorem flip_rejected (s : State) :
  reachable s ->
  (length (List.filter pending (deck s)) <= 2)%nat /\
  forall cid,
    (length (List.filter pending (deck s)) = 2%nat \/
     running s = false \/
     (exists c, In c (deck s) /\ id c = cid /\ (flipped c = true \/ matched c = true))) ->
    handleFlip cid s = s /\ step (Flip cid) s = Some s.
Proof.
  intros Hreach. apply reachable_Inv in Hreach.
  destruct Hreach as (Hnd & Hbb & Hmatch). split.
  - destruct (List.filter pending (deck s)) as [|a [|b [|c l]]]; simpl;
      first [lia | contradiction].
  - intros cid Hrej.
    assert (Hsame : handleFlip cid s = s).
    { destruct Hrej as [Htwo|[Hrun|(c & Hc & Hid & Hup)]].
      - destruct (List.filter pending (deck s)) as [|a [|b [|c l]]];
          simpl in Htwo; try lia.
        destruct Hmatch as (Hbr & _). unfold handleFlip. rewrite Hbr. reflexivity.
      - unfold handleFlip. rewrite Hrun.
        destruct (busyRef s), (busy s); reflexivity.
      - destruct (handleFlip_cases cid s)
          as [E|(card & _ & _ & _ & Hin & Hid' & Hf & Hm & _)]; [exact E|].
        assert (c = card) by (apply (NoDup_id_inj (deck s)); auto; congruence).
        subst card. destruct Hup; congruence. }
    split; [exact Hsame|]. simpl. rewrite Hsame.
    rewrite decide_True by reflexivity. reflexivity.
Qed.

Lemma flip_rejected_witness :
  length (List.filter pending (deck demo_two)) = 2%nat /\
  handleFlip 2 demo_two = demo_two /\
  step (Flip 2) demo_two = Some demo_two.
Proof.
  split; [reflexivity|].
  destruct (flip_rejected demo_two cards_demo_reachable) as [_ Hrej].
  apply (Hrej 2%nat). left. reflexivity.
Defined.

(** C8. A fresh deck for [N] pairs has [2 * N] cards whose values are a
    permutation of [1 .. N] taken twice, so each value occurs exactly
    twice, and every card is unmatched and face down.  In a reachable
    state with two pending cards [a] and [b] the timer event resolves
    them: with equal values both become matched and stay face up, with
    different values both are turned face down; no other card changes. *)
Theorem deck_pairs_and_resolution :
  (forall (N : nat) (g : rng),
      let d := (makeDeckFor N g).1 in
      length d = (2 * N)%nat /\
      map value d ≡ₚ map S (seq 0 N) ++ map S (seq 0 N) /\
      (forall v, (1 <= v <= N)%nat -> count_occ Nat.eq_dec (map value d) v = 2%nat) /\
      Forall (fun c => matched c = false /\ flipped c = false) d) /\
  (forall (s : State) (a b : CardItem),
      reachable s -> List.filter pending (deck s) = [a; b] ->
      exists s', step TimerFires s = Some s' /\
        deck s' = map (resolved a b) (deck s) /\
        In (resolved a b a) (deck s') /\ In (resolved a b b) (deck s') /\
        (value a = value b ->
           resolved a b a = mkCard (id a) (value a) true true /\
           resolved a b b = mkCard (id b) (value b) true true) /\
        (value a <> value b ->
           resolved a b a = mkCard (id a) (value a) false false /\
           resolved a b b = mkCard (id b) (value b) false false)).
Proof.
  split.
  - intros N g d.
    pose proof (makeDeckFor_values N g) as Hperm. fold d in Hperm.
    assert (Hlen : length d = (2 * N)%nat).
    { rewrite <- (length_map value d), Hperm, length_app, !length_map, !length_seq. lia. }
    split; [exact Hlen|]. split; [exact Hperm|]. split; [|apply makeDeckFor_fresh].
    intros v Hv.
    rewrite (Permutation_count_occ Nat.eq_dec) in Hperm. rewrite Hperm.
    rewrite count_occ_app, !count_occ_base by exact Hv. reflexivity.
  - intros s a b Hreach Hab. apply reachable_Inv in Hreach.
    pose proof Hreach as (Hnd & Hbb & Hmatch).
    rewrite Hab in Hmatch. destruct Hmatch as (Hbr & Hlp & Htimer).
    destruct (step_Inv TimerFires s Hreach) as (s' & Hstep & HI').
    exists s'. split; [exact Hstep|].
    assert (Ha : pending a = true /\ In a (deck s)).
    { split; apply (proj1 (filter_In pending a (deck s))); rewrite Hab; left; reflexivity. }
    assert (Hb : pending b = true /\ In b (deck s)).
    { split; apply (proj1 (filter_In pending b (deck s))); rewrite Hab; right; left; reflexivity. }
    destruct Ha as [Hpa Hina]. destruct Hb as [Hpb Hinb].
    assert (Hdeck : deck s' = map (resolved a b) (deck s)).
    { simpl in Hstep. rewrite Htimer in Hstep.
      destruct (render_lt_two (timerFire (expectedTimer a b) s))
        as (s0 & Hr & Hd & _).
      - reflexivity.
      - simpl. rewrite resolve_expected, (resolved_not_pending a b _ Hab). simpl. lia.
      - rewrite Hr in Hstep. injection Hstep as <-. rewrite Hd. simpl.
        apply resolve_expected. }
    split; [exact Hdeck|].
    split; [rewrite Hdeck; apply in_map; exact Hina|].
    split; [rewrite Hdeck; apply in_map; exact Hinb|].
    unfold pending in Hpa, Hpb.
    apply andb_true_iff in Hpa, Hpb.
    destruct Hpa as [Hfa Hma], Hpb as [Hfb Hmb].
    apply negb_true_iff in Hma, Hmb.
    unfold resolved. rewrite !decide_True by auto.
    split; intros Hv.
    + rewrite (proj2 (Nat.eqb_eq _ _) Hv). unfold mark.
      rewrite Hfa, Hfb. split; reflexivity.
    + rewrite (proj2 (Nat.eqb_neq _ _) Hv). unfold unflip.
      rewrite Hma, Hmb. split; reflexivity.
Qed.

Lemma deck_pairs_and_resolution_witness :
  count_occ Nat.eq_dec (map value (makeDeckFor 3 demo_rng).1) 2%nat = 2%nat /\
  exists s', step TimerFires demo_two = Some s' /\
    In (mkCard 1 7 false false) (deck s') /\ In (mkCard 4 8 false false) (deck s').
Proof.
  destruct deck_pairs_and_resolution as [Hdeck Hres].
  split.
  - destruct (Hdeck 3%nat demo_rng) as (_ & _ & Hcount & _).
    apply Hcount. lia.
  - destruct (Hres demo_two (mkCard 1 7 false true) (mkCard 4 8 false true)
                cards_demo_reachable eq_refl)
      as (s' & Hstep & _ & Ha & Hb & _ & Hne).
    exists s'. split; [exact Hstep|].
    destruct Hne as [Ea Eb]; [simpl; lia|].
    rewrite Ea in Ha. rewrite Eb in Hb. split; assumption.
Defined.

End CardsFacts.
(** ** Snake *)

Module SnakeFacts.
Import Rand RandFacts Snake.

(** *** Keys and the food *)

Lemma key_inj (p q : Point) : key p = key q -> p = q.
Proof.
  destruct p as [px py], q as [qx qy]. unfold key. simpl. intros H.
  apply JsFacts.comma_key_inj in H. destruct H as [-> ->]. reflexivity.
Qed.

Lemma keySet_spec (p : Point) (l : list Point) : key p ∈ keySet l <-> In p l.
Proof.
  unfold keySet. rewrite elem_of_list_to_set, list_elem_of_In, in_map_iff. split.
  - intros (q & Hk & Hq). apply key_inj in Hk. subst q. exact Hq.
  - intros Hp. exists p. split; [reflexivity|exact Hp].
Qed.

Lemma candidate_inGrid (g : rng) (k : nat) : inGrid (candidate g k).
Proof.
  unfold inGrid, candidate. simpl.
  split; apply floor_mul_range; reflexivity.
Qed.

Lemma candidate_shift (g : rng) (j : nat) :
  candidate (mkRng (draws g) (S (S (cursor g)))) j = candidate g (S j).
Proof.
  unfold candidate. cbn [cursor draws].
  replace (S (S (cursor g)) + 2 * j)%nat with (cursor g + 2 * S j)%nat by lia.
  reflexivity.
Qed.

(** [randomFood] returns the first drawn cell that is not in [used],
    when there is one among the first [fuel] rounds. *)
Lemma randomFood_first_free (fuel : nat) (used : gset string) (g : rng) (k : nat) :
  (k < fuel)%nat ->
  (forall j, (j < k)%nat -> key (candidate g j) ∈ used) ->
  key (candidate g k) ∉ used ->
  randomFood fuel used g = Some (candidate g k, mkRng (draws g) (cursor g + 2 * S k)).
Proof.
  revert g k. induction fuel as [|fuel IH]; intros g k Hk Hbefore Hfree; [lia|].
  cbn [randomFood random].
  destruct k as [|k].
  - assert (E : candidate g 0 = mkPoint
        (floor_mul (unit_interval (draws g (cursor g))) GRID)
        (floor_mul (unit_interval (draws g (S (cursor g)))) GRID)).
    { unfold candidate. rewrite Nat.add_0_r. reflexivity. }
    cbn [draws cursor]. rewrite <- E.
    rewrite decide_False by exact Hfree.
    do 3 f_equal. lia.
  - assert (E : candidate g 0 = mkPoint
        (floor_mul (unit_interval (draws g (cursor g))) GRID)
        (floor_mul (unit_interval (draws g (S (cursor g)))) GRID)).
    { unfold candidate. rewrite Nat.add_0_r. reflexivity. }
    cbn [draws cursor]. rewrite <- E.
    rewrite decide_True by (apply Hbefore; lia).
    rewrite (IH _ k).
    + rewrite candidate_shift. cbn [draws cursor]. do 3 f_equal. lia.
    + lia.
    + intros j Hj. rewrite candidate_shift. apply Hbefore. lia.
    + rewrite candidate_shift. exact Hfree.
Qed.

(** On a set that holds every cell of the grid the loop never ends. *)
Lemma randomFood_full (fuel : nat) (used : gset string) (g : rng) :
  (forall p, inGrid p -> key p ∈ used) -> randomFood fuel used g = None.
Proof.
  intros Hfull. revert g. induction fuel as [|fuel IH]; intros g; [reflexivity|].
  cbn [randomFood random].
  rewrite decide_True; [apply IH|].
  apply Hfull. split; apply floor_mul_range; reflexivity.
Qed.

Lemma rawFor_spec (c : Z) :
  0 <= c < GRID -> floor_mul (unit_interval (rawFor c)) GRID = c.
Proof.
  intros Hc. unfold GRID in Hc.
  assert (Hall : forallb (fun n =>
            floor_mul (unit_interval (rawFor (Z.of_nat n))) GRID =? Z.of_nat n)
            (seq 0 18) = true) by (vm_compute; reflexivity).
  rewrite forallb_forall in Hall. specialize (Hall (Z.to_nat c)).
  rewrite in_seq, Z2Nat.id in Hall by lia.
  apply Z.eqb_eq, Hall. lia.
Qed.

(** Every free cell of the board is the answer of [randomFood] for some
    generator. *)
Lemma randomFood_any_free (used : gset string) (p : Point) :
  inGrid p -> key p ∉ used ->
  randomFood 1 used (genFor p) = Some (p, mkRng (draws (genFor p)) 2).
Proof.
  intros [Hx Hy] Hfree.
  assert (E : candidate (genFor p) 0 = p).
  { unfold candidate, genFor. cbn [cursor draws Nat.add Nat.mul].
    rewrite !rawFor_spec by assumption. destruct p. reflexivity. }
  rewrite (randomFood_first_free 1 used (genFor p) 0); rewrite ?E; auto.
  intros j Hj. lia.
Qed.

Lemma hits_spec (prev : list Point) (nx ny : Z) :
  hits prev nx ny = true <-> In (mkPoint nx ny) prev.
Proof.
  unfold hits. rewrite existsb_exists. split.
  - intros ([px py] & Hin & Hxy). simpl in Hxy.
    apply andb_true_iff in Hxy. destruct Hxy as [Hx Hy].
    apply Z.eqb_eq in Hx, Hy. subst. exact Hin.
  - intros Hin. exists (mkPoint nx ny). split; [exact Hin|].
    simpl. rewrite !Z.eqb_refl. reflexivity.
Qed.

Lemma hits_false (prev : list Point) (nx ny : Z) :
  ~ In (mkPoint nx ny) prev -> hits prev nx ny = false.
Proof.
  intros H. destruct (hits prev nx ny) eqn:E; [|reflexivity].
  apply hits_spec in E. contradiction.
Qed.

Lemma snake_outside_true (nx ny : Z) :
  nx < 0 \/ nx >= GRID \/ ny < 0 \/ ny >= GRID ->
  (nx <? 0) || (nx >=? GRID) || (ny <? 0) || (ny >=? GRID) = true.
Proof.
  intros H. rewrite !Z.geb_leb.
  destruct (Z.ltb_spec nx 0), (Z.leb_spec GRID nx), (Z.ltb_spec ny 0), (Z.leb_spec GRID ny);
    simpl; try reflexivity; lia.
Qed.

Lemma snake_inside_false (nx ny : Z) :
  0 <= nx < GRID -> 0 <= ny < GRID ->
  (nx <? 0) || (nx >=? GRID) || (ny <? 0) || (ny >=? GRID) = false.
Proof.
  intros Hx Hy. rewrite !Z.geb_leb.
  destruct (Z.ltb_spec nx 0), (Z.leb_spec GRID nx), (Z.ltb_spec ny 0), (Z.leb_spec GRID ny);
    simpl; try reflexivity; lia.
Qed.

(** *** The three branches of [tick] *)

Lemma tick_ended (fuel : nat) (s : State) (head : Point) (rest : list Point) :
  snake s = head :: rest ->
  let p := nextHead s head in
  (x p < 0 \/ x p >= GRID \/ y p < 0 \/ y p >= GRID) \/ In p (snake s) ->
  tick fuel s = Done (set_status ended s).
Proof.
  intros Hs p Hcond. unfold tick. rewrite Hs. rewrite <- Hs.
  fold (nextHead s head). fold p.
  change (x head + x (delta (dir s))) with (x p).
  change (y head + y (delta (dir s))) with (y p).
  destruct Hcond as [Hout|Hin].
  - rewrite (snake_outside_true _ _ Hout). reflexivity.
  - assert (hits (snake s) (x p) (y p) = true) as ->.
    { apply hits_spec. exact Hin. }
    rewrite orb_true_r. reflexivity.
Qed.

Lemma tick_free (fuel : nat) (s : State) (head : Point) (rest : list Point) :
  snake s = head :: rest ->
  let p := nextHead s head in
  inGrid p -> ~ In p (snake s) ->
  tick fuel s =
    if decide (p = food s) then
      match randomFood fuel (keySet (p :: snake s)) (gen s) with
      | None => Unfinished
      | Some (f, g1) =>
          Done (mkState (status s) (dir s) (p :: snake s) f (randomFoodKind g1).1
                  (score s + 10) (countdownLeft s)
                  (random (randomFoodKind g1).2).2)
      end
    else Done (set_snake (removelast (p :: snake s)) s).
Proof.
  intros Hs p [Hx Hy] Hnot. unfold tick. rewrite Hs. rewrite <- Hs.
  change (x head + x (delta (dir s))) with (x p).
  change (y head + y (delta (dir s))) with (y p).
  rewrite (snake_inside_false _ _ Hx Hy). simpl orb.
  rewrite hits_false by exact Hnot.
  change (mkPoint (x p) (y p)) with p.
  case_decide as Hfood.
  - rewrite <- Hfood, !Z.eqb_refl. simpl andb.
    destruct (randomFood _ _ _) as [[f g1]|]; [|reflexivity].
    destruct (randomFoodKind g1) as [k g2]. reflexivity.
  - assert ((x p =? x (food s)) && (y p =? y (food s)) = false) as ->; [|reflexivity].
    apply andb_false_iff.
    destruct (Z.eqb_spec (x p) (x (food s))) as [Ex|]; [|left; reflexivity].
    destruct (Z.eqb_spec (y p) (y (food s))) as [Ey|]; [|right; reflexivity].
    exfalso. apply Hfood. destruct (food s) as [fx fy]. simpl in Ex, Ey.
    subst fx fy. reflexivity.
Qed.

(** *** Well-formed snakes *)

Lemma removelast_cons_wellFormed (p : Point) (l : list Point) :
  wellFormed l -> ~ In p l -> inGrid p ->
  wellFormed (removelast (p :: l)) /\ length (removelast (p :: l)) = length l.
Proof.
  intros (Hne & Hnd & Hall) Hp Hg.
  assert (Hfull : wellFormed (p :: l)).
  { split; [discriminate|]. split.
    - apply NoDup_cons. split; [rewrite list_elem_of_In; exact Hp|exact Hnd].
    - constructor; assumption. }
  destruct Hfull as (_ & Hnd' & Hall').
  pose proof (app_removelast_last p (l := p :: l) ltac:(discriminate)) as Hsplit.
  set (front := removelast (p :: l)) in *.
  assert (Hlen : length front = length l).
  { apply (f_equal length) in Hsplit. rewrite length_app in Hsplit. simpl in Hsplit. lia. }
  split; [|exact Hlen].
  rewrite Hsplit in Hnd', Hall'.
  apply NoDup_app in Hnd'. apply Forall_app in Hall'.
  split; [|split; [apply Hnd'|apply Hall']].
  intros E. rewrite E in Hlen. destruct l; [contradiction|discriminate].
Qed.

Lemma initialSnake_wellFormed : wellFormed initialSnake.
Proof.
  split; [discriminate|]. split.
  - apply (bool_decide_eq_true_1 (NoDup initialSnake)). vm_compute. reflexivity.
  - repeat constructor; vm_compute; congruence.
Qed.

(** Every completed tick keeps the snake well formed and changes its
    length by nothing or by one; a tick never throws. *)
Lemma tick_wellFormed (fuel : nat) (s : State) :
  wellFormed (snake s) ->
  (exists s', tick fuel s = Done s' /\ wellFormed (snake s') /\
     (length (snake s') = length (snake s) \/
      length (snake s') = S (length (snake s)))) \/
  (tick fuel s = Unfinished /\
   exists head rest, snake s = head :: rest /\ nextHead s head = food s).
Proof.
  intros Hwf. pose proof Hwf as (Hne & Hnd & Hall).
  destruct (snake s) as [|head rest] eqn:Hs; [contradiction|]. rewrite <- Hs in *.
  set (p := nextHead s head).
  assert (Hcases : (inGrid p /\ ~ In p (snake s)) \/ ~ (inGrid p /\ ~ In p (snake s))).
  { destruct (decide (0 <= x p < GRID /\ 0 <= y p < GRID)) as [Hg|Hg];
      [|right; intros [? _]; contradiction].
    destruct (in_dec Point_eq_dec p (snake s)) as [Hin|Hnin];
      [right; intros [_ ?]; contradiction|left; split; assumption]. }
  destruct Hcases as [[Hg Hnot]|Hbad].
  - rewrite (tick_free fuel s head rest Hs Hg Hnot). fold p.
    case_decide as Hfood.
    + destruct (randomFood _ _ _) as [[f g1]|].
      * left. eexists. split; [reflexivity|]. simpl. split; [|right; reflexivity].
        split; [discriminate|]. split.
        -- apply NoDup_cons. split; [rewrite list_elem_of_In; exact Hnot|exact Hnd].
        -- constructor; assumption.
      * right. split; [reflexivity|]. exists head, rest. split; [exact Hs|exact Hfood].
    + left. eexists. split; [reflexivity|]. simpl.
      destruct (removelast_cons_wellFormed p (snake s) Hwf Hnot Hg) as [Hwf' Hlen].
      split; [exact Hwf'|left; exact Hlen].
  - left. exists (set_status ended s). split.
    + apply (tick_ended fuel s head rest Hs). fold p.
      destruct (in_dec Point_eq_dec p (snake s)) as [Hin|Hnin]; [right; exact Hin|left].
      unfold inGrid in Hbad.
      destruct (decide (x p < 0)); [lia|]. destruct (decide (x p >= GRID)); [lia|].
      destruct (decide (y p < 0)); [lia|]. destruct (decide (y p >= GRID)); [lia|].
      exfalso. apply Hbad. split; [lia|exact Hnin].
    + simpl. split; [exact Hwf|left; reflexivity].
Qed.

Lemma reset_snake (fuel : nat) (s s' : State) :
  reset fuel s = Done s' -> snake s' = initialSnake.
Proof.
  unfold reset. destruct (randomFood _ _ _) as [[f g1]|]; [|discriminate].
  destruct (randomFoodKind g1) as [k g2]. intros [= <-]. reflexivity.
Qed.

Lemma step_snake_other (fuel : nat) (e : Event) (s s' : State) :
  e <> Tick -> step fuel e s = Done s' ->
  snake s' = snake s \/ snake s' = initialSnake.
Proof.
  intros He Hstep. destruct e; try contradiction; simpl in Hstep.
  - injection Hstep as <-. left. unfold onKeyDown, beginCountdown, togglePause, turn.
    destruct (status s), k; repeat case_decide; try reflexivity;
      destruct (status s); reflexivity.
  - injection Hstep as <-. left. unfold handleTapDir, turn.
    repeat case_decide; reflexivity.
  - injection Hstep as <-. left. unfold togglePause. destruct (status s); reflexivity.
  - injection Hstep as <-. left. unfold mainButton. destruct (status s); reflexivity.
  - case_decide; injection Hstep as <-; left; reflexivity.
  - case_decide; [|injection Hstep as <-; left; reflexivity].
    destruct (reset fuel s) as [s0| |] eqn:Hr; try discriminate.
    injection Hstep as <-. right. simpl. apply (reset_snake fuel s). exact Hr.
  - right. apply (reset_snake fuel s). exact Hstep.
  - case_decide; injection Hstep as <-; left; [|reflexivity].
    unfold countdownStep. destruct (1 <=? _); reflexivity.
Qed.

Lemma reachable_wellFormed (s : State) : reachable s -> wellFormed (snake s).
Proof.
  induction 1 as [fuel g s Hi|fuel e s s' _ IH Hstep].
  - unfold initial in Hi. destruct (randomFood _ _ _) as [[f g1]|]; [|discriminate].
    destruct (randomFoodKind g1) as [k g2]. injection Hi as <-.
    apply initialSnake_wellFormed.
  - destruct e;
      try (match type of Hstep with step _ ?e _ = _ =>
             destruct (step_snake_other fuel e s s' ltac:(discriminate) Hstep) as [->| ->]
           end; [exact IH|apply initialSnake_wellFormed]).
    simpl in Hstep. case_decide; [|injection Hstep as <-; exact IH].
    destruct (tick_wellFormed fuel s IH) as [(s0 & E & Hwf & _)|[E _]]; congruence.
Qed.

(** *** The full board *)

Lemma fullGrid_covered (p : Point) : inGrid p -> In p (mkPoint 0 17 :: fullSnake).
Proof.
  intros [Hx Hy]. destruct p as [px py]. simpl in Hx, Hy. unfold GRID in *.
  assert (Hall : forallb (fun c => forallb (fun r =>
            bool_decide (mkPoint (Z.of_nat c) (Z.of_nat r) ∈ mkPoint 0 17 :: fullSnake))
            (seq 0 18)) (seq 0 18) = true) by (vm_compute; reflexivity).
  rewrite forallb_forall in Hall.
  specialize (Hall (Z.to_nat px)). rewrite in_seq in Hall.
  specialize (Hall ltac:(lia)). rewrite forallb_forall in Hall.
  specialize (Hall (Z.to_nat py)). rewrite in_seq in Hall.
  specialize (Hall ltac:(lia)). apply bool_decide_eq_true_1 in Hall.
  rewrite !Z2Nat.id in Hall by lia. apply list_elem_of_In. exact Hall.
Qed.

Lemma snake_demo_reachable : reachable demo_running.
Proof.
  assert (H0 : reachable demo_mounted).
  { apply (reachable_initial 1 demo_rng). vm_compute. reflexivity. }
  pose (s1 := beginCountdown demo_mounted).
  assert (H1 : reachable s1).
  { apply (reachable_step 1 StartButton demo_mounted); [exact H0|]. vm_compute. reflexivity. }
  pose (s2 := countdownStep s1).
  assert (H2 : reachable s2).
  { apply (reachable_step 1 CountdownTick s1); [exact H1|]. vm_compute. reflexivity. }
  pose (s3 := countdownStep s2).
  assert (H3 : reachable s3).
  { apply (reachable_step 1 CountdownTick s2); [exact H2|]. vm_compute. reflexivity. }
  apply (reachable_step 1 CountdownTick s3); [exact H3|]. vm_compute. reflexivity.
Defined.

(** C6, amended.  In a running game, when the cell ahead of the
    head is on the board, free of the snake and holds the food, and round
    [k] of [randomFood] is the first to draw a cell outside the grown
    snake (within the fuel), the tick puts the new head in front of the
    unchanged snake, adds 10 to the score and moves the food to that
    cell, which is on the board and not on the grown snake. *)
Theorem tick_eats_food (fuel k : nat) (s : State) (head : Point) (rest : list Point) :
  status s = running -> snake s = head :: rest ->
  let p := nextHead s head in
  inGrid p -> ~ In p (snake s) -> food s = p ->
  (k < fuel)%nat ->
  (forall j, (j < k)%nat -> In (candidate (gen s) j) (p :: snake s)) ->
  ~ In (candidate (gen s) k) (p :: snake s) ->
  exists s', step fuel Tick s = Done s' /\
    snake s' = p :: snake s /\
    length (snake s') = S (length (snake s)) /\
    score s' = score s + 10 /\
    food s' = candidate (gen s) k /\
    inGrid (food s') /\ ~ In (food s') (snake s') /\
    status s' = running.
Proof.
  intros Hrun Hs p Hg Hnot Hfood Hk Hbefore Hfree.
  simpl. rewrite decide_True by exact Hrun.
  rewrite (tick_free fuel s head rest Hs Hg Hnot). fold p.
  rewrite decide_True by (symmetry; exact Hfood).
  rewrite (randomFood_first_free fuel _ (gen s) k Hk).
  - eexists. split; [reflexivity|]. simpl.
    repeat split; try reflexivity; try apply candidate_inGrid; try exact Hrun.
    exact Hfree.
  - intros j Hj. apply keySet_spec. apply Hbefore. exact Hj.
  - rewrite keySet_spec. exact Hfree.
Qed.

Lemma tick_eats_food_witness :
  exists s', step 1 Tick (exampleState demo_rng) = Done s' /\
    snake s' = [mkPoint 4 3; mkPoint 3 3; mkPoint 2 3; mkPoint 1 3] /\
    length (snake s') = 4%nat /\ score s' = 10 /\
    food s' = mkPoint 9 14 /\ ~ In (food s') (snake s').
Proof.
  destruct (tick_eats_food 1 0 (exampleState demo_rng) (mkPoint 3 3)
              [mkPoint 2 3; mkPoint 1 3])
    as (s' & Hstep & Hsnake & Hlen & Hscore & Hfood & _ & Hfree & _).
  - reflexivity.
  - reflexivity.
  - split; vm_compute; split; congruence.
  - vm_compute. intros [H|[H|[H|[]]]]; discriminate H.
  - reflexivity.
  - lia.
  - intros j Hj. lia.
  - vm_compute. intros [H|[H|[H|[H|[]]]]]; discriminate H.
  - exists s'. repeat split; assumption.
Defined.

(** The claim C6 fails on the full board: the snake covers every cell
    but the one with the food, the step ahead is onto the food, and for
    every generator and every amount of fuel the tick is still inside
    [randomFood]. *)
Lemma tick_full_grid_unfinished :
  (length fullSnake = 323%nat /\ wellFormed fullSnake /\ contiguous fullSnake = true) /\
  (forall g, status (fullState g) = running /\
             nextHead (fullState g) (mkPoint 1 17) = food (fullState g) /\
             ~ In (food (fullState g)) (snake (fullState g)) /\
             forall fuel, step fuel Tick (fullState g) = Unfinished).
Proof.
  split.
  - split; [reflexivity|]. split; [|vm_compute; reflexivity].
    split; [discriminate|]. split.
    + apply (bool_decide_eq_true_1 (NoDup fullSnake)). vm_compute. reflexivity.
    + apply Forall_forall. intros p Hp.
      assert (H : forallb (fun q => (0 <=? x q) && (x q <? GRID) && (0 <=? y q) && (y q <? GRID))
                    fullSnake = true) by (vm_compute; reflexivity).
      rewrite forallb_forall in H. apply list_elem_of_In in Hp. specialize (H p Hp).
      unfold inGrid. lia.
  - intros g.
    assert (Hnot : ~ In (mkPoint 0 17) fullSnake).
    { rewrite <- list_elem_of_In.
      apply (bool_decide_eq_false_1 (mkPoint 0 17 ∈ fullSnake)). vm_compute. reflexivity. }
    split; [reflexivity|]. split; [reflexivity|]. split; [exact Hnot|].
    intros fuel. unfold step. rewrite decide_True by reflexivity.
    rewrite (tick_free fuel (fullState g) (mkPoint 1 17) (tl fullSnake));
      [|reflexivity|split; vm_compute; split; congruence|exact Hnot].
    rewrite decide_True by reflexivity.
    rewrite randomFood_full; [reflexivity|].
    intros p Hp. apply keySet_spec. apply fullGrid_covered. exact Hp.
Qed.

(** C7. In a running game, when the cell ahead of the head is off the
    board or is a cell of the snake as it lies before the move (its last
    cell included), the tick sets the status to ended and leaves the
    snake as it is. *)
Theorem tick_collision_ends (fuel : nat) (s : State) (head : Point) (rest : list Point) :
  status s = running -> snake s = head :: rest ->
  let p := nextHead s head in
  (x p < 0 \/ x p >= GRID \/ y p < 0 \/ y p >= GRID) \/ In p (snake s) ->
  exists s', step fuel Tick s = Done s' /\ status s' = ended /\ snake s' = snake s.
Proof.
  intros Hrun Hs p Hcond. exists (set_status ended s).
  split; [|split; reflexivity].
  simpl. rewrite decide_True by exact Hrun.
  apply (tick_ended fuel s head rest Hs Hcond).
Qed.

Lemma tick_collision_ends_witness :
  last (snake (curledState demo_rng)) = Some (mkPoint 2 1) /\
  exists s', step 0 Tick (curledState demo_rng) = Done s' /\
    status s' = ended /\ snake s' = snake (curledState demo_rng).
Proof.
  split; [reflexivity|].
  apply (tick_collision_ends 0 (curledState demo_rng) (mkPoint 1 1)
           [mkPoint 1 2; mkPoint 2 2; mkPoint 2 1]).
  - reflexivity.
  - reflexivity.
  - right. simpl. right. right. right. left. reflexivity.
Defined.



End SnakeFacts.
(** ** Tanks *)

Module TanksFacts.
Import Rand Tanks.

Lemma tanks_inside_false (x y : Z) :
  0 <= x < GRID -> 0 <= y < GRID ->
  (x <? 0) || (x >=? GRID) || (y <? 0) || (y >=? GRID) = false.
Proof.
  intros Hx Hy. rewrite !Z.geb_leb.
  destruct (Z.ltb_spec x 0), (Z.leb_spec GRID x), (Z.ltb_spec y 0), (Z.leb_spec GRID y);
    simpl; try reflexivity; lia.
Qed.

(** [dropPowerUp] only touches the power-ups and the generator. *)
Lemma dropPowerUp_fields (x y : Z) (w : World) :
  let w' := dropPowerUp x y w in
  terrain w' = terrain w /\ tanks w' = tanks w /\ state w' = state w /\
  terrainRef w' = terrainRef w /\ tanksRef w' = tanksRef w.
Proof.
  unfold dropPowerUp. cbn [random]. destruct (lt _ _); repeat split; reflexivity.
Qed.

(** What the tank branch can do to the world. *)
Lemma damageTank_fields (x y : Z) (o : Side) (w : World) :
  terrain (damageTank x y o w).2 = terrain w /\
  terrainRef (damageTank x y o w).2 = terrainRef w /\
  (running (state w) = false -> running (state (damageTank x y o w).2) = false).
Proof.
  unfold damageTank. destruct (tankAt x y (tanksRef w)) as [[i target]|]; [|auto].
  case_decide; [auto|].
  destruct (_ && _); [cbn; auto|].
  destruct (side target); cbn [snd].
  - cbn. auto.
  - match goal with |- context [dropPowerUp x y ?w0] =>
      destruct (dropPowerUp_fields x y w0) as (-> & _ & -> & -> & _)
    end.
    cbn. auto.
Qed.

Lemma damageAt_fields (x y : Z) (o : Side) (w w' : World) (r : Result) :
  damageAt x y o w = Some (r, w') ->
  terrainRef w' = terrainRef w /\
  (running (state w) = false -> running (state w') = false).
Proof.
  unfold damageAt. destruct (_ || _); [intros [= <- <-]; auto|].
  destruct (terrainRef w !! Z.to_nat y) as [row|]; [|discriminate].
  pose proof (damageTank_fields x y o w) as (_ & Ht & Hr).
  destruct (row !! Z.to_nat x) as [[| | |]|].
  - destruct (damageTank x y o w) as [r0 w0]. intros [= <- <-]. auto.
  - destruct (Js.mset_checked _ _ _ _); [|discriminate]. intros [= <- <-]. auto.
  - intros [= <- <-]. auto.
  - intros [= <- <-]. auto.
  - destruct (damageTank x y o w) as [r0 w0]. intros [= <- <-]. auto.
Qed.

Lemma bulletStep_fields (w w' : World) (next next' : list Bullet) (b : Bullet) :
  bulletStep (Some (w, next)) b = Some (w', next') ->
  terrainRef w' = terrainRef w /\
  (running (state w) = false -> running (state w') = false).
Proof.
  unfold bulletStep. destruct (negb (active b)); [intros [= <- <-]; auto|].
  destruct (damageAt _ _ _ w) as [[r w0]|] eqn:E; [|discriminate].
  apply damageAt_fields in E. destruct r; intros [= <- <-]; exact E.
Qed.

Lemma foldl_bulletStep_None (l : list Bullet) : foldl bulletStep None l = None.
Proof. induction l as [|b l IH]; [reflexivity|exact IH]. Qed.

Lemma foldl_bulletStep_running (l : list Bullet) (w w' : World) (next next' : list Bullet) :
  foldl bulletStep (Some (w, next)) l = Some (w', next') ->
  running (state w) = false -> running (state w') = false.
Proof.
  revert w next. induction l as [|b l IH]; intros w next; cbn [foldl].
  - intros [= <- <-]. auto.
  - destruct (bulletStep (Some (w, next)) b) as [[w1 n1]|] eqn:E.
    + intros Hf Hr. apply (IH _ _ Hf). apply (bulletStep_fields _ _ _ _ _ E). exact Hr.
    + rewrite foldl_bulletStep_None. discriminate.
Qed.

(** A bullet whose next cell is the base, in any world with this terrain. *)
Lemma bulletStep_base (w : World) (b : Bullet) (next : list Bullet) :
  active b = true ->
  0 <= (ahead b).1 < GRID -> 0 <= (ahead b).2 < GRID ->
  Js.mget (terrainRef w) (Z.to_nat (ahead b).2) (Z.to_nat (ahead b).1) = Some base ->
  bulletStep (Some (w, next)) b = Some (set_state (gameOver (state w)) w, next).
Proof.
  intros Ha Hx Hy Hbase. unfold bulletStep. rewrite Ha. simpl negb. cbv iota.
  unfold damageAt. rewrite (tanks_inside_false _ _ Hx Hy).
  unfold Js.mget in Hbase.
  destruct (terrainRef w !! Z.to_nat (ahead b).2) as [row|]; [|discriminate].
  rewrite Hbase. reflexivity.
Qed.

Lemma foldl_bulletStep_base (l : list Bullet) (w w' : World) (next next' : list Bullet)
    (b : Bullet) :
  In b l -> active b = true ->
  0 <= (ahead b).1 < GRID -> 0 <= (ahead b).2 < GRID ->
  Js.mget (terrainRef w) (Z.to_nat (ahead b).2) (Z.to_nat (ahead b).1) = Some base ->
  foldl bulletStep (Some (w, next)) l = Some (w', next') ->
  running (state w') = false.
Proof.
  revert w next. induction l as [|a l IH]; intros w next Hin Ha Hx Hy Hbase; [destruct Hin|].
  cbn [foldl]. destruct Hin as [->|Hin].
  - rewrite (bulletStep_base w b next Ha Hx Hy Hbase).
    intros Hf. apply (foldl_bulletStep_running _ _ _ _ _ Hf). reflexivity.
  - destruct (bulletStep (Some (w, next)) a) as [[w1 n1]|] eqn:E.
    + apply (IH w1 n1 Hin Ha Hx Hy).
      destruct (bulletStep_fields _ _ _ _ _ E) as [-> _]. exact Hbase.
    + rewrite foldl_bulletStep_None. discriminate.
Qed.

(** *** On a terrain of 15 rows of 15 cells nothing throws *)

Lemma damageAt_total (x y : Z) (o : Side) (w : World) :
  Js.rect 15 15 (terrainRef w) -> Js.rect 15 15 (terrain w) ->
  exists r w', damageAt x y o w = Some (r, w') /\
    Js.rect 15 15 (terrainRef w') /\ Js.rect 15 15 (terrain w').
Proof.
  intros Href Hter. unfold damageAt.
  destruct (_ || _) eqn:Hout; [eauto|].
  assert (Hx : 0 <= x < GRID /\ 0 <= y < GRID).
  { rewrite !Z.geb_leb in Hout.
    destruct (Z.ltb_spec x 0), (Z.leb_spec GRID x), (Z.ltb_spec y 0), (Z.leb_spec GRID y);
      simpl in Hout; try discriminate; lia. }
  unfold GRID in Hx.
  destruct (lookup_lt_is_Some_2 (terrainRef w) (Z.to_nat y)) as [row ->];
    [destruct Href as [-> _]; lia|].
  pose proof (damageTank_fields x y o w) as (Ht & Hr & _).
  destruct (row !! Z.to_nat x) as [[| | |]|].
  - destruct (damageTank x y o w) as [r0 w0]. simpl in *. rewrite <- Ht, <- Hr in *. eauto.
  - unfold Js.mset_checked.
    destruct (lookup_lt_is_Some_2 (terrain w) (Z.to_nat y)) as [trow Htrow];
      [destruct Hter as [-> _]; lia|].
    rewrite Htrow.
    assert (length trow = 15%nat) as Hlen.
    { destruct Hter as [_ Hf]. rewrite Forall_lookup in Hf. eauto. }
    rewrite decide_True by lia.
    eexists _, _. split; [reflexivity|]. split; [exact Href|]. simpl.
    destruct Hter as [Hl Hf]. split; [rewrite length_insert; exact Hl|].
    rewrite Forall_lookup in *. intros k r0 Hk.
    destruct (decide (k = Z.to_nat y)) as [->|Hne].
    + rewrite list_lookup_insert_eq in Hk by lia. injection Hk as <-.
      rewrite length_insert. exact Hlen.
    + rewrite list_lookup_insert_ne in Hk by congruence. eauto.
  - eauto.
  - eauto.
  - destruct (damageTank x y o w) as [r0 w0]. simpl in *. rewrite <- Ht, <- Hr in *. eauto.
Qed.

Lemma foldl_bulletStep_total (l : list Bullet) (w : World) (next : list Bullet) :
  Js.rect 15 15 (terrainRef w) -> Js.rect 15 15 (terrain w) ->
  exists w' next', foldl bulletStep (Some (w, next)) l = Some (w', next').
Proof.
  revert w next. induction l as [|b l IH]; intros w next Href Hter; cbn [foldl]; [eauto|].
  unfold bulletStep at 2. destruct (negb (active b)); [apply IH; assumption|].
  destruct (damageAt_total (ahead b).1 (ahead b).2 (owner b) w Href Hter)
    as (r & w1 & -> & Href1 & Hter1).
  destruct r; apply IH; assumption.
Qed.

(** C4. A bullet whose next cell holds, as the first live tank found
    there, a tank of the side that fired it.  When the terrain of that
    cell is empty, so that the bullet is resolved against the tank,
    [damageAt] answers [blocked] and the world is the same afterwards:
    no tank, life, score or terrain cell changed, and the loop drops the
    bullet.  Whatever the terrain of the cell, the bullet is dropped and
    the tanks (state and ref), the lives and the score are unchanged. *)
Theorem friendly_fire_immune (w : World) (b : Bullet) (next : list Bullet)
    (i : nat) (target : Tank) :
  active b = true ->
  tankAt (ahead b).1 (ahead b).2 (tanksRef w) = Some (i, target) ->
  side target = owner b ->
  (Js.mget (terrainRef w) (Z.to_nat (ahead b).2) (Z.to_nat (ahead b).1) = Some empty ->
     damageAt (ahead b).1 (ahead b).2 (owner b) w = Some (blocked, w) /\
     bulletStep (Some (w, next)) b = Some (w, next)) /\
  (forall r w', damageAt (ahead b).1 (ahead b).2 (owner b) w = Some (r, w') ->
     r <> none /\ bulletStep (Some (w, next)) b = Some (w', next) /\
     tanks w' = tanks w /\ tanksRef w' = tanksRef w /\
     lives (state w') = lives (state w) /\ score (state w') = score (state w)).
Proof.
  intros Ha Htank Hside.
  assert (Htb : damageTank (ahead b).1 (ahead b).2 (owner b) w = (blocked, w)).
  { unfold damageTank. rewrite Htank. rewrite decide_True by (symmetry; exact Hside).
    reflexivity. }
  assert (Hstep : forall r w', damageAt (ahead b).1 (ahead b).2 (owner b) w = Some (r, w') ->
            r <> none -> bulletStep (Some (w, next)) b = Some (w', next)).
  { intros r w' E Hr. unfold bulletStep. rewrite Ha, E. simpl.
    destruct r; [reflexivity|reflexivity|contradiction]. }
  split.
  - intros Hcell.
    assert (E : damageAt (ahead b).1 (ahead b).2 (owner b) w = Some (blocked, w)).
    { unfold damageAt. destruct (_ || _); [reflexivity|].
      unfold Js.mget in Hcell.
      destruct (terrainRef w !! Z.to_nat (ahead b).2) as [row|]; [|discriminate].
      rewrite Hcell, Htb. reflexivity. }
    split; [exact E|]. apply (Hstep _ _ E). discriminate.
  - intros r w' E.
    assert (Hres : r <> none /\ tanks w' = tanks w /\ tanksRef w' = tanksRef w /\
              lives (state w') = lives (state w) /\ score (state w') = score (state w)).
    { unfold damageAt in E.
      destruct (_ || _); [injection E as <- <-; repeat split; discriminate|].
      destruct (terrainRef w !! Z.to_nat (ahead b).2) as [row|]; [|discriminate].
      rewrite Htb in E.
      destruct (row !! Z.to_nat (ahead b).1) as [[| | |]|].
      - injection E as <- <-. repeat split; discriminate.
      - destruct (Js.mset_checked _ _ _ _); [|discriminate].
        injection E as <- <-. repeat split; discriminate.
      - injection E as <- <-. repeat split; discriminate.
      - injection E as <- <-. repeat split; discriminate.
      - injection E as <- <-. repeat split; discriminate. }
    destruct Hres as (Hr & Hrest). split; [exact Hr|]. split; [|exact Hrest].
    apply (Hstep _ _ E Hr).
Qed.

Lemma friendly_fire_immune_witness :
  let b := mkBullet (Stamp "B-E" 3000 (1 # 8)) 3 1 right enemy true in
  tankAt 4 1 (tanksRef demoWorld) = Some (2%nat, mkTank (Stamp "E" 2000 (3 # 4)) 4 1 down enemy true) /\
  damageAt 4 1 enemy demoWorld = Some (blocked, demoWorld) /\
  bulletStep (Some (demoWorld, [])) b = Some (demoWorld, []).
Proof.
  intros b. split; [reflexivity|].
  destruct (friendly_fire_immune demoWorld b [] 2
              (mkTank (Stamp "E" 2000 (3 # 4)) 4 1 down enemy true)) as [Hempty _].
  - reflexivity.
  - reflexivity.
  - reflexivity.
  - apply Hempty. reflexivity.
Defined.

(** C5. On a terrain of 15 rows of 15 cells, an active bullet whose next
    cell is the base: its round of the loop sets [running] (and
    [paused]) to false, leaves the lives alone and drops the bullet, in
    any world with that terrain and whatever the lives are; the bullet
    phase of the tick completes and ends with [running] false. *)
Theorem base_hit_ends_game (w : World) (b : Bullet) :
  Js.rect 15 15 (terrainRef w) -> Js.rect 15 15 (terrain w) ->
  In b (bullets w) -> active b = true ->
  0 <= (ahead b).1 < GRID -> 0 <= (ahead b).2 < GRID ->
  Js.mget (terrainRef w) (Z.to_nat (ahead b).2) (Z.to_nat (ahead b).1) = Some base ->
  (forall w0 next, terrainRef w0 = terrainRef w ->
     bulletStep (Some (w0, next)) b = Some (set_state (gameOver (state w0)) w0, next) /\
     running (gameOver (state w0)) = false /\
     lives (gameOver (state w0)) = lives (state w0)) /\
  exists w', advanceBullets w = Some w' /\ running (state w') = false.
Proof.
  intros Href Hter Hin Ha Hx Hy Hbase. split.
  - intros w0 next E. split; [|split; reflexivity].
    apply bulletStep_base; try assumption. rewrite E. exact Hbase.
  - unfold advanceBullets.
    destruct (foldl_bulletStep_total (bullets w) w [] Href Hter) as (w' & next' & E).
    rewrite E. eexists. split; [reflexivity|]. simpl.
    apply (foldl_bulletStep_base (bullets w) w w' [] next' b); assumption.
Qed.

Lemma base_hit_ends_game_witness :
  lives (state demoWorld) = 3 /\ running (state demoWorld) = true /\
  exists w', advanceBullets demoWorld = Some w' /\ running (state w') = false.
Proof.
  split; [reflexivity|]. split; [reflexivity|].
  destruct (base_hit_ends_game demoWorld
              (mkBullet (Stamp "B-E" 3100 (5 # 8)) 7 13 down enemy true)) as [_ H].
  - split; [reflexivity|]. repeat constructor.
  - split; [reflexivity|]. repeat constructor.
  - right. left. reflexivity.
  - reflexivity.
  - vm_compute. split; congruence.
  - vm_compute. split; congruence.
  - reflexivity.
  - exact H.
Defined.

End TanksFacts.

(** ** The preference store *)

Module StorageFacts.
Import Storage.

(** C9, as the code behaves.  With the store unavailable, the two reads
    that Cards makes at every render, its writes after a win and the two
    initial reads of Tanks all raise; only the two storing effects of
    Tanks, which are wrapped in try/catch, complete. *)
Theorem storage_failure_propagates :
  cardsBest unavailable 8 "moves" = Raised /\
  cardsBest unavailable 8 "seconds" = Raised /\
  cardsWinEffect unavailable 8 12 40 0 0 = Raised /\
  tanksComfortInit unavailable = Raised /\
  tanksSoundInit unavailable = Raised /\
  (forall v, tanksPersist "tanks_comfort" unavailable v = Ok unavailable) /\
  (forall v, tanksPersist "tanks_sound" unavailable v = Ok unavailable).
Proof. repeat split. Qed.

(** With the store available the same operations complete. *)
Lemma storage_available (m : gmap string string) :
  let ls := mkStorage true m in
  (exists v, cardsBest ls 8 "moves" = Ok v) /\
  (exists ls', cardsWinEffect ls 8 12 40 0 0 = Ok ls') /\
  (exists c, tanksComfortInit ls = Ok c) /\
  (exists ls', tanksPersist "tanks_comfort" ls true = Ok ls').
Proof.
  intros ls. repeat split.
  - unfold cardsBest, getItem. simpl.
    destruct (m !! bestKey 8 "moves") as [[|c s]|]; eauto.
  - unfold cardsWinEffect, cardsWrite, setItem. simpl. eauto.
  - unfold tanksComfortInit, getItem. simpl.
    destruct (m !! "tanks_comfort"); eauto.
  - unfold tanksPersist, setItem. simpl. eauto.
Qed.

End StorageFacts.
(** ** Cards: the course of a game *)

Module CardsPlay.
Import Rand Cards CardsFacts CardsTable.

Lemma pairEffect_frame (s s1 : State) :
  pairEffect s = Some s1 ->
  deck s1 = deck s /\ pairs s1 = pairs s /\ seconds s1 = seconds s /\
  gen s1 = gen s /\ running s1 = running s /\ moves s1 = counted s /\
  (pairKey (deck s) <> "" -> lastPairRef s1 = Some (pairKey (deck s))).
Proof.
  destruct s as [p d bz br mv sec run lp tr cl g].
  unfold pairEffect, counted. fields.
  destruct (decide (pairKey d = "")) as [Hk|Hk].
  - intros [= <-]. destruct bz; fields; repeat split; try reflexivity; contradiction.
  - destruct (decide (lp = Some (pairKey d))) as [Hl|Hl].
    + intros [= <-]. fields. repeat split; try reflexivity. intros _. exact Hl.
    + destruct (parseKey (pairKey d)) as [i1 i2].
      destruct (List.find (same_id i1) d) as [a|]; [|discriminate].
      destruct (List.find (same_id i2) d) as [b|]; [|discriminate].
      intros [= <-]. fields. repeat split; reflexivity.
Qed.

Lemma runEffect_frame (s s1 : State) :
  runEffect s = Some s1 ->
  deck s1 = deck s /\ pairs s1 = pairs s /\ seconds s1 = seconds s /\
  gen s1 = gen s /\ running s1 = running s /\ moves s1 = counted s /\
  (pairKey (deck s) <> "" -> lastPairRef s1 = Some (pairKey (deck s))).
Proof.
  unfold runEffect. intros H. apply pairEffect_frame in H.
  destruct (cleanup s); exact H.
Qed.

(** A render leaves the deck, the difficulty, the clock and the generator
    alone; it stops the game when every card is matched and counts a move
    when it meets a new pair. *)
Lemma render_frame (s s' : State) :
  render s = Some s' ->
  deck s' = deck s /\ pairs s' = pairs s /\ seconds s' = seconds s /\
  gen s' = gen s /\ running s' = running s && negb (allMatched (deck s)) /\
  moves s' = counted s.
Proof.
  unfold render. destruct (runEffect s) as [s1|] eqn:H1; [|discriminate].
  apply runEffect_frame in H1. destruct H1 as (Hd & Hp & Hs & Hg & Hr & Hm & Hl).
  assert (Hwin : forall s2, deck s2 = deck s -> pairs s2 = pairs s ->
            seconds s2 = seconds s -> gen s2 = gen s -> running s2 = running s ->
            moves s2 = counted s ->
            deck (winEffect s2) = deck s /\ pairs (winEffect s2) = pairs s /\
            seconds (winEffect s2) = seconds s /\ gen (winEffect s2) = gen s /\
            running (winEffect s2) = running s && negb (allMatched (deck s)) /\
            moves (winEffect s2) = counted s).
  { intros s2 Hd2 Hp2 Hs2 Hg2 Hr2 Hm2. unfold winEffect. rewrite Hd2.
    destruct (allMatched (deck s)); fields; rewrite ?andb_false_r, ?andb_true_r;
      repeat split; assumption. }
  case_bool_decide as Hb.
  - intros [= <-]. apply Hwin; assumption.
  - destruct (runEffect s1) as [s2|] eqn:H2; [|discriminate].
    intros [= <-]. apply runEffect_frame in H2.
    destruct H2 as (Hd2 & Hp2 & Hs2 & Hg2 & Hr2 & Hm2 & _).
    apply Hwin; try congruence.
    rewrite Hm2. unfold counted at 1. rewrite Hd.
    destruct (decide (pairKey (deck s) = "")) as [Hk|Hk]; [exact Hm|].
    rewrite decide_True by (apply Hl; exact Hk). exact Hm.
Qed.

(** *** What each event does in a state that satisfies [Inv] *)

Lemma fresh_not_allMatched (d : list CardItem) :
  Forall (fun c => matched c = false /\ flipped c = false) d -> allMatched d = false.
Proof.
  intros H. unfold allMatched. destruct d as [|c d]; [reflexivity|].
  apply Forall_cons in H. destruct H as [[Hm _] _]. simpl. rewrite Hm. reflexivity.
Qed.

Lemma render_reset_cases (np : option nat) (s s' : State) :
  render (reset np s) = Some s' ->
  deck s' = (makeDeckFor (default (pairs s) np) (gen s)).1 /\
  pairs s' = pairs s /\ moves s' = 0%nat /\ seconds s' = 0%nat /\ running s' = true.
Proof.
  intros Hr. apply render_frame in Hr.
  destruct Hr as (Hd & Hp & Hs & _ & Hrun & Hm).
  destruct (reset_fields np s) as (_ & Hpend & _).
  pose proof (makeDeckFor_fresh (default (pairs s) np) (gen s)) as Hfresh.
  unfold counted in Hm. rewrite pairKey_lt_two in Hm by (rewrite Hpend; simpl; lia).
  rewrite decide_True in Hm by reflexivity.
  unfold reset in *. destruct (makeDeckFor _ (gen s)) as [d g]. simpl in *.
  rewrite (fresh_not_allMatched d Hfresh) in Hrun.
  repeat split; assumption.
Qed.

Lemma flip_cases (cid : nat) (s s' : State) :
  Inv s -> step (Flip cid) s = Some s' ->
  s' = s \/
  exists card,
    In card (deck s) /\ id card = cid /\ flipped card = false /\ matched card = false /\
    running s = true /\ busy s = false /\
    deck s' = map (fun c => if (id c =? cid)%nat then flip c else c) (deck s) /\
    pairs s' = pairs s /\ seconds s' = seconds s /\
    running s' = negb (allMatched (deck s')) /\
    ((List.filter pending (deck s) = [] /\ List.filter pending (deck s') = [flip card] /\
      moves s' = moves s /\ busy s' = false) \/
     (exists other, List.filter pending (deck s) = [other] /\
        length (List.filter pending (deck s')) = 2%nat /\
        moves s' = (moves s + 1)%nat /\ busy s' = true)).
Proof.
  intros HI. simpl.
  destruct (handleFlip_cases cid s) as [->|(card & Hbr & Hb & Hrun & Hin & Hid & Hf & Hm & Hh)].
  { rewrite decide_True by reflexivity. intros [= <-]. left. reflexivity. }
  destruct HI as (Hnd & Hbb & Hmatch).
  destruct (flip_in_deck (deck s) card Hnd Hin Hf Hm) as (Hids & l1 & l2 & Hold & Hnew).
  simpl in Hh. rewrite Hh. clear Hh. subst cid.
  set (next := map (fun c => if (id c =? id card)%nat then flip c else c) (deck s)) in *.
  assert (Hne : next <> deck s).
  { intros E. rewrite E, Hold in Hnew. apply (f_equal length) in Hnew.
    rewrite !length_app in Hnew. simpl in Hnew. lia. }
  assert (Hfacts : (length (l1 ++ l2) < 2)%nat /\ timerRef s = None /\ lastPairRef s = None).
  { rewrite Hold in Hmatch.
    destruct (l1 ++ l2) as [|a [|b [|c l]]]; simpl.
    - destruct Hmatch as (_ & ? & ?). repeat split; auto.
    - destruct Hmatch as (_ & ? & ?). repeat split; auto.
    - destruct Hmatch as (? & _). congruence.
    - contradiction. }
  destruct Hfacts as (Hlen & Ht & Hl). rewrite length_app in Hlen.
  intros Hstep. right. exists card.
  do 6 (split; [first [assumption|reflexivity]|]).
  destruct l1 as [|x1 [|x2 l1]]; destruct l2 as [|y1 [|y2 l2]];
    simpl in Hlen; try lia; rewrite Hnew in Hstep; simpl in Hstep;
    rewrite decide_False in Hstep by (simpl; exact Hne).
  - destruct (render_lt_two (set_deck next s)) as (s0 & Hr & _ & Hb' & _);
      [simpl; congruence|simpl; rewrite Hnew; simpl; lia|].
    assert (s0 = s') by congruence. subst s0.
    apply render_frame in Hr. simpl in Hr.
    destruct Hr as (Hd & Hp & Hs & _ & Hrn & Hmv).
    unfold counted in Hmv. simpl in Hmv.
    rewrite pairKey_lt_two in Hmv by (rewrite Hnew; simpl; lia).
    rewrite decide_True in Hmv by reflexivity.
    rewrite Hd, Hrn, Hrun. repeat split; try assumption.
    left. rewrite Hnew. simpl in Hold. repeat split; assumption.
  - destruct (render_two (setBusyState true (set_deck next s)) (flip card) y1)
      as (s0 & Hr & _ & Hb' & _); simpl; auto; [congruence|].
    assert (s0 = s') by congruence. subst s0.
    apply render_frame in Hr. simpl in Hr.
    destruct Hr as (Hd & Hp & Hs & _ & Hrn & Hmv).
    unfold counted in Hmv. simpl in Hmv.
    rewrite decide_False in Hmv by (apply (pairKey_two_nonempty _ _ _ Hnew)).
    rewrite decide_False in Hmv by (rewrite Hl; discriminate).
    rewrite Hd, Hrn, Hrun. repeat split; try assumption.
    right. exists y1. rewrite Hnew. simpl in Hold. repeat split; assumption.
  - destruct (render_two (setBusyState true (set_deck next s)) x1 (flip card))
      as (s0 & Hr & _ & Hb' & _); simpl; auto; [congruence|].
    assert (s0 = s') by congruence. subst s0.
    apply render_frame in Hr. simpl in Hr.
    destruct Hr as (Hd & Hp & Hs & _ & Hrn & Hmv).
    unfold counted in Hmv. simpl in Hmv.
    rewrite decide_False in Hmv by (apply (pairKey_two_nonempty _ _ _ Hnew)).
    rewrite decide_False in Hmv by (rewrite Hl; discriminate).
    rewrite Hd, Hrn, Hrun. repeat split; try assumption.
    right. exists x1. rewrite Hnew. simpl in Hold. repeat split; assumption.
Qed.

Lemma timer_cases (s s' : State) :
  Inv s -> step TimerFires s = Some s' ->
  (timerRef s = None /\ s' = s) \/
  exists a b, List.filter pending (deck s) = [a; b] /\
    deck s' = map (resolved a b) (deck s) /\
    pairs s' = pairs s /\ seconds s' = seconds s /\
    running s' = running s && negb (allMatched (deck s')) /\
    moves s' = moves s /\ busy s' = false.
Proof.
  intros HI. simpl.
  destruct (timerRef s) as [t|] eqn:Ht; [|intros [= <-]; left; split; reflexivity].
  destruct HI as (Hnd & Hbb & Hmatch).
  destruct (List.filter pending (deck s)) as [|a [|b [|c l]]] eqn:Hp;
    try (destruct Hmatch as (_ & Hnone & _); congruence); [|contradiction].
  destruct Hmatch as (_ & _ & Hexp). rewrite Ht in Hexp. injection Hexp as ->.
  intros Hstep. right. exists a, b. split; [reflexivity|].
  destruct (render_lt_two (timerFire (expectedTimer a b) s)) as (s0 & Hr & _ & Hb' & _).
  - reflexivity.
  - simpl. rewrite resolve_expected, (resolved_not_pending a b _ Hp). simpl. lia.
  - assert (s0 = s') by congruence. subst s0.
    apply render_frame in Hr. simpl in Hr. rewrite resolve_expected in Hr.
    destruct Hr as (Hd & Hpr & Hs & _ & Hrn & Hmv).
    unfold counted in Hmv. simpl in Hmv. rewrite resolve_expected in Hmv.
    rewrite pairKey_lt_two in Hmv
      by (rewrite (resolved_not_pending a b _ Hp); simpl; lia).
    rewrite decide_True in Hmv by reflexivity.
    rewrite Hd. repeat split; assumption.
Qed.

(** *** The cards on the table *)

Lemma makeDeckFor_length (n : nat) (g : rng) :
  length (makeDeckFor n g).1 = (2 * n)%nat.
Proof.
  pose proof (makeDeckFor_values n g) as Hv. apply Permutation_length in Hv.
  rewrite length_map, length_app, !length_map, length_seq in Hv. lia.
Qed.

Lemma render_reset_table (s s' : State) :
  render (reset None s) = Some s' -> tableInv s'.
Proof.
  intros Hr. apply render_reset_cases in Hr. simpl in Hr.
  destruct Hr as (Hd & Hp & _ & _ & Hrun).
  pose proof (makeDeckFor_fresh (pairs s) (gen s)) as Hfresh.
  unfold tableInv. rewrite Hd, Hp, Hrun. split.
  - rewrite makeDeckFor_ids, makeDeckFor_length. reflexivity.
  - split; [apply makeDeckFor_values|].
    split; [rewrite (fresh_not_allMatched _ Hfresh); reflexivity|].
    eapply Forall_impl; [exact Hfresh|]. intros c [Hm _]. congruence.
Qed.

Lemma allMatched_map (f : CardItem -> CardItem) (d : list CardItem) :
  (forall c, In c d -> matched (f c) = matched c) ->
  allMatched (map f d) = allMatched d.
Proof.
  intros H. unfold allMatched. rewrite length_map. f_equal.
  induction d as [|c d IH]; [reflexivity|]. simpl.
  rewrite (H c) by (left; reflexivity). f_equal.
  apply IH. intros c' Hc'. apply H. right. exact Hc'.
Qed.

Lemma resolved_value (a b c : CardItem) : value (resolved a b c) = value c.
Proof.
  unfold resolved. case_decide; [|reflexivity].
  destruct (value a =? value b)%nat; reflexivity.
Qed.

(** The two pending cards are the only ones the timer touches. *)
Lemma resolved_other (d : list CardItem) (a b c : CardItem) :
  NoDup (map id d) -> List.filter pending d = [a; b] -> In c d ->
  pending c = false -> resolved a b c = c.
Proof.
  intros Hnd Hp Hc Hpc. unfold resolved. case_decide as Hid; [|reflexivity].
  assert (Ha : In a d /\ pending a = true).
  { apply filter_In. rewrite Hp. left. reflexivity. }
  assert (Hb : In b d /\ pending b = true).
  { apply filter_In. rewrite Hp. right. left. reflexivity. }
  exfalso. destruct Hid as [E|E].
  - apply (NoDup_id_inj d c a Hnd Hc (proj1 Ha)) in E. subst c.
    destruct Ha as [_ Ha]. congruence.
  - apply (NoDup_id_inj d c b Hnd Hc (proj1 Hb)) in E. subst c.
    destruct Hb as [_ Hb]. congruence.
Qed.

Lemma step_tableInv (e : Event) (s s' : State) :
  Inv s -> tableInv s -> step e s = Some s' -> tableInv s'.
Proof.
  intros HI (Hids & Hvals & Hrun & Hmf) Hstep. destruct e as [cid| | |n|].
  - destruct (flip_cases cid s s' HI Hstep)
      as [->|(card & Hin & Hid & Hf & Hm & Hr & Hb & Hd & Hp & Hs & Hrn & _)].
    { exact (conj Hids (conj Hvals (conj Hrun Hmf))). }
    unfold tableInv. rewrite Hp. split; [|split; [|split; [exact Hrn|]]].
    + rewrite Hd, map_map. rewrite <- Hids. apply map_ext.
      intros c. destruct (id c =? cid)%nat; reflexivity.
    + rewrite Hd, map_map.
      rewrite (map_ext _ value); [exact Hvals|].
      intros c. destruct (id c =? cid)%nat; reflexivity.
    + rewrite Hd. apply Forall_map. eapply Forall_impl; [exact Hmf|].
      intros c Hc. simpl. destruct (id c =? cid)%nat; [reflexivity|exact Hc].
  - destruct (timer_cases s s' HI Hstep)
      as [[_ ->]|(a & b & Hpend & Hd & Hp & Hs & Hrn & _)].
    { exact (conj Hids (conj Hvals (conj Hrun Hmf))). }
    pose proof HI as (Hnd & _).
    unfold tableInv. rewrite Hp. split; [|split; [|split]].
    + rewrite Hd, map_map. rewrite <- Hids. apply map_ext. intros c. apply resolved_id.
    + rewrite Hd, map_map.
      rewrite (map_ext _ value); [exact Hvals|]. intros c. apply resolved_value.
    + rewrite Hrn. destruct (running s) eqn:Hr; [reflexivity|].
      exfalso. symmetry in Hrun. apply negb_false_iff in Hrun.
      unfold allMatched in Hrun. apply andb_true_iff in Hrun. destruct Hrun as [_ Hall].
      rewrite forallb_forall in Hall.
      assert (Ha : In a (deck s) /\ pending a = true).
      { apply filter_In. rewrite Hpend. left. reflexivity. }
      destruct Ha as [Ha Hpa]. unfold pending in Hpa.
      rewrite (Hall a Ha) in Hpa. rewrite andb_false_r in Hpa. discriminate.
    + rewrite Hd. apply Forall_map. rewrite Forall_forall in Hmf |- *.
      intros c Hc. apply list_elem_of_In in Hc.
      destruct (pending c) eqn:Hpc.
      * unfold pending in Hpc. apply andb_true_iff in Hpc. destruct Hpc as [Hfc Hmc].
        apply negb_true_iff in Hmc. unfold resolved. case_decide; simpl.
        -- destruct (value a =? value b)%nat; simpl; congruence.
        -- congruence.
      * rewrite (resolved_other (deck s) a b c Hnd Hpend Hc Hpc).
        apply Hmf. apply list_elem_of_In. exact Hc.
  - simpl in Hstep. apply (render_reset_table s). exact Hstep.
  - simpl in Hstep.
    destruct (render (reset (Some n) (set_pairs n s))) as [s1|]; [|discriminate].
    apply (render_reset_table s1). exact Hstep.
  - simpl in Hstep. injection Hstep as <-.
    assert (Hsec : forall n, tableInv (set_seconds n s))
      by (intros n; exact (conj Hids (conj Hvals (conj Hrun Hmf)))).
    assert (Hsame : tableInv s) by exact (conj Hids (conj Hvals (conj Hrun Hmf))).
    destruct (running s); [apply Hsec|exact Hsame].
Qed.

Lemma mount_table (g : rng) (s : State) : mount g = Some s -> tableInv s.
Proof. unfold mount. apply render_reset_table. Qed.

Lemma reachable_tableInv (s : State) : reachable s -> tableInv s.
Proof.
  induction 1 as [g s Hm|e s s' Hr IH Hs].
  - exact (mount_table g s Hm).
  - apply (step_tableInv e s s'); [apply reachable_Inv; exact Hr|exact IH|exact Hs].
Qed.

Lemma cards_demo_one_reachable : reachable demo_one.
Proof.
  apply (reachable_step (Flip 1) demo_mounted); [|vm_compute; reflexivity].
  apply (reachable_mount demo_rng). vm_compute. reflexivity.
Defined.



(** X8. The cards on the table never change their identity: in every
    reachable state the deck has two cards for each of the [pairs s]
    values, the ids are [1 .. 2 * pairs s] in the order of the deck, and
    every value from [1] to [pairs s] is on exactly two cards. *)
Theorem deck_shape_kept (s : State) :
  reachable s ->
  length (deck s) = (2 * pairs s)%nat /\
  map id (deck s) = seq 1 (2 * pairs s) /\
  map value (deck s) ≡ₚ base (pairs s) ++ base (pairs s) /\
  forall v, (1 <= v <= pairs s)%nat ->
    count_occ Nat.eq_dec (map value (deck s)) v = 2%nat.
Proof.
  intros Hr. destruct (reachable_tableInv s Hr) as (Hids & Hvals & _).
  split; [|split; [exact Hids|split; [exact Hvals|]]].
  - apply (f_equal length) in Hids. rewrite length_map, length_seq in Hids. exact Hids.
  - intros v Hv.
    rewrite (Permutation_count_occ Nat.eq_dec) in Hvals. rewrite Hvals.
    rewrite count_occ_app. unfold base. rewrite count_occ_base by exact Hv. reflexivity.
Qed.

Lemma deck_shape_kept_witness :
  length (deck demo_two) = 16%nat /\ map id (deck demo_two) = seq 1 16 /\
  count_occ Nat.eq_dec (map value (deck demo_two)) 8%nat = 2%nat.
Proof.
  destruct (deck_shape_kept demo_two cards_demo_reachable) as (H1 & H2 & _ & H4).
  split; [exact H1|]. split; [exact H2|].
  apply H4. change (pairs demo_two) with 8%nat. lia.
Defined.

(** X9. A matched card is final: in every reachable state every matched
    card lies face up, and no flip, timer or clock event changes a
    matched card; only a new game does. *)
Theorem matched_is_final (s : State) :
  reachable s ->
  Forall (fun c => matched c = true -> flipped c = true) (deck s) /\
  forall e s' c,
    (e = SecondTick \/ e = TimerFires \/ exists cid, e = Flip cid) ->
    step e s = Some s' -> In c (deck s) -> matched c = true -> In c (deck s').
Proof.
  intros Hr. pose proof (reachable_Inv s Hr) as HI.
  destruct (reachable_tableInv s Hr) as (_ & _ & _ & Hmf).
  split; [exact Hmf|].
  intros e s' c He Hstep Hc Hm. pose proof HI as (Hnd & _).
  destruct He as [->|[->|[cid ->]]].
  - simpl in Hstep. injection Hstep as <-. destruct (running s); exact Hc.
  - destruct (timer_cases s s' HI Hstep) as [[_ ->]|(a & b & Hpend & Hd & _)]; [exact Hc|].
    rewrite Hd. apply in_map_iff. exists c. split; [|exact Hc].
    apply (resolved_other (deck s) a b c Hnd Hpend Hc).
    unfold pending. rewrite Hm. apply andb_false_r.
  - destruct (flip_cases cid s s' HI Hstep)
      as [->|(card & Hin & Hid & _ & Hmc & _ & _ & Hd & _)]; [exact Hc|].
    rewrite Hd. apply in_map_iff. exists c. split; [|exact Hc].
    destruct (Nat.eqb_spec (id c) cid) as [E|]; [|reflexivity].
    exfalso. rewrite <- Hid in E.
    apply (NoDup_id_inj (deck s) c card Hnd Hc Hin) in E. congruence.
Qed.

Lemma matched_is_final_witness :
  Forall (fun c => matched c = true -> flipped c = true) (deck demo_two).
Proof. exact (proj1 (matched_is_final demo_two cards_demo_reachable)). Defined.

(** X10. The game runs exactly until the last pair is found: in every
    reachable state [running] is the negation of [allMatched], and once
    every card is matched flips, the timer and the clock leave the state
    as it is (the seconds stop), until a new game is started. *)
Theorem won_game_is_frozen (s : State) :
  reachable s ->
  running s = negb (allMatched (deck s)) /\
  (allMatched (deck s) = true ->
   forall e, (e = SecondTick \/ e = TimerFires \/ exists cid, e = Flip cid) ->
     step e s = Some s).
Proof.
  intros Hr. pose proof (reachable_Inv s Hr) as (_ & _ & Hmatch).
  destruct (reachable_tableInv s Hr) as (_ & _ & Hrun & _).
  split; [exact Hrun|]. intros Hall e He.
  rewrite Hall in Hrun. simpl in Hrun.
  assert (Hnone : List.filter pending (deck s) = []).
  { apply filter_none. intros c Hc. unfold allMatched in Hall.
    apply andb_true_iff in Hall. destruct Hall as [_ Hall].
    rewrite forallb_forall in Hall. unfold pending. rewrite (Hall c Hc).
    apply andb_false_r. }
  rewrite Hnone in Hmatch. destruct Hmatch as (_ & Ht & _).
  destruct He as [->|[->|[cid ->]]]; simpl.
  - rewrite Hrun. reflexivity.
  - rewrite Ht. reflexivity.
  - assert (handleFlip cid s = s) as ->.
    { unfold handleFlip. rewrite Hrun. simpl. rewrite !orb_true_r. reflexivity. }
    rewrite decide_True by reflexivity. reflexivity.
Qed.

Lemma won_game_is_frozen_witness :
  running demo_two = negb (allMatched (deck demo_two)).
Proof. exact (proj1 (won_game_is_frozen demo_two cards_demo_reachable)). Defined.

(** X11. The move counter counts completed pairs of flips: a flip adds one
    move exactly when it turns up the second card of a pair, the timer
    and the clock leave the counter alone, and a new game sets it to 0. *)
Theorem moves_count_pairs (e : Event) (s s' : State) :
  reachable s -> step e s = Some s' ->
  match e with
  | Flip _ =>
      moves s' =
        if decide (length (List.filter pending (deck s)) = 1%nat /\
                   length (List.filter pending (deck s')) = 2%nat)
        then (moves s + 1)%nat else moves s
  | TimerFires | SecondTick => moves s' = moves s
  | Restart | ChangePairs _ => moves s' = 0%nat
  end.
Proof.
  intros Hr Hstep. pose proof (reachable_Inv s Hr) as HI.
  destruct e as [cid| | |n|].
  - destruct (flip_cases cid s s' HI Hstep)
      as [->|(card & _ & _ & _ & _ & _ & _ & _ & _ & _ & _ & Hcase)].
    + rewrite decide_False by lia. reflexivity.
    + destruct Hcase as [(H0 & H1 & Hm & _)|(other & H0 & H1 & Hm & _)].
      * rewrite decide_False by (rewrite H0; simpl; lia). exact Hm.
      * rewrite decide_True by (rewrite H0, H1; split; reflexivity). exact Hm.
  - destruct (timer_cases s s' HI Hstep) as [[_ ->]|(a & b & _ & _ & _ & _ & _ & Hm & _)];
      [reflexivity|exact Hm].
  - simpl in Hstep. apply render_reset_cases in Hstep. apply Hstep.
  - simpl in Hstep.
    destruct (render (reset (Some n) (set_pairs n s))) as [s1|]; [|discriminate].
    apply render_reset_cases in Hstep. apply Hstep.
  - simpl in Hstep. injection Hstep as <-. destruct (running s); reflexivity.
Qed.

Lemma moves_count_pairs_witness :
  moves demo_one = 0%nat /\ moves demo_two = 1%nat.
Proof.
  split; [reflexivity|].
  exact (moves_count_pairs (Flip 4) demo_one demo_two cards_demo_one_reachable eq_refl).
Defined.

End CardsPlay.

(** ** Cards: the number of columns *)

Module CardsViewFacts.
Import CardsView.

Lemma consider_fst (totalCards : Z) (acc : Z * option Z) (c : Z) :
  fst (consider totalCards acc c) = c \/ fst (consider totalCards acc c) = fst acc.
Proof.
  unfold consider. destruct acc as [best [b|]]; [|left; reflexivity].
  destruct (_ <? b); [left|right]; reflexivity.
Qed.

Lemma foldl_consider_in (totalCards : Z) (l : list Z) (acc : Z * option Z) :
  fst (foldl (consider totalCards) acc l) = fst acc \/
  In (fst (foldl (consider totalCards) acc l)) l.
Proof.
  revert acc. induction l as [|c l IH]; intros acc; [left; reflexivity|].
  cbn [foldl]. destruct (IH (consider totalCards acc c)) as [E|Hin].
  - rewrite E. destruct (consider_fst totalCards acc c) as [-> | ->].
    + right. left. reflexivity.
    + left. reflexivity.
  - right. right. exact Hin.
Qed.

(** X12. [getColumns] answers 3 below 640 pixels, and otherwise a number
    from 4 to 5 (below 1024 pixels) or from 4 to 6.  For up to 1000 cards
    it prefers divisors: when some admissible number of columns divides
    the number of cards, so does the answer.  For the four difficulties
    of the selector the answer on a wide screen is always 4.  The
    preference for divisors is not unconditional: with 1204 cards on a
    desktop the answer is 6, although 4 divides 1204 and 6 does not. *)
Theorem getColumns_spec (totalCards vw : Z) :
  (vw < 640 -> getColumns totalCards vw = 3) /\
  (640 <= vw -> 4 <= getColumns totalCards vw <= (if vw <? 1024 then 5 else 6)) /\
  (640 <= vw -> 0 <= totalCards <= 1000 ->
   forall c, 4 <= c <= (if vw <? 1024 then 5 else 6) -> Z.rem totalCards c = 0 ->
     Z.rem totalCards (getColumns totalCards vw) = 0) /\
  (640 <= vw -> forall p, In p offeredPairs -> getColumns (p * 2) vw = 4) /\
  (getColumns 1204 1024 = 6 /\ Z.rem 1204 4 = 0 /\ Z.rem 1204 6 = 4).
Proof.
  split; [|split; [|split; [|split]]].
  - intros Hvw. unfold getColumns.
    destruct (Z.ltb_spec vw 640); [reflexivity|lia].
  - intros Hvw. unfold getColumns.
    destruct (Z.ltb_spec vw 640); [lia|].
    set (hi := if vw <? 1024 then 5 else 6).
    assert (Hhi : hi = 5 \/ hi = 6) by (unfold hi; destruct (vw <? 1024); auto).
    destruct (foldl_consider_in totalCards
                (map (fun k => 4 + Z.of_nat k) (seq 0 (Z.to_nat (hi - 4 + 1)))) (4, None))
      as [E|Hin].
    + rewrite E. simpl. lia.
    + apply in_map_iff in Hin. destruct Hin as (k & <- & Hk).
      apply in_seq in Hk. lia.
  - intros Hvw Ht c Hc Hdiv. unfold getColumns.
    destruct (Z.ltb_spec vw 640); [lia|].
    assert (Hall : forallb (fun t =>
              let t := Z.of_nat t in
              forallb (fun wide : bool =>
                let vw := if wide then 1024 else 640 in
                let hi := if wide then 6 else 5 in
                implb (existsb (fun c => Z.rem t c =? 0)
                         (List.filter (fun c => c <=? hi) [4; 5; 6]))
                      (Z.rem t (getColumns t vw) =? 0)) [true; false])
            (seq 0 1001) = true) by (vm_compute; reflexivity).
    rewrite forallb_forall in Hall. specialize (Hall (Z.to_nat totalCards)).
    rewrite in_seq in Hall. specialize (Hall ltac:(lia)). cbv zeta in Hall.
    rewrite Z2Nat.id in Hall by lia. rewrite forallb_forall in Hall.
    destruct (Z.ltb_spec vw 1024) as [Hw|Hw].
    + specialize (Hall false ltac:(right; left; reflexivity)). cbv zeta in Hall.
      unfold getColumns in Hall. simpl (640 <? 640) in Hall. simpl (640 <? 1024) in Hall.
      cbv iota in Hall.
      rewrite implb_true_iff in Hall. apply Z.eqb_eq. apply Hall.
      apply existsb_exists. exists c. split; [|apply Z.eqb_eq; exact Hdiv].
      assert (c = 4 \/ c = 5) as [-> | ->] by lia; simpl; auto.
    + specialize (Hall true ltac:(left; reflexivity)). cbv zeta in Hall.
      unfold getColumns in Hall. simpl (1024 <? 640) in Hall. simpl (1024 <? 1024) in Hall.
      cbv iota in Hall.
      rewrite implb_true_iff in Hall. apply Z.eqb_eq. apply Hall.
      apply existsb_exists. exists c. split; [|apply Z.eqb_eq; exact Hdiv].
      assert (c = 4 \/ c = 5 \/ c = 6) as [-> | [-> | ->]] by lia; simpl; auto.
  - intros Hvw p Hp. unfold getColumns.
    destruct (Z.ltb_spec vw 640); [lia|].
    simpl in Hp.
    destruct (vw <? 1024); destruct Hp as [<-|[<-|[<-|[<-|[]]]]]; vm_compute; reflexivity.
  - vm_compute. repeat split.
Qed.

End CardsViewFacts.


(** ** Snake: the board during play *)

Module SnakeBoard.
Import Rand RandFacts Snake SnakeFacts SnakeView.

(** Whatever [randomFood] returns is a cell of the board outside [used]. *)
Lemma randomFood_sound (fuel : nat) (used : gset string) (g g' : rng) (p : Point) :
  randomFood fuel used g = Some (p, g') -> inGrid p /\ key p ∉ used.
Proof.
  revert g. induction fuel as [|fuel IH]; intros g; [discriminate|].
  cbn [randomFood random]. case_decide as Hin.
  - apply IH.
  - intros [= <- <-]. split; [|exact Hin].
    split; apply floor_mul_range; reflexivity.
Qed.

Lemma contiguous_removelast (l : list Point) :
  contiguous l = true -> contiguous (removelast l) = true.
Proof.
  induction l as [|p [|q [|r l]] IH]; try reflexivity.
  intros H. change (removelast (p :: q :: r :: l)) with (p :: removelast (q :: r :: l)).
  change (removelast (q :: r :: l)) with (q :: removelast (r :: l)) in *.
  cbn [contiguous] in H |- *. apply andb_true_iff in H. destruct H as [H1 H2].
  rewrite H1. exact (IH H2).
Qed.

Lemma delta_unit (d : GameDir) : Z.abs (x (delta d)) + Z.abs (y (delta d)) = 1.
Proof. destruct d; reflexivity. Qed.

Lemma fresh_boardInv (st : GameStatus) (f : Point) (k : FoodKind) (c : Z) (g : rng) :
  inGrid f -> key f ∉ keySet initialSnake ->
  boardInv (mkState st right initialSnake f k 0 c g).
Proof.
  intros Hg Hk. split; [exact Hg|]. split.
  - rewrite <- keySet_spec. exact Hk.
  - repeat split; simpl; lia.
Qed.

Lemma reset_boardInv (fuel : nat) (s s' : State) :
  reset fuel s = Done s' ->
  boardInv s' /\ snake s' = initialSnake /\ score s' = 0 /\ dir s' = right /\
  status s' = idle.
Proof.
  unfold reset. destruct (randomFood _ _ _) as [[f g1]|] eqn:Hf; [|discriminate].
  destruct (randomFoodKind g1) as [k g2]. intros [= <-].
  apply randomFood_sound in Hf. destruct Hf as [Hg Hk].
  split; [apply fresh_boardInv; assumption|]. repeat split.
Qed.

(** Events other than the tick of the main loop leave the snake, the
    food, the score alone, or reset them. *)
Lemma step_other_board (fuel : nat) (e : Event) (s s' : State) :
  e <> Tick -> step fuel e s = Done s' ->
  (snake s' = snake s /\ food s' = food s /\ score s' = score s) \/
  ((e = ResetButton \/ e = AgainButton /\ status s = ended) /\
   boardInv s' /\ snake s' = initialSnake /\ score s' = 0 /\ dir s' = right).
Proof.
  intros He Hstep. destruct e; try contradiction; simpl in Hstep.
  - injection Hstep as <-. left. unfold onKeyDown, beginCountdown, togglePause, turn.
    destruct (status s), k; repeat case_decide; try (repeat split; reflexivity);
      destruct (status s); repeat split; reflexivity.
  - injection Hstep as <-. left. unfold handleTapDir, turn.
    repeat case_decide; repeat split; reflexivity.
  - injection Hstep as <-. left. unfold togglePause.
    destruct (status s); repeat split; reflexivity.
  - injection Hstep as <-. left. unfold mainButton.
    destruct (status s); repeat split; reflexivity.
  - case_decide; injection Hstep as <-; left; repeat split; reflexivity.
  - case_decide as Hst; [|injection Hstep as <-; left; repeat split; reflexivity].
    destruct (reset fuel s) as [s0| |] eqn:Hr; try discriminate.
    injection Hstep as <-. right.
    destruct (reset_boardInv fuel s s0 Hr) as (Hinv & Hsn & Hsc & Hd & _).
    split; [right; split; [reflexivity|exact Hst]|].
    split; [exact Hinv|]. split; [exact Hsn|]. split; [exact Hsc|exact Hd].
  - right. destruct (reset_boardInv fuel s s' Hstep) as (Hinv & Hsn & Hsc & Hd & _).
    split; [left; reflexivity|].
    split; [exact Hinv|]. split; [exact Hsn|]. split; [exact Hsc|exact Hd].
  - case_decide; injection Hstep as <-; left; [|repeat split; reflexivity].
    unfold countdownStep. destruct (1 <=? _); repeat split; reflexivity.
Qed.

Lemma tick_boardInv (fuel : nat) (s s' : State) :
  wellFormed (snake s) -> boardInv s -> tick fuel s = Done s' -> boardInv s'.
Proof.
  intros Hwf (Hfg & Hfn & Hsc & Hct & Hlen) Htick.
  pose proof Hwf as (Hne & Hnd & Hall).
  destruct (snake s) as [|hd rest] eqn:Hs; [contradiction|]. rewrite <- Hs in *.
  set (p := nextHead s hd).
  assert (Hadj : contiguous (p :: snake s) = true).
  { rewrite Hs.
    change (contiguous (p :: hd :: rest))
      with ((Z.abs (x p - x hd) + Z.abs (y p - y hd) =? 1) && contiguous (hd :: rest)).
    rewrite <- Hs, Hct, andb_true_r.
    apply Z.eqb_eq. unfold p, nextHead. cbn [x y].
    pose proof (delta_unit (dir s)) as Hd.
    replace (x hd + x (delta (dir s)) - x hd) with (x (delta (dir s))) by lia.
    replace (y hd + y (delta (dir s)) - y hd) with (y (delta (dir s))) by lia.
    exact Hd. }
  destruct (decide (0 <= x p < GRID /\ 0 <= y p < GRID)) as [Hg|Hg].
  - destruct (in_dec Point_eq_dec p (snake s)) as [Hin|Hnin].
    + rewrite (tick_ended fuel s hd rest Hs) in Htick by (right; exact Hin).
      injection Htick as <-. exact (conj Hfg (conj Hfn (conj Hsc (conj Hct Hlen)))).
    + rewrite (tick_free fuel s hd rest Hs Hg Hnin) in Htick. fold p in Htick.
      case_decide as Hfood.
      * destruct (randomFood _ _ _) as [[f g1]|] eqn:Hf; [|discriminate].
        injection Htick as <-. apply randomFood_sound in Hf. destruct Hf as [Hg' Hk].
        unfold boardInv. cbn [food snake score]. split; [exact Hg'|]. split.
        { rewrite <- keySet_spec. exact Hk. }
        split; [rewrite Hsc; cbn [length]; lia|].
        split; [exact Hadj|cbn [length]; lia].
      * assert (Hwf' : wellFormed (snake s)) by (repeat split; assumption).
        destruct (removelast_cons_wellFormed p (snake s) Hwf' Hnin Hg) as [_ Hl].
        pose proof (app_removelast_last p (l := p :: snake s) ltac:(discriminate)) as E.
        pose proof (contiguous_removelast _ Hadj) as Hadj'.
        set (l' := removelast (p :: snake s)) in *.
        injection Htick as <-. unfold boardInv, set_snake. cbn [food snake score].
        split; [exact Hfg|]. split.
        { intros Hin.
          assert (In (food s) (p :: snake s)) as [Hp|Hp].
          { rewrite E. apply in_or_app. left. exact Hin. }
          - apply Hfood. exact Hp.
          - exact (Hfn Hp). }
        split; [rewrite Hl; exact Hsc|].
        split; [exact Hadj'|rewrite Hl; exact Hlen].
  - rewrite (tick_ended fuel s hd rest Hs) in Htick.
    + injection Htick as <-. exact (conj Hfg (conj Hfn (conj Hsc (conj Hct Hlen)))).
    + left. fold p. unfold GRID in *. lia.
Qed.

Lemma reachable_boardInv (s : State) : reachable s -> boardInv s.
Proof.
  intros Hr. induction Hr as [fuel g s Hi|fuel e s s' Hr IH Hstep].
  - unfold initial in Hi. destruct (randomFood _ _ _) as [[f g1]|] eqn:Hf; [|discriminate].
    destruct (randomFoodKind g1) as [k g2]. injection Hi as <-.
    apply randomFood_sound in Hf. destruct Hf as [Hg Hk].
    apply fresh_boardInv; assumption.
  - assert (e = Tick \/ e <> Tick) as [->|He]
      by (destruct e; (left; reflexivity) || (right; discriminate)).
    + simpl in Hstep. case_decide; [|injection Hstep as <-; exact IH].
      apply (tick_boardInv fuel s s'); [apply reachable_wellFormed; exact Hr|exact IH|exact Hstep].
    + destruct (step_other_board fuel e s s' He Hstep) as [(Hsn & Hf & Hsc)|(_ & Hinv & _)];
        [|exact Hinv].
      destruct IH as (H1 & H2 & H3 & H4 & H5).
      unfold boardInv. rewrite Hsn, Hf, Hsc. exact (conj H1 (conj H2 (conj H3 (conj H4 H5)))).
Qed.

(** X1. In every reachable state the food lies on the board and on no
    cell of the snake. *)
Theorem food_off_snake (s : State) :
  reachable s -> inGrid (food s) /\ ~ In (food s) (snake s).
Proof.
  intros Hr. destruct (reachable_boardInv s Hr) as (H1 & H2 & _). split; assumption.
Qed.

Lemma food_off_snake_witness :
  inGrid (food demo_running) /\ ~ In (food demo_running) (snake demo_running).
Proof. exact (food_off_snake demo_running snake_demo_reachable). Defined.

(** X2. In every reachable state the snake has at least three cells,
    consecutive cells are neighbours on the board, and the score is ten
    times the number of cells beyond the first three. *)
Theorem score_counts_growth (s : State) :
  reachable s ->
  (3 <= length (snake s))%nat /\ contiguous (snake s) = true /\
  score s = 10 * (Z.of_nat (length (snake s)) - 3).
Proof.
  intros Hr. destruct (reachable_boardInv s Hr) as (_ & _ & H3 & H4 & H5).
  repeat split; assumption.
Qed.

Lemma score_counts_growth_witness :
  (3 <= length (snake demo_running))%nat /\ contiguous (snake demo_running) = true /\
  score demo_running = 10 * (Z.of_nat (length (snake demo_running)) - 3).
Proof. exact (score_counts_growth demo_running snake_demo_reachable). Defined.

(** X3. A countdown lasts exactly three callbacks of its interval: after
    [beginCountdown] the first two leave the game in the countdown, at 2
    and at 1, and the third starts the run; the snake, the food, the
    direction and the score are the ones from before.  Meanwhile keys,
    taps on the direction pad and the pause and main buttons do nothing. *)
Theorem countdown_three_steps (fuel : nat) (s : State) :
  let s0 := beginCountdown s in
  let s1 := countdownStep s0 in
  let s2 := countdownStep s1 in
  let s3 := countdownStep s2 in
  step fuel CountdownTick s0 = Done s1 /\
  step fuel CountdownTick s1 = Done s2 /\
  step fuel CountdownTick s2 = Done s3 /\
  (status s1, countdownLeft s1) = (countdown, 2) /\
  (status s2, countdownLeft s2) = (countdown, 1) /\
  s3 = mkState running (dir s) (snake s) (food s) (foodKind s) (score s) 0 (gen s) /\
  forall c k d e,
    In c [s0; s1; s2] ->
    In e [KeyDown k; TapDir d; PauseButton; MainButton; StartButton; Tick] ->
    step fuel e c = Done c.
Proof.
  destruct s as [st d0 sn f fk sc cl g]. cbv zeta.
  repeat split.
  intros c k d e Hc He.
  assert (Hst : status c = countdown).
  { simpl in Hc. destruct Hc as [<-|[<-|[<-|[]]]]; reflexivity. }
  simpl in He.
  destruct He as [<-|[<-|[<-|[<-|[<-|[<-|[]]]]]]]; simpl.
  - unfold onKeyDown. rewrite Hst. reflexivity.
  - unfold handleTapDir. rewrite Hst. reflexivity.
  - unfold togglePause. rewrite Hst. reflexivity.
  - unfold mainButton. rewrite Hst. reflexivity.
  - rewrite Hst. reflexivity.
  - rewrite Hst. reflexivity.
Qed.

(** X4. The guard against reversing refuses the key opposite to the
    current direction, but it compares with the direction last set, not
    with the one last moved in: while the snake moves along [dir s], a
    key for a perpendicular direction followed by the key for the
    opposite one, both before the next tick, turn the snake around, and
    that tick ends the game on the cell behind the head. *)
Theorem two_keys_reverse (fuel : nat) (s : State) (hd neck : Point)
    (rest : list Point) (d : GameDir) :
  status s = running ->
  snake s = hd :: neck :: rest ->
  neck = mkPoint (x hd - x (delta (dir s))) (y hd - y (delta (dir s))) ->
  d <> dir s -> d <> opposite (dir s) ->
  let back := opposite (dir s) in
  step fuel (KeyDown (KeyDir back)) s = Done s /\
  exists s1 s2 s3,
    step fuel (KeyDown (KeyDir d)) s = Done s1 /\
    step fuel (KeyDown (KeyDir back)) s1 = Done s2 /\
    dir s2 = back /\
    step fuel Tick s2 = Done s3 /\
    status s3 = ended /\ snake s3 = snake s.
Proof.
  intros Hst Hs Hneck Hd1 Hd2 back. split.
  - simpl. unfold onKeyDown. rewrite Hst. rewrite decide_True by reflexivity.
    unfold turn. rewrite decide_True; [reflexivity|].
    subst back. destruct (dir s); reflexivity.
  - set (s1 := set_dir d s). set (s2 := set_dir back s1).
    exists s1, s2, (set_status ended s2).
    assert (E1 : onKeyDown (KeyDir d) s = s1).
    { unfold onKeyDown. rewrite Hst. rewrite decide_True by reflexivity.
      unfold turn. rewrite decide_False; [reflexivity|].
      intros E. apply Hd2. rewrite E. destruct d; reflexivity. }
    assert (E2 : onKeyDown (KeyDir back) s1 = s2).
    { unfold onKeyDown. change (status s1) with (status s). rewrite Hst.
      rewrite decide_True by reflexivity.
      unfold turn. change (dir s1) with d. rewrite decide_False; [reflexivity|].
      intros E. apply Hd1. rewrite E. subst back.
      destruct (dir s); reflexivity. }
    split; [simpl; rewrite E1; reflexivity|].
    split; [simpl; rewrite E2; reflexivity|].
    split; [reflexivity|].
    split; [|split; reflexivity].
    simpl. change (status s2) with (status s). rewrite decide_True by exact Hst.
    apply (tick_ended fuel s2 hd (neck :: rest)); [exact Hs|].
    right. change (snake s2) with (snake s). rewrite Hs. right. left.
    rewrite Hneck. unfold nextHead. change (dir s2) with back. subst back.
    destruct hd as [hx hy]. destruct (dir s); simpl; f_equal; lia.
Qed.

Lemma two_keys_reverse_witness :
  status demo_running = running /\
  exists s1 s2 s3,
    step 0 (KeyDown (KeyDir up)) demo_running = Done s1 /\
    step 0 (KeyDown (KeyDir left)) s1 = Done s2 /\
    dir s2 = left /\
    step 0 Tick s2 = Done s3 /\
    status s3 = ended /\ snake s3 = snake demo_running.
Proof.
  split; [reflexivity|].
  apply (two_keys_reverse 0 demo_running (mkPoint 3 3) (mkPoint 2 3) [mkPoint 1 3] up).
  - reflexivity.
  - reflexivity.
  - reflexivity.
  - discriminate.
  - discriminate.
Defined.

(** X5. Outside a run nothing moves: when the status is not [running],
    an event either leaves the snake, the food, the score and the
    direction as they are, or it is the reset button (or the button of
    the game-over card) and puts the initial snake, score 0 and
    direction right. *)
Theorem board_frozen_unless_running (fuel : nat) (e : Event) (s s' : State) :
  status s <> running -> step fuel e s = Done s' ->
  (snake s' = snake s /\ food s' = food s /\ score s' = score s /\ dir s' = dir s) \/
  ((e = ResetButton \/ e = AgainButton /\ status s = ended) /\
   snake s' = initialSnake /\ score s' = 0 /\ dir s' = right).
Proof.
  intros Hst Hstep. destruct e; simpl in Hstep.
  - rewrite decide_False in Hstep by exact Hst.
    injection Hstep as <-. left. repeat split.
  - injection Hstep as <-. left. unfold onKeyDown, beginCountdown, togglePause.
    destruct (status s) eqn:E, k; try contradiction;
      rewrite ?decide_False by discriminate; repeat split; reflexivity.
  - injection Hstep as <-. left. unfold handleTapDir.
    rewrite decide_False by exact Hst. repeat split.
  - injection Hstep as <-. left. unfold togglePause.
    destruct (status s); try contradiction; repeat split; reflexivity.
  - injection Hstep as <-. left. unfold mainButton.
    destruct (status s); try contradiction; repeat split; reflexivity.
  - case_decide; injection Hstep as <-; left; repeat split; reflexivity.
  - case_decide as Hend; [|injection Hstep as <-; left; repeat split; reflexivity].
    destruct (reset fuel s) as [s0| |] eqn:Hr; try discriminate.
    injection Hstep as <-. right.
    destruct (reset_boardInv fuel s s0 Hr) as (_ & Hsn & Hsc & Hd & _).
    split; [right; split; [reflexivity|exact Hend]|].
    split; [exact Hsn|]. split; [exact Hsc|exact Hd].
  - right. destruct (reset_boardInv fuel s s' Hstep) as (_ & Hsn & Hsc & Hd & _).
    split; [left; reflexivity|].
    split; [exact Hsn|]. split; [exact Hsc|exact Hd].
  - case_decide; injection Hstep as <-; left; [|repeat split; reflexivity].
    unfold countdownStep. destruct (1 <=? _); repeat split; reflexivity.
Qed.

Lemma board_frozen_unless_running_witness :
  let s := set_status paused demo_running in
  status s <> running /\
  ((snake demo_running = snake s /\ food demo_running = food s /\
    score demo_running = score s /\ dir demo_running = dir s) \/
   ((PauseButton = ResetButton \/ PauseButton = AgainButton /\ status s = ended) /\
    snake demo_running = initialSnake /\ score demo_running = 0 /\
    dir demo_running = right)).
Proof.
  split; [discriminate|].
  apply (board_frozen_unless_running 0 PauseButton (set_status paused demo_running)).
  - discriminate.
  - reflexivity.
Defined.

End SnakeBoard.

(** ** Snake: the rendered grid *)

Module SnakeViewFacts.
Import Snake SnakeFacts SnakeView.

Lemma sset_snoc (l : list Point) (a : Point) :
  sset (l ++ [a]) = <[key a := length l]> (sset l).
Proof.
  unfold sset. rewrite imap_app, foldl_app. simpl. rewrite Nat.add_0_r. reflexivity.
Qed.

(** On a snake without repeated cells the map sends the key of a cell to
    its position. *)
Lemma sset_lookup (l : list Point) (p : Point) (i : nat) :
  NoDup l -> sset l !! key p = Some i <-> l !! i = Some p.
Proof.
  induction l as [|a l IH] using rev_ind; intros Hnd.
  - unfold sset. simpl. rewrite lookup_empty. split; discriminate.
  - apply NoDup_app in Hnd. destruct Hnd as (Hl & Hdisj & _).
    rewrite sset_snoc. destruct (decide (p = a)) as [->|Hne].
    + rewrite lookup_insert_eq. split.
      * intros [= <-]. rewrite lookup_app_r by lia. rewrite Nat.sub_diag. reflexivity.
      * intros Hi. f_equal.
        destruct (decide (i < length l)%nat) as [Hlt|Hge].
        -- rewrite lookup_app_l in Hi by exact Hlt.
           exfalso. apply (Hdisj a); [eapply list_elem_of_lookup_2; exact Hi|].
           apply list_elem_of_here.
        -- apply lookup_lt_Some in Hi. rewrite length_app in Hi. simpl in Hi. lia.
    + rewrite lookup_insert_ne by (intros E; apply key_inj in E; congruence).
      rewrite (IH Hl). split.
      * intros Hi. rewrite lookup_app_l by (eapply lookup_lt_Some; exact Hi). exact Hi.
      * intros Hi. destruct (decide (i < length l)%nat) as [Hlt|Hge].
        -- rewrite lookup_app_l in Hi by exact Hlt. exact Hi.
        -- rewrite lookup_app_r in Hi by lia.
           destruct (i - length l)%nat; simpl in Hi; [congruence|discriminate].
Qed.

Section Painting.
Variables (m : gmap string nat) (food : Point).
Implicit Types items : list (list CellKind).

Lemma paint_spec items (cy cx : nat) :
  Js.rect 18 18 items -> (cy < 18)%nat -> (cx < 18)%nat ->
  Js.mget items cy cx = Some empty ->
  Js.rect 18 18 (paint m food cy cx items) /\
  forall i j, Js.mget (paint m food cy cx items) i j =
    if decide (i = cy /\ j = cx) then Some (painted m food cx cy) else Js.mget items i j.
Proof.
  intros Hr Hy Hx Hcell. unfold paint, painted.
  set (items1 := if (Z.of_nat cx =? x food) && (Z.of_nat cy =? y food)
                 then Js.mset items cy cx foodCell else items).
  assert (Hr1 : Js.rect 18 18 items1).
  { unfold items1. destruct (_ && _); [apply JsFacts.rect_mset|]; exact Hr. }
  assert (H1 : forall i j, Js.mget items1 i j =
            if decide (i = cy /\ j = cx)
            then Some (if (Z.of_nat cx =? x food) && (Z.of_nat cy =? y food)
                       then foodCell else empty)
            else Js.mget items i j).
  { intros i j. unfold items1. destruct (_ && _).
    - apply (JsFacts.mget_mset 18 18); assumption.
    - case_decide as E; [|reflexivity]. destruct E as [-> ->]. exact Hcell. }
  destruct (m !! _) as [[|k]|].
  - split; [apply JsFacts.rect_mset; exact Hr1|]. intros i j.
    rewrite (JsFacts.mget_mset 18 18) by assumption.
    case_decide; [reflexivity|]. rewrite H1. rewrite decide_False by assumption. reflexivity.
  - split; [apply JsFacts.rect_mset; exact Hr1|]. intros i j.
    rewrite (JsFacts.mget_mset 18 18) by assumption.
    case_decide; [reflexivity|]. rewrite H1. rewrite decide_False by assumption. reflexivity.
  - split; [exact Hr1|exact H1].
Qed.

Lemma paint_row items (cy n : nat) :
  Js.rect 18 18 items -> (cy < 18)%nat -> (n <= 18)%nat ->
  (forall j, (j < 18)%nat -> Js.mget items cy j = Some empty) ->
  let items' := Js.for_loop n (fun cx items => paint m food cy cx items) items in
  Js.rect 18 18 items' /\
  forall i j, Js.mget items' i j =
    if decide (i = cy /\ (j < n)%nat) then Some (painted m food j cy) else Js.mget items i j.
Proof.
  intros Hr Hy Hn Hempty. induction n as [|n IH].
  - cbv zeta. rewrite JsFacts.for_loop_0. split; [exact Hr|]. intros i j.
    rewrite decide_False by lia. reflexivity.
  - cbv zeta. rewrite JsFacts.for_loop_S.
    destruct (IH ltac:(lia)) as [Hr' Hcells].
    set (items' := Js.for_loop n _ items) in *.
    destruct (paint_spec items' cy n Hr' Hy ltac:(lia)) as [Hr2 Hc2].
    { rewrite Hcells. rewrite decide_False by lia. apply Hempty. lia. }
    split; [exact Hr2|]. intros i j. rewrite Hc2, Hcells.
    repeat case_decide; try reflexivity; try lia.
    destruct_and?; subst; reflexivity.
Qed.

Lemma paint_rows (n : nat) :
  (n <= 18)%nat ->
  let items' :=
    Js.for_loop n (fun cy items =>
      Js.for_loop 18 (fun cx items => paint m food cy cx items) items)
      (replicate 18 (replicate 18 empty)) in
  Js.rect 18 18 items' /\
  forall i j, (i < 18)%nat -> (j < 18)%nat ->
    Js.mget items' i j = Some (if decide (i < n)%nat then painted m food j i else empty).
Proof.
  intros Hn. induction n as [|n IH].
  - cbv zeta. rewrite JsFacts.for_loop_0.
    split; [apply JsFacts.rect_replicate|]. intros i j Hi Hj.
    unfold Js.mget. rewrite lookup_replicate_2 by exact Hi.
    rewrite lookup_replicate_2 by exact Hj. reflexivity.
  - cbv zeta. rewrite JsFacts.for_loop_S.
    destruct (IH ltac:(lia)) as [Hr Hcells].
    set (items' := Js.for_loop n _ _) in *.
    destruct (paint_row items' n 18 Hr ltac:(lia) ltac:(lia)) as [Hr2 Hc2].
    { intros j Hj. rewrite Hcells by lia. rewrite decide_False by lia. reflexivity. }
    split; [exact Hr2|]. intros i j Hi Hj. rewrite Hc2.
    case_decide as E.
    + destruct E as [-> _]. rewrite decide_True by lia. reflexivity.
    + rewrite Hcells by assumption.
      repeat case_decide; try reflexivity; lia.
Qed.

End Painting.

Lemma painted_shown (l : list Point) (food : Point) (cx cy : nat) :
  NoDup l -> ~ In food l ->
  painted (sset l) food cx cy = shown l food (mkPoint (Z.of_nat cx) (Z.of_nat cy)).
Proof.
  intros Hnd Hfood. unfold painted, shown.
  set (p := mkPoint (Z.of_nat cx) (Z.of_nat cy)).
  assert (Hfp : (Z.of_nat cx =? x food) && (Z.of_nat cy =? y food) = bool_decide (p = food)).
  { destruct food as [fx fy]. unfold p. simpl.
    destruct (Z.eqb_spec (Z.of_nat cx) fx), (Z.eqb_spec (Z.of_nat cy) fy); simpl;
      symmetry; [apply bool_decide_eq_true_2|apply bool_decide_eq_false_2..]; congruence. }
  destruct (sset l !! key p) as [i|] eqn:E.
  - apply (sset_lookup l p i Hnd) in E.
    destruct l as [|h t]; [discriminate|]. destruct i as [|i]; simpl in E.
    + injection E as ->. rewrite decide_True by reflexivity. reflexivity.
    + apply NoDup_cons in Hnd. destruct Hnd as [Hh _].
      assert (Hin : p ∈ t) by (eapply list_elem_of_lookup_2; exact E).
      rewrite decide_False by (intros ->; contradiction).
      rewrite decide_True by exact Hin. reflexivity.
  - assert (Hnot : ~ p ∈ l).
    { intros Hin. apply list_elem_of_lookup in Hin. destruct Hin as [i Hi].
      apply (sset_lookup l p i Hnd) in Hi. congruence. }
    rewrite Hfp. destruct l as [|h t].
    + case_bool_decide; [rewrite decide_True by assumption|rewrite decide_False by assumption];
        reflexivity.
    + rewrite decide_False by (intros ->; apply Hnot; apply list_elem_of_here).
      rewrite decide_False by (intros Hin; apply Hnot; apply list_elem_of_further; exact Hin).
      case_bool_decide; [rewrite decide_True by assumption|rewrite decide_False by assumption];
        reflexivity.
Qed.

(** X6. In every reachable state the rendered grid has 18 rows of 18
    cells and shows the state: the head at the first cell of the snake,
    a body part at each of its other cells, the food at the food's cell
    and nothing elsewhere; the snake never hides the food. *)
Theorem cells_show_state (s : State) :
  reachable s ->
  Js.rect 18 18 (cells (snake s) (food s)) /\
  (forall cx cy, (cx < 18)%nat -> (cy < 18)%nat ->
     Js.mget (cells (snake s) (food s)) cy cx =
       Some (shown (snake s) (food s) (mkPoint (Z.of_nat cx) (Z.of_nat cy)))) /\
  Js.mget (cells (snake s) (food s)) (Z.to_nat (y (food s))) (Z.to_nat (x (food s)))
    = Some foodCell.
Proof.
  intros Hr.
  pose proof (reachable_wellFormed s Hr) as (Hne & Hnd & _).
  destruct (SnakeBoard.reachable_boardInv s Hr) as ([Hfx Hfy] & Hfn & _).
  destruct (paint_rows (sset (snake s)) (food s) 18 ltac:(lia)) as [Hrect Hcells].
  change (Js.for_loop 18 _ _) with (cells (snake s) (food s)) in Hrect, Hcells.
  assert (Hall : forall cx cy, (cx < 18)%nat -> (cy < 18)%nat ->
     Js.mget (cells (snake s) (food s)) cy cx =
       Some (shown (snake s) (food s) (mkPoint (Z.of_nat cx) (Z.of_nat cy)))).
  { intros cx cy Hx Hy. rewrite Hcells by assumption.
    rewrite decide_True by exact Hy. f_equal. apply painted_shown; assumption. }
  split; [exact Hrect|]. split; [exact Hall|].
  unfold GRID in Hfx, Hfy. rewrite Hall by lia.
  rewrite !Z2Nat.id by lia. f_equal. unfold shown.
  replace (mkPoint (x (food s)) (y (food s))) with (food s) by (destruct (food s); reflexivity).
  destruct (snake s) as [|h t]; [contradiction|].
  rewrite decide_False by (intros E; apply Hfn; left; symmetry; exact E).
  rewrite decide_False by (rewrite list_elem_of_In; intros Hin; apply Hfn; right; exact Hin).
  rewrite decide_True by reflexivity. reflexivity.
Qed.

Lemma cells_show_state_witness :
  Js.mget (cells (snake demo_running) (food demo_running)) 3 3 = Some head /\
  Js.mget (cells (snake demo_running) (food demo_running)) 3 2 = Some body /\
  Js.mget (cells (snake demo_running) (food demo_running)) 3 4 = Some empty.
Proof.
  destruct (cells_show_state demo_running snake_demo_reachable) as (_ & H & _).
  split; [exact (H 3%nat 3%nat ltac:(lia) ltac:(lia))|].
  split; [exact (H 2%nat 3%nat ltac:(lia) ltac:(lia))|].
  exact (H 4%nat 3%nat ltac:(lia) ltac:(lia)).
Defined.

End SnakeViewFacts.

(** ** Tanks: configuration, spawning and movement *)

Module TanksRulesFacts.
Import Rand Tanks TanksFacts TanksRules.

(** X13. The pace ladder.  Every configuration ticks every 65 ms, moves
    bullets at every tick, allows two enemy bullets, steps the player
    every 2 to 4 ticks and the enemies less often (at most every 6
    ticks), has 1 to 3 enemies at a time and a positive fire
    probability.  Against the standard configuration nothing is faster:
    player and enemies step no more often, there are no more enemies
    and the fire probability is no higher.  As the level rises the pace
    never slows: no step interval grows, and neither the number of
    enemies nor the fire probability shrinks.  From level 3 on the
    comfort mode is the comfort base line, and without comfort the
    standard configuration is used at every level. *)
Theorem getConfig_ladder (comfort : bool) (level : Z) :
  let c := getConfig comfort level in
  (tickMs c = 65 /\ bulletStepEvery c = 1 /\ enemyMaxActiveBullets c = 2) /\
  (2 <= playerStepEvery c <= 4 /\ playerStepEvery c < enemyStepEvery c <= 6) /\
  (1 <= maxConcurrentEnemies c <= 3 /\ (0 < enemyFireProb c)%Q) /\
  (playerStepEvery standard <= playerStepEvery c /\
   enemyStepEvery standard <= enemyStepEvery c /\
   maxConcurrentEnemies c <= maxConcurrentEnemies standard /\
   (enemyFireProb c <= enemyFireProb standard)%Q) /\
  (forall level', level <= level' ->
     let c' := getConfig comfort level' in
     playerStepEvery c' <= playerStepEvery c /\
     enemyStepEvery c' <= enemyStepEvery c /\
     maxConcurrentEnemies c <= maxConcurrentEnemies c' /\
     (enemyFireProb c <= enemyFireProb c')%Q) /\
  (3 <= level -> getConfig true level = comfyBase) /\
  getConfig false level = standard.
Proof.
  cbv zeta. unfold getConfig.
  split; [|split; [|split; [|split; [|split; [|split]]]]].
  - destruct comfort; simpl; [|auto].
    destruct (level <=? 1); [auto|]. destruct (level =? 2); auto.
  - destruct comfort; simpl; [|lia].
    destruct (level <=? 1); [simpl; lia|]. destruct (level =? 2); simpl; lia.
  - destruct comfort; simpl; [|split; [lia|reflexivity]].
    destruct (level <=? 1); [simpl; split; [lia|reflexivity]|].
    destruct (level =? 2); simpl; (split; [lia|reflexivity]).
  - destruct comfort; simpl; [|repeat split; (lia || discriminate)].
    destruct (level <=? 1); [simpl; repeat split; (lia || discriminate)|].
    destruct (level =? 2); simpl; repeat split; (lia || discriminate).
  - intros level' Hle. destruct comfort; simpl; [|repeat split; (lia || discriminate)].
    destruct (Z.leb_spec level 1), (Z.leb_spec level' 1); try lia;
      destruct (Z.eqb_spec level 2), (Z.eqb_spec level' 2); try lia;
      simpl; repeat split; (lia || discriminate).
  - intros H3. simpl.
    destruct (Z.leb_spec level 1); [lia|]. destruct (Z.eqb_spec level 2); [lia|reflexivity].
  - reflexivity.
Qed.

(** X14. Turning.  [turnLeft] and [turnRight] undo each other, four
    quarter turns come back to the start, a right turn takes the step
    [(dx, dy)] to [(-dy, dx)] (a quarter turn clockwise on the screen),
    two turns reverse the step, and every step has length one. *)
Theorem turns_are_quarter_turns (d : Direction) :
  turnLeft (turnRight d) = d /\ turnRight (turnLeft d) = d /\
  turnRight (turnRight (turnRight (turnRight d))) = d /\
  turnLeft d = turnRight (turnRight (turnRight d)) /\
  dirDelta (turnRight d) = (- (dirDelta d).2, (dirDelta d).1) /\
  dirDelta (turnLeft d) = ((dirDelta d).2, - (dirDelta d).1) /\
  dirDelta (turnRight (turnRight d)) = (- (dirDelta d).1, - (dirDelta d).2) /\
  Z.abs (dirDelta d).1 + Z.abs (dirDelta d).2 = 1.
Proof. destruct d; repeat split. Qed.

(** *** Spawning *)

Lemma posKey_inj (x y x' y' : Z) : posKey x y = posKey x' y' -> x = x' /\ y = y'.
Proof. apply JsFacts.comma_key_inj. Qed.

Lemma occupiedKeys_spec (x y : Z) (l : list Tank) :
  posKey x y ∈ occupiedKeys l <-> tankOn x y l = true.
Proof.
  unfold occupiedKeys, tankOn.
  rewrite elem_of_list_to_set, list_elem_of_In, in_map_iff, existsb_exists. split.
  - intros (t & Hk & Ht). apply posKey_inj in Hk. destruct Hk as [Hx Hy].
    apply filter_In in Ht. destruct Ht as [Hin Ha].
    exists t. split; [exact Hin|]. rewrite Ha, Hx, Hy, !Z.eqb_refl. reflexivity.
  - intros (t & Hin & Ht). apply andb_true_iff in Ht. destruct Ht as [Ht Hy].
    apply andb_true_iff in Ht. destruct Ht as [Ha Hx].
    apply Z.eqb_eq in Hx, Hy. exists t. split; [rewrite Hx, Hy; reflexivity|].
    apply filter_In. split; assumption.
Qed.

Lemma probe_step (l : list Tank) (k : Z) (ks : list Z) (x y : Z) :
  probe (occupiedKeys l) (k :: ks) x y =
    if tankOn x y l
    then probe (occupiedKeys l) ks (clamp (x + (k - 1)) 1 (GRID - 2)) (clamp (y + 1) 1 (GRID - 2))
    else Some (x, y).
Proof.
  cbn [probe]. destruct (tankOn x y l) eqn:E.
  - rewrite decide_True by (apply occupiedKeys_spec; exact E). reflexivity.
  - rewrite decide_False; [reflexivity|].
    rewrite occupiedKeys_spec, E. discriminate.
Qed.

(** X15. [spawnEnemyPositions] looks at nine cells in a fixed order,
    (1,1), (1,2), (1,3), (7,1), (6,2), (6,3), (13,1), (12,2), (12,3),
    and answers the first one on which no live tank of the list stands;
    when all nine are taken it answers (7,1) although a tank stands
    there.  The answer is always one of the nine cells, and the terrain
    plays no part in it. *)
Theorem spawn_is_first_free_probe (l : list Tank) :
  spawnEnemyPositions l =
    default (7, 1) (List.find (fun p => negb (tankOn p.1 p.2 l)) probes) /\
  In (spawnEnemyPositions l) probes /\
  (tankOn (spawnEnemyPositions l).1 (spawnEnemyPositions l).2 l = true ->
   spawnEnemyPositions l = (7, 1) /\
   forall p, In p probes -> tankOn p.1 p.2 l = true).
Proof.
  assert (E : spawnEnemyPositions l =
    default (7, 1) (List.find (fun p => negb (tankOn p.1 p.2 l)) probes)).
  { unfold spawnEnemyPositions, candidates. cbn [firstFree].
    rewrite !probe_step.
    repeat match goal with
           | |- context [clamp ?a ?b ?c] =>
               let v := eval vm_compute in (clamp a b c) in
               change (clamp a b c) with v
           end.
    change (GRID / 2) with 7. change (GRID - 2) with 13.
    rewrite ?probe_step. cbn [probe List.find probes fst snd].
    destruct (tankOn 1 1 l); [|reflexivity]. destruct (tankOn 1 2 l); [|reflexivity].
    destruct (tankOn 1 3 l); [|reflexivity]. destruct (tankOn 7 1 l); [|reflexivity].
    destruct (tankOn 6 2 l); [|reflexivity]. destruct (tankOn 6 3 l); [|reflexivity].
    destruct (tankOn 13 1 l); [|reflexivity]. destruct (tankOn 12 2 l); [|reflexivity].
    destruct (tankOn 12 3 l); reflexivity. }
  split; [exact E|]. rewrite E.
  destruct (List.find _ probes) as [p|] eqn:F; cbn [from_option id].
  - apply find_some in F. destruct F as [Hin Hfree]. split; [exact Hin|].
    intros Hocc. rewrite Hocc in Hfree. discriminate.
  - split; [simpl; auto 10|]. intros _. split; [reflexivity|].
    intros p Hp. pose proof (find_none _ _ F p Hp) as Hn.
    apply negb_false_iff in Hn. exact Hn.
Qed.

(** *** Moving *)

Lemma clamp_range (n lo hi : Z) : lo <= hi -> lo <= clamp n lo hi <= hi.
Proof. unfold clamp. lia. Qed.

Lemma clamp_inside (n lo hi : Z) : lo <= n <= hi -> clamp n lo hi = n.
Proof. unfold clamp. lia. Qed.

Lemma canMoveTo_true (x y : Z) (w : World) :
  Js.rect 15 15 (terrainRef w) ->
  canMoveTo x y w = Some true ->
  0 <= x < GRID /\ 0 <= y < GRID /\
  Js.mget (terrainRef w) (Z.to_nat y) (Z.to_nat x) = Some empty /\
  tankOn x y (tanksRef w) = false.
Proof.
  intros Hrect. unfold canMoveTo.
  destruct (_ || _) eqn:Hout; [discriminate|].
  assert (Hx : 0 <= x < GRID /\ 0 <= y < GRID).
  { rewrite !Z.geb_leb in Hout.
    destruct (Z.ltb_spec x 0), (Z.leb_spec GRID x), (Z.ltb_spec y 0), (Z.leb_spec GRID y);
      simpl in Hout; try discriminate; lia. }
  destruct Hx as [Hx Hy]. unfold GRID in Hx, Hy.
  destruct (JsFacts.mget_is_Some 15 15 (terrainRef w) (Z.to_nat y) (Z.to_nat x) Hrect)
    as [c Hc]; [lia|lia|].
  unfold Js.mget in *. destruct (terrainRef w !! Z.to_nat y) as [row|]; [|discriminate].
  rewrite Hc. destruct c; try discriminate.
  intros [= Hfree]. apply negb_true_iff in Hfree. unfold GRID. auto.
Qed.

Lemma canMoveTo_total (x y : Z) (w : World) :
  Js.rect 15 15 (terrainRef w) -> exists b, canMoveTo x y w = Some b.
Proof.
  intros Hrect. unfold canMoveTo.
  destruct (_ || _) eqn:Hout; [eauto|].
  assert (Hy : 0 <= y < GRID).
  { rewrite !Z.geb_leb in Hout.
    destruct (Z.ltb_spec x 0), (Z.leb_spec GRID x), (Z.ltb_spec y 0), (Z.leb_spec GRID y);
      simpl in Hout; try discriminate; lia. }
  unfold GRID in Hy.
  destruct (lookup_lt_is_Some_2 (terrainRef w) (Z.to_nat y)) as [row ->];
    [destruct Hrect as [-> _]; lia|].
  destruct (row !! Z.to_nat x) as [[| | |]|]; eauto.
Qed.

(** X16. [moveTank] on a board of 15 rows of 15 cells never throws and
    always turns the tank to the direction asked for.  The tank keeps
    its id, side and life and stays on the board; it either stays where
    it is or advances one cell in that direction, and then the cell it
    enters is empty in the terrain of the last render and carries no
    live tank of [tanksRef]: no tank ever drives into a wall, into the
    base, off the board or onto another tank of that list. *)
Theorem moveTank_respects_board (t : Tank) (dir : Direction) (w : World) :
  Js.rect 15 15 (terrainRef w) ->
  0 <= tx t < GRID -> 0 <= ty t < GRID ->
  exists t', moveTank t dir w = Some t' /\
    tdir t' = dir /\ tid t' = tid t /\ side t' = side t /\ alive t' = alive t /\
    0 <= tx t' < GRID /\ 0 <= ty t' < GRID /\
    ((tx t', ty t') = (tx t, ty t) \/
     ((tx t', ty t') = (tx t + (dirDelta dir).1, ty t + (dirDelta dir).2) /\
      Js.mget (terrainRef w) (Z.to_nat (ty t')) (Z.to_nat (tx t')) = Some empty /\
      tankOn (tx t') (ty t') (tanksRef w) = false)).
Proof.
  intros Hrect Hx Hy. unfold moveTank.
  destruct (dirDelta dir) as [dx dy] eqn:Hd. cbn [fst snd].
  set (nx := clamp (tx t + dx) 0 (GRID - 1)). set (ny := clamp (ty t + dy) 0 (GRID - 1)).
  destruct (canMoveTo_total nx ny w Hrect) as [b Hb]. rewrite Hb.
  destruct b.
  - eexists. split; [reflexivity|]. cbn [tdir tid side alive tx ty].
    destruct (canMoveTo_true nx ny w Hrect Hb) as (Hnx & Hny & Hcell & Hfree).
    do 4 (split; [reflexivity|]). split; [exact Hnx|]. split; [exact Hny|].
    assert (Hcases : (nx, ny) = (tx t, ty t) \/ (nx, ny) = (tx t + dx, ty t + dy)).
    { unfold nx, ny, clamp, GRID in *.
      destruct dir; injection Hd as <- <-;
        destruct (decide (tx t = 0)), (decide (tx t = 14)),
                 (decide (ty t = 0)), (decide (ty t = 14));
        first [left; f_equal; lia | right; f_equal; lia]. }
    destruct Hcases as [E|E]; [left; exact E|right].
    split; [exact E|]. split; assumption.
  - eexists. split; [reflexivity|]. cbn [tdir tid side alive tx ty].
    do 4 (split; [reflexivity|]). split; [exact Hx|]. split; [exact Hy|].
    left. reflexivity.
Qed.

Lemma moveTank_respects_board_witness :
  moveTank (mkTank P1 7 12 up player true) up demoWorld
    = Some (mkTank P1 7 11 up player true) /\
  exists t', moveTank (mkTank P1 5 13 up player true) right demoWorld = Some t' /\
    tdir t' = right /\ (tx t', ty t') = (5, 13).
Proof.
  split; [reflexivity|].
  destruct (moveTank_respects_board (mkTank P1 5 13 up player true) right demoWorld)
    as (t' & E & Hd & _).
  - apply (bool_decide_eq_true_1 (Js.rect 15 15 (terrainRef demoWorld))).
    vm_compute. reflexivity.
  - vm_compute. split; [discriminate|reflexivity].
  - vm_compute. split; [discriminate|reflexivity].
  - exists t'. split; [exact E|]. split; [exact Hd|].
    vm_compute in E. injection E as <-. reflexivity.
Defined.

(** *** The terrain *)

Lemma for_range_inv {S : Type} (P : S -> Prop) (lo hi : Z) (body : Z -> S -> S) (s : S) :
  (forall i s, lo <= i < hi -> P s -> P (body i s)) -> P s -> P (for_range lo hi body s).
Proof.
  intros Hbody. unfold for_range.
  assert (Hgen : forall n s, (Z.of_nat n <= hi - lo \/ n = 0%nat) -> P s ->
            P (foldl (fun acc k => body (lo + Z.of_nat k) acc) s (seq 0 n))).
  { induction n as [|n IH]; intros s0 Hn Hs; [exact Hs|].
    rewrite seq_S, foldl_app. cbn [foldl]. apply Hbody; [lia|].
    apply IH; [lia|exact Hs]. }
  apply Hgen. destruct (Z.to_nat (hi - lo)) eqn:E; [right; reflexivity|left; lia].
Qed.

Lemma scatter_scattered (bd sd : Q) (y x : Z) (acc : list (list CellType) * rng) :
  1 <= y < GRID - 1 -> 1 <= x < GRID - 1 -> scattered acc ->
  scattered (scatter bd sd y x acc).
Proof.
  intros Hy Hx [Hrect Hcells]. unfold scatter. destruct acc as [t g]. cbn [fst snd] in *.
  destruct (_ || _) eqn:Hskip; [split; assumption|].
  apply orb_false_iff in Hskip. destruct Hskip as [_ Hspawn].
  unfold GRID in *. assert (Hy' : y <= 11) by lia.
  assert (Hwrite : forall v, v = steel \/ v = brick ->
            scattered (Js.mset t (Z.to_nat y) (Z.to_nat x) v, (random g).2)).
  { intros v Hv. split; cbn [fst].
    - apply JsFacts.rect_mset. exact Hrect.
    - intros i j c. rewrite (JsFacts.mget_mset 15 15) by (assumption || lia).
      case_decide as E.
      + intros [= <-]. right. split; [exact Hv|]. lia.
      + apply Hcells. }
  cbn [random]. cbn [random] in Hwrite.
  destruct (lt _ sd); [apply Hwrite; left; reflexivity|].
  destruct (lt _ _); [apply Hwrite; right; reflexivity|].
  split; assumption.
Qed.

Lemma ring_unrolled (t : list (list CellType)) :
  for_range (-1) 2 (fun dy terrain =>
    for_range (-1) 2 (fun dx terrain => ringCell dy dx terrain) terrain) t =
  Js.mset (Js.mset (Js.mset (Js.mset (Js.mset t 13 6 brick) 13 7 brick) 13 8 brick)
                   14 6 brick) 14 8 brick.
Proof. reflexivity. Qed.

(** X17. The terrain of a level, whatever the level and the random
    numbers.  It has 15 rows of 15 cells; the base is at column 7 of the
    bottom row and nowhere else; the five cells around it that lie on
    the board are bricks; steel only stands in rows 1 to 11 and columns
    1 to 13, and so do all other bricks; every other cell is empty, in
    particular the cell (7, 12) where the player starts. *)
Theorem buildTerrain_layout (level : Z) (g : rng) :
  let t := (buildTerrain level g).1 in
  Js.rect 15 15 t /\
  Js.mget t 14 7 = Some base /\
  (forall i j, In (i, j) ring -> Js.mget t i j = Some brick) /\
  (forall i j c, Js.mget t i j = Some c ->
     match c with
     | base => (i, j) = (14, 7)%nat
     | steel => (1 <= i <= 11)%nat /\ (1 <= j <= 13)%nat
     | brick => ((1 <= i <= 11)%nat /\ (1 <= j <= 13)%nat) \/ In (i, j) ring
     | empty => True
     end) /\
  Js.mget t 12 7 = Some empty.
Proof.
  cbv zeta. unfold buildTerrain. destruct (densities level) as [bd sd].
  match goal with |- context [for_range 1 (GRID - 1) ?body ?init] =>
    assert (Hsc : scattered (for_range 1 (GRID - 1) body init));
    [|destruct (for_range 1 (GRID - 1) body init) as [t1 g1]]
  end.
  { apply for_range_inv.
    - intros y acc Hy Hacc. apply for_range_inv; [|exact Hacc].
      intros x acc' Hx Hacc'. apply scatter_scattered; assumption.
    - split; cbn [fst].
      + apply JsFacts.rect_replicate.
      + intros i j c Hc. left. unfold Js.mget in Hc.
        destruct (replicate _ _ !! i) as [row|] eqn:Hrow; [|discriminate].
        apply lookup_replicate in Hrow. destruct Hrow as [-> _].
        apply lookup_replicate in Hc. destruct Hc as [-> _]. reflexivity. }
  destruct Hsc as [Hrect Hcells]. cbn [fst snd] in *.
  rewrite ring_unrolled. change (Z.to_nat getBasePos.2) with 14%nat.
  change (Z.to_nat getBasePos.1) with 7%nat.
  set (t2 := Js.mset t1 14 7 base).
  assert (Hr2 : Js.rect 15 15 t2) by (apply JsFacts.rect_mset; exact Hrect).
  set (t3 := Js.mset t2 13 6 brick).
  assert (Hr3 : Js.rect 15 15 t3) by (apply JsFacts.rect_mset; exact Hr2).
  set (t4 := Js.mset t3 13 7 brick).
  assert (Hr4 : Js.rect 15 15 t4) by (apply JsFacts.rect_mset; exact Hr3).
  set (t5 := Js.mset t4 13 8 brick).
  assert (Hr5 : Js.rect 15 15 t5) by (apply JsFacts.rect_mset; exact Hr4).
  set (t6 := Js.mset t5 14 6 brick).
  assert (Hr6 : Js.rect 15 15 t6) by (apply JsFacts.rect_mset; exact Hr5).
  assert (Hget : forall i j, Js.mget (Js.mset t6 14 8 brick) i j =
            if decide (In (i, j) ring) then Some brick
            else if decide ((i, j) = (14, 7)%nat) then Some base
            else Js.mget t1 i j).
  { intros i j. unfold t6, t5, t4, t3, t2.
    rewrite !(JsFacts.mget_mset 15 15) by (assumption || lia).
    unfold ring.
    repeat case_decide; try reflexivity; exfalso; cbn [In] in *;
      repeat match goal with
             | H : _ \/ _ |- _ => destruct H
             | H : ~ (_ \/ _) |- _ => apply Decidable.not_or in H; destruct H
             | H : (_, _) = (_, _) |- _ => injection H as ? ?; subst
             | H : _ /\ _ |- _ => destruct H; subst
             end; try tauto; try congruence. }
  split; [apply JsFacts.rect_mset; exact Hr6|].
  split; [rewrite Hget; reflexivity|].
  split.
  { intros i j Hin. rewrite Hget. rewrite decide_True by exact Hin. reflexivity. }
  split.
  { intros i j c. rewrite Hget. case_decide as Hring.
    - intros [= <-]. right. exact Hring.
    - case_decide as Hbase.
      + intros [= <-]. exact Hbase.
      + intros Hc. destruct (Hcells i j c Hc) as [->|([-> | ->] & Hi & Hj)].
        * exact I.
        * split; assumption.
        * left. split; assumption. }
  rewrite Hget. cbn.
  destruct (Hrect) as [Hl Hrows].
  destruct (JsFacts.mget_is_Some 15 15 t1 12 7 Hrect) as [c Hc]; [lia|lia|].
  rewrite Hc. destruct (Hcells _ _ _ Hc) as [->|(_ & Hi & _)]; [reflexivity|lia].
Qed.

End TanksRulesFacts.

(** ** Tanks: the bullet phase of a tick *)

Module TanksBullets.
Import Rand Tanks TanksFacts TanksLedger.

Lemma ledger_refl (w : World) : ledger w w.
Proof. split; try reflexivity; try lia; auto. Qed.

Lemma ledger_trans (w1 w2 w3 : World) : ledger w1 w2 -> ledger w2 w3 -> ledger w1 w3.
Proof.
  intros [A1 A2 A3 A4 A5 A6 (A7 & A8 & A9) A10] [B1 B2 B3 B4 B5 B6 (B7 & B8 & B9) B10].
  split.
  - congruence.
  - lia.
  - lia.
  - lia.
  - intros H. specialize (A5 H). specialize (B5 ltac:(lia)). lia.
  - intros H. specialize (A6 H). specialize (B6 ltac:(lia)). lia.
  - repeat split; congruence.
  - congruence.
Qed.

Lemma tankAt_Some (x y : Z) (l : list Tank) (i : nat) (t : Tank) :
  tankAt x y l = Some (i, t) ->
  l !! i = Some t /\ alive t = true /\ tx t = x /\ ty t = y.
Proof.
  unfold tankAt. intros H. apply list_find_Some in H.
  destruct H as (Hi & (Ha & Hx & Hy) & _). auto.
Qed.

Lemma aliveEnemies_killed (l : list Tank) (i : nat) (t : Tank) :
  l !! i = Some t -> alive t = true ->
  aliveEnemies (<[i := killed t]> l) =
    aliveEnemies l - (if bool_decide (side t = enemy) then 1 else 0).
Proof.
  intros Hi Ha. unfold aliveEnemies.
  rewrite <- (take_drop_middle l i t Hi) at 2.
  rewrite insert_take_drop by (eapply lookup_lt_Some; exact Hi).
  assert (H1 : liveEnemy (killed t) = false) by reflexivity.
  assert (H2 : liveEnemy t = bool_decide (side t = enemy))
    by (unfold liveEnemy; rewrite Ha; reflexivity).
  rewrite !List.filter_app. cbn [List.filter]. rewrite H1, H2.
  rewrite !length_app. destruct (bool_decide (side t = enemy)); cbn [length]; lia.
Qed.

Lemma dropPowerUp_ledger (x y : Z) (w : World) : ledger w (dropPowerUp x y w).
Proof.
  unfold dropPowerUp. cbn [random].
  destruct (lt _ _); split; cbn; try reflexivity; try lia; auto.
Qed.

Lemma damageTank_ledger (x y : Z) (o : Side) (w : World) :
  ledger w (damageTank x y o w).2.
Proof.
  unfold damageTank. destruct (tankAt x y (tanksRef w)) as [[i target]|] eqn:Ht;
    [|apply ledger_refl].
  apply tankAt_Some in Ht. destruct Ht as (Hi & Ha & _).
  case_decide; [apply ledger_refl|].
  destruct (_ && _); cbn [snd].
  - split; cbn; try reflexivity; try lia; auto.
  - pose proof (aliveEnemies_killed (tanksRef w) i target Hi Ha) as Hcount.
    destruct (side target) eqn:Hside; cbn [snd].
    + rewrite bool_decide_eq_false_2 in Hcount by discriminate.
      split; cbn; try reflexivity; try lia; auto.
    + rewrite bool_decide_eq_true_2 in Hcount by reflexivity.
      eapply ledger_trans; [|apply dropPowerUp_ledger].
      split; cbn; try reflexivity; try lia; auto.
Qed.

Lemma damageAt_ledger (x y : Z) (o : Side) (w w' : World) (r : Result) :
  damageAt x y o w = Some (r, w') -> ledger w w'.
Proof.
  unfold damageAt. destruct (_ || _); [intros [= <- <-]; apply ledger_refl|].
  destruct (terrainRef w !! Z.to_nat y) as [row|]; [|discriminate].
  pose proof (damageTank_ledger x y o w) as Hl.
  destruct (row !! Z.to_nat x) as [[| | |]|].
  - destruct (damageTank x y o w) as [r0 w0]. intros [= <- <-]. exact Hl.
  - destruct (Js.mset_checked _ _ _ _); [|discriminate]. intros [= <- <-].
    split; cbn; try reflexivity; try lia; auto.
  - intros [= <- <-]. apply ledger_refl.
  - intros [= <- <-]. split; cbn; try reflexivity; try lia; auto.
  - destruct (damageTank x y o w) as [r0 w0]. intros [= <- <-]. exact Hl.
Qed.

(** A bullet only flies on over a cell of the board that holds no wall
    and no live tank, and then nothing changes. *)
Lemma damageAt_none (x y : Z) (o : Side) (w w' : World) :
  damageAt x y o w = Some (none, w') ->
  w' = w /\ 0 <= x < GRID /\ 0 <= y < GRID /\ tankAt x y (tanksRef w) = None /\
  forall c, Js.mget (terrainRef w) (Z.to_nat y) (Z.to_nat x) = Some c -> c = empty.
Proof.
  unfold damageAt, Js.mget. destruct (_ || _) eqn:Hout; [discriminate|].
  assert (Hx : 0 <= x < GRID /\ 0 <= y < GRID).
  { rewrite !Z.geb_leb in Hout.
    destruct (Z.ltb_spec x 0), (Z.leb_spec GRID x), (Z.ltb_spec y 0), (Z.leb_spec GRID y);
      simpl in Hout; try discriminate; lia. }
  destruct (terrainRef w !! Z.to_nat y) as [row|]; [|discriminate].
  assert (Htank : damageTank x y o w = (none, w') ->
            w' = w /\ tankAt x y (tanksRef w) = None).
  { unfold damageTank. destruct (tankAt x y (tanksRef w)) as [[i target]|].
    - case_decide; [discriminate|]. destruct (_ && _); [discriminate|].
      destruct (side target); discriminate.
    - intros [= <-]. auto. }
  destruct (row !! Z.to_nat x) as [[| | |]|]; try discriminate.
  - intros [= E]. destruct (Htank E). repeat split; try tauto. intros c [= <-]. reflexivity.
  - destruct (Js.mset_checked _ _ _ _); discriminate.
  - intros [= E]. destruct (Htank E). repeat split; try tauto. discriminate.
Qed.

(** A cell without a live tank stays without one: a hit only marks a
    tank of [tanksRef] dead. *)
Lemma damageAt_keeps_free (x y : Z) (o : Side) (w w' : World) (r : Result) (x' y' : Z) :
  damageAt x y o w = Some (r, w') ->
  tankAt x' y' (tanksRef w) = None -> tankAt x' y' (tanksRef w') = None.
Proof.
  intros Hd Hfree.
  assert (Htank : tankAt x' y' (tanksRef (damageTank x y o w).2) = None).
  { unfold damageTank. destruct (tankAt x y (tanksRef w)) as [[i target]|]; [|exact Hfree].
    case_decide; [exact Hfree|]. destruct (_ && _); [exact Hfree|].
    assert (Hk : tankAt x' y' (<[i := killed target]> (tanksRef w)) = None).
    { unfold tankAt in *. apply list_find_None. apply list_find_None in Hfree.
      apply Forall_insert; [exact Hfree|]. cbn. intros (? & _). discriminate. }
    destruct (side target); cbn [snd].
    - exact Hk.
    - match goal with |- context [dropPowerUp x y ?w0] =>
        destruct (dropPowerUp_fields x y w0) as (_ & _ & _ & _ & ->)
      end.
      exact Hk. }
  unfold damageAt in Hd. destruct (_ || _); [injection Hd as _ <-; exact Hfree|].
  destruct (terrainRef w !! Z.to_nat y) as [row|]; [|discriminate].
  destruct (row !! Z.to_nat x) as [[| | |]|].
  - destruct (damageTank x y o w) as [r0 w0]. injection Hd as _ <-. exact Htank.
  - destruct (Js.mset_checked _ _ _ _); [|discriminate]. injection Hd as _ <-. exact Hfree.
  - injection Hd as _ <-. exact Hfree.
  - injection Hd as _ <-. exact Hfree.
  - destruct (damageTank x y o w) as [r0 w0]. injection Hd as _ <-. exact Htank.
Qed.

Lemma foldl_bulletStep_keeps_free (l : list Bullet) (w w' : World) (next next' : list Bullet)
    (x y : Z) :
  foldl bulletStep (Some (w, next)) l = Some (w', next') ->
  tankAt x y (tanksRef w) = None -> tankAt x y (tanksRef w') = None.
Proof.
  revert w next. induction l as [|b l IH]; intros w next; cbn [foldl].
  - intros [= <- <-] H. exact H.
  - destruct (bulletStep (Some (w, next)) b) as [[w1 n1]|] eqn:E;
      [|rewrite foldl_bulletStep_None; discriminate].
    intros Hf Hfree. apply (IH _ _ Hf).
    unfold bulletStep in E. destruct (active b); cbn [negb] in E.
    + destruct (damageAt _ _ _ w) as [[r w0]|] eqn:Hd; [|discriminate].
      pose proof (damageAt_keeps_free _ _ _ _ _ _ x y Hd Hfree) as H0.
      destruct r; injection E as <- _; exact H0.
    + injection E as <- _. exact Hfree.
Qed.

(** The loop of the bullet phase: the ledger, and the bullets it keeps. *)
Lemma foldl_bulletStep_ledger (l : list Bullet) (w w' : World) (next next' : list Bullet) :
  foldl bulletStep (Some (w, next)) l = Some (w', next') ->
  ledger w w' /\
  exists kept, sublist kept l /\ next' = next ++ map moved kept /\
    Forall (fun b => active b = true /\
                     0 <= bx (moved b) < GRID /\ 0 <= by_ (moved b) < GRID /\
                     (forall c, Js.mget (terrainRef w) (Z.to_nat (ahead b).2)
                                  (Z.to_nat (ahead b).1) = Some c -> c = empty) /\
                     tankAt (ahead b).1 (ahead b).2 (tanksRef w') = None) kept.
Proof.
  revert w next. induction l as [|b l IH]; intros w next; cbn [foldl].
  - intros [= <- <-]. split; [apply ledger_refl|].
    exists []. split; [constructor|]. split; [rewrite app_nil_r; reflexivity|constructor].
  - destruct (bulletStep (Some (w, next)) b) as [[w1 n1]|] eqn:E;
      [|rewrite foldl_bulletStep_None; discriminate].
    intros Hf. destruct (IH _ _ Hf) as (Hl & kept & Hsub & Hnext & Hall).
    unfold bulletStep in E. destruct (active b) eqn:Ha; cbn [negb] in E.
    + destruct (damageAt _ _ _ w) as [[r w0]|] eqn:Hd; [|discriminate].
      pose proof (damageAt_ledger _ _ _ _ _ _ Hd) as Hl0.
      assert (Hter : terrainRef w1 = terrainRef w).
      { destruct r; injection E as <- _; apply Hl0. }
      rewrite Hter in Hall.
      destruct r; injection E as <- <-.
      * split; [eapply ledger_trans; eassumption|].
        exists kept. split; [apply sublist_cons; exact Hsub|]. split; assumption.
      * split; [eapply ledger_trans; eassumption|].
        exists kept. split; [apply sublist_cons; exact Hsub|]. split; assumption.
      * split; [eapply ledger_trans; eassumption|].
        apply damageAt_none in Hd. destruct Hd as (-> & Hx & Hy & Hfree & Hcell).
        exists (b :: kept). split; [apply sublist_skip; exact Hsub|].
        split; [rewrite Hnext, <- app_assoc; reflexivity|].
        constructor; [|exact Hall]. split; [exact Ha|]. split; [exact Hx|].
        split; [exact Hy|]. split; [exact Hcell|].
        exact (foldl_bulletStep_keeps_free _ _ _ _ _ _ _ Hf Hfree).
    + injection E as <- <-. split; [exact Hl|].
      exists kept. split; [apply sublist_cons; exact Hsub|]. split; assumption.
Qed.

(** X18. The books of a bullet phase.  Whatever the bullets hit, the
    phase leaves the level alone, never lowers the kills, adds exactly
    100 points per kill, and counts every kill against one live enemy
    of [tanksRef]: kills plus live enemies stay the same, so no enemy
    is counted twice.  Lives and shield charges that were not negative
    do not grow and do not become negative. *)
Theorem bullet_phase_ledger (w w' : World) :
  advanceBullets w = Some w' ->
  level (state w') = level (state w) /\
  kills (state w) <= kills (state w') /\
  score (state w') = score (state w) + 100 * (kills (state w') - kills (state w)) /\
  kills (state w') + aliveEnemies (tanksRef w') = kills (state w) + aliveEnemies (tanksRef w) /\
  (0 <= lives (state w) -> 0 <= lives (state w') <= lives (state w)) /\
  (0 <= shieldCharges (power w) ->
   0 <= shieldCharges (power w') <= shieldCharges (power w)).
Proof.
  unfold advanceBullets.
  destruct (foldl bulletStep _ _) as [[w1 next]|] eqn:E; [|discriminate].
  intros [= <-]. apply foldl_bulletStep_ledger in E.
  destruct E as ([A1 A2 A3 A4 A5 A6 _ _] & _). cbn. auto 10.
Qed.

Lemma bullet_phase_ledger_witness :
  exists w', advanceBullets demoWorld = Some w' /\
    score (state w') = 300 /\ kills (state w') = 3 /\ lives (state w') = 3.
Proof.
  eexists. split; [vm_compute; reflexivity|].
  match goal with |- context [state ?w0] =>
    destruct (bullet_phase_ledger demoWorld w0) as (_ & _ & H3 & _);
    [vm_compute; reflexivity|]
  end.
  repeat split.
Defined.

(** X19. The bullets after a bullet phase are bullets of before, in
    their order, each moved one cell in its direction; all of them are
    active and on the board.  No bullet is kept that would enter a wall
    or the base of [terrainRef], or a cell on which a live tank of
    [tanksRef] stands, be it a friend or a foe. *)
Theorem surviving_bullets_on_board (w w' : World) :
  advanceBullets w = Some w' ->
  exists kept, sublist kept (bullets w) /\ bullets w' = map moved kept /\
    Forall (fun b => active b = true /\
              (forall c, Js.mget (terrainRef w) (Z.to_nat (ahead b).2)
                           (Z.to_nat (ahead b).1) = Some c -> c = empty) /\
              tankAt (ahead b).1 (ahead b).2 (tanksRef w') = None) kept /\
    Forall (fun b => active b = true /\ 0 <= bx b < GRID /\ 0 <= by_ b < GRID) (bullets w').
Proof.
  unfold advanceBullets.
  destruct (foldl bulletStep _ _) as [[w1 next]|] eqn:E; [|discriminate].
  intros [= <-]. apply foldl_bulletStep_ledger in E.
  destruct E as (_ & kept & Hsub & Hnext & Hall). cbn [bullets set_bullets tanksRef].
  exists kept. split; [exact Hsub|]. split; [exact Hnext|].
  split.
  - eapply Forall_impl; [exact Hall|]. intros b (Ha & _ & _ & Hc & Ht).
    split; [exact Ha|]. split; [exact Hc|exact Ht].
  - rewrite Hnext. cbn [app]. apply Forall_map.
    eapply Forall_impl; [exact Hall|]. intros b (Ha & Hx & Hy & _).
    split; [exact Ha|]. split; assumption.
Qed.

Lemma surviving_bullets_on_board_witness :
  exists w', advanceBullets demoWorld = Some w' /\ bullets w' = [].
Proof.
  eexists. split; [vm_compute; reflexivity|].
  match goal with |- bullets ?w0 = _ =>
    destruct (surviving_bullets_on_board demoWorld w0) as (kept & _ & _ & _ & _);
    [vm_compute; reflexivity|]
  end.
  reflexivity.
Defined.

(** *** Several bullets on one cell within a tick *)

Lemma shield_step (w0 : World) (b : Bullet) (next : list Bullet) (i : nat) (p : Tank) :
  0 <= (ahead b).1 < GRID -> 0 <= (ahead b).2 < GRID ->
  Js.mget (terrainRef w0) (Z.to_nat (ahead b).2) (Z.to_nat (ahead b).1) = Some empty ->
  tankAt (ahead b).1 (ahead b).2 (tanksRef w0) = Some (i, p) -> side p = player ->
  0 < shieldCharges (powerRef w0) ->
  active b = true -> owner b = enemy ->
  bulletStep (Some (w0, next)) b = Some (set_power (shieldUsed (power w0)) w0, next).
Proof.
  intros Hx Hy Hcell Htank Hside Hsh Ha Ho.
  unfold bulletStep. rewrite Ha. cbn [negb].
  unfold damageAt. rewrite (tanks_inside_false _ _ Hx Hy).
  unfold Js.mget in Hcell.
  destruct (terrainRef w0 !! Z.to_nat (ahead b).2) as [row|]; [|discriminate].
  rewrite Hcell. unfold damageTank. rewrite Htank, Ho, Hside.
  rewrite decide_False by discriminate.
  rewrite bool_decide_eq_true_2 by reflexivity.
  destruct (Z.ltb_spec 0 (shieldCharges (powerRef w0))); [reflexivity|lia].
Qed.

Lemma shield_volley (l : list Bullet) (w w0 : World) (next : list Bullet)
    (x y : Z) (i : nat) (p : Tank) :
  0 <= x < GRID -> 0 <= y < GRID ->
  Js.mget (terrainRef w) (Z.to_nat y) (Z.to_nat x) = Some empty ->
  tankAt x y (tanksRef w) = Some (i, p) -> side p = player ->
  0 < shieldCharges (powerRef w) ->
  Forall (fun b => active b = true /\ owner b = enemy /\ ahead b = (x, y)) l ->
  sameButPower w0 w ->
  exists w', foldl bulletStep (Some (w0, next)) l = Some (w', next) /\
    sameButPower w' w /\ bullets w' = bullets w0 /\
    power w' = Nat.iter (length l) shieldUsed (power w0).
Proof.
  intros Hx Hy Hcell Htank Hside Hsh Hall. revert w0.
  induction Hall as [|b l (Ha & Ho & Hb) _ IH]; intros w0 Hsame; cbn [foldl].
  - exists w0. repeat split; try apply Hsame.
  - destruct Hsame as (S1 & S2 & S3 & S4 & S5 & S6 & S7).
    rewrite (shield_step w0 b next i p); rewrite ?Hb; cbn [fst snd];
      rewrite ?S5, ?S6, ?S7; try assumption.
    destruct (IH (set_power (shieldUsed (power w0)) w0)) as (w' & E & Hs' & Hbul & Hp).
    { repeat split; assumption. }
    exists w'. split; [exact E|]. split; [exact Hs'|]. split; [exact Hbul|].
    rewrite Hp. cbn [power set_power length]. rewrite Nat.iter_succ_r. reflexivity.
Qed.

Lemma shieldUsed_iter (n : nat) (p : PlayerPower) :
  0 <= shieldCharges p ->
  shieldCharges (Nat.iter n shieldUsed p) = Z.max 0 (shieldCharges p - Z.of_nat n) /\
  rapidUntil (Nat.iter n shieldUsed p) = rapidUntil p.
Proof.
  intros Hp. induction n as [|n [IH1 IH2]]; [simpl; split; [lia|reflexivity]|].
  change (Nat.iter (S n) shieldUsed p) with (shieldUsed (Nat.iter n shieldUsed p)).
  set (q := Nat.iter n shieldUsed p) in *.
  unfold shieldUsed. cbn [shieldCharges rapidUntil].
  rewrite IH1, IH2. split; [lia|reflexivity].
Qed.

(** X20. One shield charge absorbs a whole volley.  When the player
    stands on an open cell with at least one charge at the last render,
    every enemy bullet that reaches that cell in the same tick is
    absorbed: all of them vanish, the player stays alive, lives, score
    and terrain are untouched, and each bullet takes one charge as long
    as there is one; with [c] charges and [n] bullets, [max 0 (c - n)]
    are left. *)
Theorem shield_absorbs_volley (w : World) (x y : Z) (i : nat) (p : Tank) :
  0 <= x < GRID -> 0 <= y < GRID ->
  Js.mget (terrainRef w) (Z.to_nat y) (Z.to_nat x) = Some empty ->
  tankAt x y (tanksRef w) = Some (i, p) -> side p = player ->
  0 < shieldCharges (powerRef w) -> 0 <= shieldCharges (power w) ->
  Forall (fun b => active b = true /\ owner b = enemy /\ ahead b = (x, y)) (bullets w) ->
  exists w', advanceBullets w = Some w' /\
    bullets w' = [] /\ tanks w' = tanks w /\ tanksRef w' = tanksRef w /\
    state w' = state w /\ terrain w' = terrain w /\
    shieldCharges (power w') =
      Z.max 0 (shieldCharges (power w) - Z.of_nat (length (bullets w))) /\
    rapidUntil (power w') = rapidUntil (power w).
Proof.
  intros Hx Hy Hcell Htank Hside Hsh Hpw Hall.
  destruct (shield_volley (bullets w) w w [] x y i p Hx Hy Hcell Htank Hside Hsh Hall)
    as (w' & E & (S1 & S2 & S3 & S4 & S5 & S6 & S7) & _ & Hp).
  { repeat split. }
  unfold advanceBullets. rewrite E. eexists. split; [reflexivity|].
  cbn [bullets tanks tanksRef state terrain power set_bullets].
  destruct (shieldUsed_iter (length (bullets w)) (power w) Hpw) as [H1 H2].
  rewrite Hp. repeat split; assumption.
Qed.

Lemma shield_absorbs_volley_witness :
  exists w', advanceBullets volleyWorld = Some w' /\
    bullets w' = [] /\ tanks w' = tanks volleyWorld /\
    lives (state w') = 3 /\ shieldCharges (power w') = 0.
Proof.
  destruct (shield_absorbs_volley volleyWorld 7 12 0 (mkTank P1 7 12 up player true))
    as (w' & E & H1 & H2 & _ & H4 & _ & H6 & _).
  - vm_compute. split; [discriminate|reflexivity].
  - vm_compute. split; [discriminate|reflexivity].
  - reflexivity.
  - reflexivity.
  - reflexivity.
  - reflexivity.
  - vm_compute. discriminate.
  - repeat constructor.
  - exists w'. split; [exact E|]. split; [exact H1|]. split; [exact H2|].
    split; [rewrite H4; reflexivity|]. rewrite H6. reflexivity.
Defined.

(** *** The death of the player *)

(** X21. An enemy bullet that meets the player without a shield charge
    at the last render costs one life, never below zero; score, kills
    and the running flag stay, the player is marked dead in the state
    and in [tanksRef], and one respawn timer is started.  When that
    timer fires after the next render, the game goes on only if more
    than one life was left and the game was running: then every player
    tank is put back at (7, 12), facing up and alive; otherwise the
    game is over. *)
Theorem player_hit_costs_a_life (w : World) (x y : Z) (i : nat) (p : Tank) :
  tankAt x y (tanksRef w) = Some (i, p) -> side p = player ->
  shieldCharges (powerRef w) <= 0 ->
  let w1 := (damageTank x y enemy w).2 in
  let w2 := respawnTimer (render w1) in
  (damageTank x y enemy w).1 = hit /\
  lives (state w1) = Z.max 0 (lives (state w) - 1) /\
  (score (state w1), kills (state w1), running (state w1)) =
    (score (state w), kills (state w), running (state w)) /\
  tanksRef w1 = <[i := killed p]> (tanksRef w) /\
  tanks w1 = map (fun t => if decide (tid t = tid p) then killed t else t) (tanks w) /\
  respawnTimers w1 = S (respawnTimers w) /\
  (if (1 <? lives (state w)) && running (state w)
   then state w2 = state w1 /\
        tanks w2 = map (fun t => if decide (side t = player) then respawned t else t)
                       (tanks w1)
   else running (state w2) = false /\ paused (state w2) = false /\ tanks w2 = tanks w1).
Proof.
  intros Htank Hside Hsh. cbv zeta.
  assert (E : damageTank x y enemy w =
            (hit, set_respawnTimers (S (respawnTimers w))
                    (set_state (lifeLost (state w))
                       (set_tanks (map (fun t => if decide (tid t = tid p) then killed t else t)
                                       (tanks w))
                          (set_tanksRef (<[i := killed p]> (tanksRef w)) w))))).
  { unfold damageTank. rewrite Htank, Hside.
    rewrite decide_False by discriminate.
    rewrite bool_decide_eq_true_2 by reflexivity.
    destruct (Z.ltb_spec 0 (shieldCharges (powerRef w))); [lia|]. reflexivity. }
  rewrite E. cbn [fst snd].
  do 6 (split; [reflexivity|]).
  unfold respawnTimer, render. cbn.
  assert (Hl : (0 <? Z.max 0 (lives (state w) - 1)) = (1 <? lives (state w))).
  { destruct (Z.ltb_spec 0 (Z.max 0 (lives (state w) - 1))),
             (Z.ltb_spec 1 (lives (state w))); try reflexivity; lia. }
  rewrite Hl. destruct ((1 <? lives (state w)) && running (state w)); cbn; repeat split.
Qed.

Lemma player_hit_costs_a_life_witness :
  let w := mkWorld demoTerrain demoTanks [] [] (mkGameState 0 1 1 0 true false)
             (mkPlayerPower 0 0) demoTerrain demoTanks (mkGameState 0 1 1 0 true false)
             (mkPlayerPower 0 0) 0 5000 demo_rng in
  let w1 := (damageTank 7 12 enemy w).2 in
  lives (state w1) = 0 /\ running (state w1) = true /\
  running (state (respawnTimer (render w1))) = false.
Proof.
  intros w w1.
  destruct (player_hit_costs_a_life w 7 12 0 (mkTank P1 7 12 up player true))
    as (_ & H1 & H2 & _ & _ & _ & H6).
  - reflexivity.
  - reflexivity.
  - vm_compute. discriminate.
  - split; [exact H1|]. split; [reflexivity|]. apply H6.
Defined.

End TanksBullets.

(** ** Tetris: collisions, the lock and the game *)

Module TetrisGameFacts.
Import Js JsFacts Rand RandFacts Tetris TetrisFacts TetrisGame.

(** *** Loops *)

Lemma for_loop_ind {S : Type} (I : nat -> S -> Prop) (n : nat) (body : nat -> S -> S) (s : S) :
  I O s -> (forall k s, (k < n)%nat -> I k s -> I (Datatypes.S k) (body k s)) ->
  I n (for_loop n body s).
Proof.
  intros H0 Hstep. induction n as [|n IH]; [exact H0|].
  rewrite for_loop_S. apply Hstep; [lia|]. apply IH. intros k s0 Hk. apply Hstep. lia.
Qed.

Lemma first_true_spec (f : nat -> option bool) (l : list nat) :
  (forall i, In i l -> exists b, f i = Some b) ->
  exists b, first_true f l = Some b /\
    (b = true <-> exists i, In i l /\ f i = Some true).
Proof.
  induction l as [|i l IH]; intros Htot.
  - exists false. split; [reflexivity|]. split; [discriminate|]. intros (i & [] & _).
  - cbn [first_true]. destruct (Htot i ltac:(left; reflexivity)) as [[|] Hi]; rewrite Hi.
    + exists true. split; [reflexivity|]. split; [|reflexivity].
      intros _. exists i. split; [left; reflexivity|exact Hi].
    + destruct IH as (b & E & Hb); [intros j Hj; apply Htot; right; exact Hj|].
      exists b. split; [exact E|]. rewrite Hb. split.
      * intros (j & Hj & Hfj). exists j. split; [right; exact Hj|exact Hfj].
      * intros (j & [<-|Hj] & Hfj); [congruence|]. exists j. split; assumption.
Qed.

(** *** Collisions *)

Lemma collide_cell_spec (b : Board) (p : ActivePiece) (r c : nat) :
  rect ROWS COLS b ->
  exists bo, collide_cell b p r c = Some bo /\ (bo = true <-> blocked_at b p r c).
Proof.
  intros Hrect. unfold collide_cell, blocked_at.
  destruct (truthy (read (shape p) r c)); cbn [negb];
    [|exists false; split; [reflexivity|]; split; [discriminate|intros [? _]; discriminate]].
  cbv zeta. set (cy := y p + Z.of_nat r). set (cx := x p + Z.of_nat c).
  rewrite !Z.geb_leb.
  destruct (Z.ltb_spec cx 0); cbn [orb];
    [exists true; split; [reflexivity|]; split; auto|].
  destruct (Z.leb_spec (Z.of_nat COLS) cx); cbn [orb];
    [exists true; split; [reflexivity|]; split; auto|].
  destruct (Z.leb_spec (Z.of_nat ROWS) cy); cbn [orb];
    [exists true; split; [reflexivity|]; split; auto|].
  destruct (Z.leb_spec 0 cy).
  - unfold read, mget. unfold Board, TetrisCell in *.
    destruct (b !! Z.to_nat cy) as [row|] eqn:Hrow.
    + eexists. split; [reflexivity|]. split.
      * intros E. split; [reflexivity|]. right. right. right. split; [lia|exact E].
      * intros [_ [?|[?|[?|[_ E]]]]]; try lia. exact E.
    + exfalso. apply lookup_ge_None in Hrow. destruct Hrect as [Hl _].
      rewrite Hl in Hrow. lia.
  - exists false. split; [reflexivity|]. split; [discriminate|].
    intros [_ [?|[?|[?|[? _]]]]]; lia.
Qed.

Lemma collide_blocked (b : Board) (p : ActivePiece) :
  rect ROWS COLS b ->
  exists bo, collide b p = Some bo /\
    (bo = true <->
     exists r c, (r < length (shape p))%nat /\ (c < width p)%nat /\ blocked_at b p r c).
Proof.
  intros Hrect. unfold collide. fold (width p).
  destruct (first_true_spec
              (fun r => first_true (fun c => collide_cell b p r c) (seq 0 (width p)))
              (seq 0 (length (shape p)))) as (bo & E & Hbo).
  { intros r _.
    destruct (first_true_spec (fun c => collide_cell b p r c) (seq 0 (width p)))
      as (b1 & E1 & _); [|eauto].
    intros c _. destruct (collide_cell_spec b p r c Hrect) as (b2 & E2 & _). eauto. }
  exists bo. split; [exact E|]. rewrite Hbo. split.
  - intros (r & Hr & Hf). apply in_seq in Hr.
    destruct (first_true_spec (fun c => collide_cell b p r c) (seq 0 (width p)))
      as (b1 & E1 & Hb1).
    { intros c _. destruct (collide_cell_spec b p r c Hrect) as (b2 & E2 & _). eauto. }
    rewrite E1 in Hf. injection Hf as ->.
    destruct (proj1 Hb1 eq_refl) as (c & Hc & Hcell). apply in_seq in Hc.
    destruct (collide_cell_spec b p r c Hrect) as (b2 & E2 & Hb2).
    rewrite E2 in Hcell. injection Hcell as ->.
    exists r, c. split; [lia|]. split; [lia|]. apply Hb2. reflexivity.
  - intros (r & c & Hr & Hc & Hblk). exists r. split; [apply in_seq; lia|].
    destruct (first_true_spec (fun c => collide_cell b p r c) (seq 0 (width p)))
      as (b1 & E1 & Hb1).
    { intros c' _. destruct (collide_cell_spec b p r c' Hrect) as (b2 & E2 & _). eauto. }
    rewrite E1. f_equal. apply Hb1. exists c. split; [apply in_seq; lia|].
    destruct (collide_cell_spec b p r c Hrect) as (b2 & E2 & Hb2).
    rewrite E2. f_equal. apply Hb2. exact Hblk.
Qed.

(** *** Merging *)

Lemma mset_checked_mset {A : Type} (R C : nat) (m : list (list A)) (i j : nat) (v : A) :
  rect R C m -> (i < R)%nat -> (j < C)%nat ->
  mset_checked m i j v = Some (mset m i j v).
Proof.
  intros [Hl Hr] Hi Hj. unfold mset_checked, mset.
  destruct (lookup_lt_is_Some_2 m i) as [row Hrow]; [lia|].
  rewrite Hrow.
  assert (length row = C) as Hlen by (rewrite Forall_lookup in Hr; eauto).
  rewrite decide_True by lia. f_equal.
  apply list_eq. intros k. destruct (decide (k = i)) as [->|Hne].
  - rewrite list_lookup_insert_eq by lia. rewrite list_lookup_alter_eq, Hrow. reflexivity.
  - rewrite list_lookup_insert_ne by congruence.
    rewrite list_lookup_alter_ne by congruence. reflexivity.
Qed.

Lemma merge_cell_upto (b : Board) (p : ActivePiece) (r c : nat) (copy : option Board) :
  (r < length (shape p))%nat -> (c < width p)%nat ->
  merged_upto b p r c copy -> merged_upto b p r (S c) (merge_cell p r c copy).
Proof.
  intros Hr Hc (m & -> & Hrect & Hcells). unfold merge_cell.
  destruct (truthy (read (shape p) r c)) eqn:Ht; cbn [negb].
  - set (cy := y p + Z.of_nat r). set (cx := x p + Z.of_nat c).
    assert (Hnew : forall i j, visited p r (S c) i j <->
              visited p r c i j \/ (Z.of_nat i = cy /\ Z.of_nat j = cx)).
    { intros i j. split.
      - intros (r' & c' & Hord & Hr' & Hc' & Ht' & Hi & Hj).
        destruct (decide (r' = r /\ c' = c)) as [[-> ->]|Hne]; [right; split; assumption|].
        left. exists r', c'. repeat split; try assumption. lia.
      - intros [(r' & c' & Hord & Hrest)|[Hi Hj]].
        + exists r', c'. split; [lia|exact Hrest].
        + exists r, c. repeat split; try assumption. lia. }
    destruct ((0 <=? cy) && (cy <? Z.of_nat ROWS) && (0 <=? cx) && (cx <? Z.of_nat COLS))
      eqn:Hin.
    + apply andb_true_iff in Hin. destruct Hin as [Hin H4].
      apply andb_true_iff in Hin. destruct Hin as [Hin H3].
      apply andb_true_iff in Hin. destruct Hin as [H1 H2].
      apply Z.leb_le in H1, H3. apply Z.ltb_lt in H2, H4.
      rewrite (mset_checked_mset ROWS COLS) by (assumption || lia).
      exists (mset m (Z.to_nat cy) (Z.to_nat cx) (Num (color p))).
      split; [reflexivity|]. split; [apply rect_mset; exact Hrect|].
      intros i j Hi Hj. rewrite (mget_mset ROWS COLS) by (assumption || lia).
      destruct (Hcells i j Hi Hj) as [Hv Hnv]. rewrite Hnew.
      case_decide as E.
      * split; [reflexivity|]. intros Hn. exfalso. apply Hn. right. lia.
      * split.
        -- intros [Hvis|[? ?]]; [apply Hv; exact Hvis|exfalso; apply E; lia].
        -- intros Hn. apply Hnv. tauto.
    + exists m. split; [reflexivity|]. split; [exact Hrect|].
      intros i j Hi Hj. destruct (Hcells i j Hi Hj) as [Hv Hnv]. rewrite Hnew.
      assert (Hout : ~ (Z.of_nat i = cy /\ Z.of_nat j = cx)).
      { intros [Ei Ej]. unfold ROWS, COLS in *.
        apply andb_false_iff in Hin. destruct Hin as [Hin|Hin];
          [apply andb_false_iff in Hin; destruct Hin as [Hin|Hin];
           [apply andb_false_iff in Hin; destruct Hin as [Hin|Hin]|]|].
        - apply Z.leb_gt in Hin. lia.
        - apply Z.ltb_ge in Hin. lia.
        - apply Z.leb_gt in Hin. lia.
        - apply Z.ltb_ge in Hin. lia. }
      split; [intros [Hvis|?]; [apply Hv; exact Hvis|contradiction]|].
      intros Hn. apply Hnv. tauto.
  - exists m. split; [reflexivity|]. split; [exact Hrect|].
    intros i j Hi Hj. destruct (Hcells i j Hi Hj) as [Hv Hnv].
    assert (Hsame : visited p r (S c) i j <-> visited p r c i j).
    { split.
      - intros (r' & c' & Hord & Hr' & Hc' & Ht' & Hrest).
        exists r', c'. split; [|repeat split; tauto].
        destruct (decide (r' = r /\ c' = c)) as [[-> ->]|Hne]; [congruence|lia].
      - intros (r' & c' & Hord & Hrest). exists r', c'. split; [lia|exact Hrest]. }
    rewrite Hsame. split; assumption.
Qed.

Lemma merged_upto_next_row (b : Board) (p : ActivePiece) (r : nat) (copy : option Board) :
  merged_upto b p r (width p) copy -> merged_upto b p (S r) O copy.
Proof.
  intros (m & -> & Hrect & Hcells). exists m. split; [reflexivity|]. split; [exact Hrect|].
  intros i j Hi Hj. destruct (Hcells i j Hi Hj) as [Hv Hnv].
  assert (Hsame : visited p (S r) O i j <-> visited p r (width p) i j).
  { split; intros (r' & c' & Hord & Hr' & Hc' & Hrest); exists r', c';
      (split; [lia|exact (conj Hr' (conj Hc' Hrest))]). }
  rewrite Hsame. split; assumption.
Qed.

(** The cells of the board that the piece covers. *)
Lemma visited_all (p : ActivePiece) (i j : nat) :
  visited p (length (shape p)) O i j <-> covers p i j.
Proof.
  unfold visited, covers. fold (width p). split.
  - intros (r & c & _ & Hr & Hc & Ht & Hi & Hj). exists r, c. auto 6.
  - intros (r & c & Ht & Hr & Hc & Hi & Hj). exists r, c.
    split; [left; exact Hr|]. auto 6.
Qed.

Lemma merge_total (b : Board) (p : ActivePiece) :
  rect ROWS COLS b ->
  exists m, merge b p = Some m /\ rect ROWS COLS m /\
    forall i j, (i < ROWS)%nat -> (j < COLS)%nat ->
      (covers p i j -> mget m i j = Some (Num (color p))) /\
      (~ covers p i j -> mget m i j = mget b i j).
Proof.
  intros Hrect. unfold merge. fold (width p).
  assert (H : merged_upto b p (length (shape p)) O
            (for_loop (length (shape p)) (fun r copy =>
               for_loop (width p) (fun c copy => merge_cell p r c copy) copy) (Some b))).
  { apply (for_loop_ind (fun r copy => merged_upto b p r O copy)).
    - exists b. split; [reflexivity|]. split; [exact Hrect|].
      intros i j _ _. split; [|reflexivity].
      intros (r & c & Hord & _). lia.
    - intros r copy Hr Hcopy. apply merged_upto_next_row.
      apply (for_loop_ind (fun c copy => merged_upto b p r c copy)); [exact Hcopy|].
      intros c copy' Hc Hcopy'. apply merge_cell_upto; assumption. }
  destruct H as (m & E & Hr & Hcells). exists m. split; [exact E|]. split; [exact Hr|].
  intros i j Hi Hj. rewrite <- visited_all. apply Hcells; assumption.
Qed.

(** *** Full rows after a merge *)

Lemma filter_window {A : Type} (f : A -> bool) (l : list A) (lo h : nat) :
  (forall i a, l !! i = Some a -> f a = true -> (lo <= i < lo + h)%nat) ->
  (length (List.filter f l) <= h)%nat.
Proof.
  revert lo h. induction l as [|a l IH]; intros lo h Hwin; [simpl; lia|].
  cbn [List.filter]. destruct (f a) eqn:Hfa.
  - pose proof (Hwin O a eq_refl Hfa) as H0.
    cbn [length]. specialize (IH O (h - 1)%nat).
    assert (length (List.filter f l) <= h - 1)%nat; [|lia].
    apply IH. intros i a' Hi Ha'. specialize (Hwin (S i) a' Hi Ha'). lia.
  - apply (IH (lo - 1)%nat h). intros i a' Hi Ha'.
    specialize (Hwin (S i) a' Hi Ha'). lia.
Qed.

Lemma row_ext (m b : Board) (i : nat) (rm rb : list TetrisCell) :
  rect ROWS COLS m -> rect ROWS COLS b ->
  m !! i = Some rm -> b !! i = Some rb ->
  (forall j, (j < COLS)%nat -> mget m i j = mget b i j) -> rm = rb.
Proof.
  intros [_ Hm] [_ Hb] Em Eb Hcells.
  rewrite Forall_lookup in Hm, Hb.
  pose proof (Hm _ _ Em) as Lm. pose proof (Hb _ _ Eb) as Lb.
  apply list_eq. intros j. destruct (decide (j < COLS)%nat) as [Hj|Hj].
  - specialize (Hcells j Hj). unfold mget in Hcells.
    unfold Board, TetrisCell in *. rewrite Em, Eb in Hcells. exact Hcells.
  - rewrite !lookup_ge_None_2 by lia. reflexivity.
Qed.

(** After a merge only rows that the piece touches can be full. *)
Lemma merge_full_rows (b m : Board) (p : ActivePiece) :
  rect ROWS COLS b -> Forall (fun row => full row = false) b -> 0 <= y p ->
  merge b p = Some m ->
  (length (List.filter full m) <= length (shape p))%nat.
Proof.
  intros Hrect Hnf Hy Hm.
  destruct (merge_total b p Hrect) as (m' & E & Hrm & Hcells).
  assert (m' = m) by congruence. subst m'.
  apply (filter_window full m (Z.to_nat (y p))).
  intros i rm Ei Hfull.
  assert (Hi : (i < ROWS)%nat).
  { destruct Hrm as [<- _]. eapply lookup_lt_Some. exact Ei. }
  destruct (lookup_lt_is_Some_2 b i) as [rb Eb]; [destruct Hrect as [-> _]; exact Hi|].
  assert (Hrb : full rb = false).
  { rewrite Forall_lookup in Hnf. exact (Hnf _ _ Eb). }
  destruct (decide (Z.to_nat (y p) <= i < Z.to_nat (y p) + length (shape p))%nat)
    as [Hin|Hout]; [exact Hin|].
  exfalso. assert (rm = rb); [|congruence].
  apply (row_ext m b i rm rb Hrm Hrect Ei Eb). intros j Hj.
  apply Hcells; [exact Hi|exact Hj|].
  intros (r & c & _ & Hr & _ & Hci & _). lia.
Qed.

(** *** The shapes in play *)

Lemma orbit_check :
  forallb (fun i =>
    forallb (fun sh =>
      (length sh <=? 4)%nat && has_cell_b sh &&
      match rotate sh with
      | Some sh' => bool_decide (sh' ∈ orbit i)
      | None => false
      end) (orbit i)) (seq 0 7) = true.
Proof. vm_compute. reflexivity. Qed.

Lemma orbit_facts (i : nat) (sh : PieceShape) :
  In sh (orbit i) ->
  (length sh <= 4)%nat /\ has_cell_b sh = true /\
  exists sh', rotate sh = Some sh' /\ In sh' (orbit i).
Proof.
  intros Hin. assert (Hi : (i < 7)%nat).
  { destruct (decide (i < 7)%nat) as [?|Hge]; [assumption|exfalso].
    unfold orbit in Hin. rewrite lookup_ge_None_2 in Hin by (simpl; lia). destruct Hin. }
  pose proof orbit_check as H. rewrite forallb_forall in H.
  specialize (H i ltac:(apply in_seq; lia)). rewrite forallb_forall in H.
  specialize (H sh Hin). apply andb_true_iff in H. destruct H as [H H3].
  apply andb_true_iff in H. destruct H as [H1 H2]. apply Nat.leb_le in H1.
  split; [exact H1|]. split; [exact H2|].
  destruct (rotate sh) as [sh'|]; [|discriminate].
  exists sh'. split; [reflexivity|]. apply bool_decide_eq_true_1 in H3.
  apply list_elem_of_In. exact H3.
Qed.

Lemma has_cell_spec (p : ActivePiece) :
  has_cell_b (shape p) = true ->
  exists r c, (r < length (shape p))%nat /\ (c < width p)%nat /\
    truthy (read (shape p) r c) = true.
Proof.
  unfold has_cell_b. fold (width p). rewrite existsb_exists.
  intros (r & Hr & Hc). rewrite existsb_exists in Hc. destruct Hc as (c & Hc & Ht).
  apply in_seq in Hr, Hc. exists r, c. repeat split; (lia || assumption).
Qed.

Lemma collide_ext (b : Board) (p q : ActivePiece) :
  shape p = shape q -> x p = x q -> y p = y q -> collide b p = collide b q.
Proof.
  destruct p, q. cbn. intros -> -> ->. reflexivity.
Qed.

(** A piece that does not collide has its set cells on the board or
    above it. *)
Lemma free_cell_above_floor (b : Board) (p : ActivePiece) (r c : nat) :
  rect ROWS COLS b -> collide b p = Some false ->
  (r < length (shape p))%nat -> (c < width p)%nat ->
  truthy (read (shape p) r c) = true ->
  y p + Z.of_nat r < Z.of_nat ROWS /\ 0 <= x p + Z.of_nat c < Z.of_nat COLS /\
  (0 <= y p + Z.of_nat r ->
   read b (Z.to_nat (y p + Z.of_nat r)) (Z.to_nat (x p + Z.of_nat c)) = Num 0).
Proof.
  intros Hrect Hfree Hr Hc Ht.
  destruct (collide_blocked b p Hrect) as (bo & E & Hbo).
  assert (bo = false) by congruence. subst bo.
  assert (Hnot : ~ blocked_at b p r c).
  { intros Hb. assert (false = true); [|discriminate].
    apply Hbo. exists r, c. auto. }
  unfold blocked_at in Hnot. cbv zeta in Hnot.
  split; [|split].
  - destruct (decide (y p + Z.of_nat r < Z.of_nat ROWS)); [assumption|].
    exfalso. apply Hnot. split; [exact Ht|]. right. right. left. lia.
  - destruct (decide (0 <= x p + Z.of_nat c < Z.of_nat COLS)); [assumption|].
    exfalso. apply Hnot. split; [exact Ht|].
    destruct (decide (x p + Z.of_nat c < 0)); [left; assumption|right; left; lia].
  - intros Hy.
    destruct (read b _ _) as [z| |] eqn:Hread.
    + destruct (Z.eq_dec z 0) as [->|Hz]; [reflexivity|].
      exfalso. apply Hnot. split; [exact Ht|]. right. right. right.
      split; [exact Hy|]. simpl. apply negb_true_iff, Z.eqb_neq. exact Hz.
    + exfalso. apply Hnot. split; [exact Ht|]. right. right. right.
      split; [exact Hy|]. reflexivity.
    + exfalso. apply Hnot. split; [exact Ht|]. right. right. right.
      split; [exact Hy|]. reflexivity.
Qed.

(** *** Falling *)

Lemma fall_lands (fuel : nat) (b : Board) (p : ActivePiece) :
  rect ROWS COLS b -> has_cell_b (shape p) = true -> collide b p = Some false ->
  (Z.to_nat (Z.of_nat ROWS - y p) < fuel)%nat ->
  exists landed, fall fuel b p = Snake.Done landed /\ landing b p landed.
Proof.
  intros Hrect Hcell. revert p Hcell.
  induction fuel as [|fuel IH]; intros p Hcell Hfree Hfuel; [lia|].
  cbn [fall].
  destruct (collide_blocked b (set_y (y p + 1) p) Hrect) as ([|] & E & _); rewrite E.
  - exists p. split; [reflexivity|]. repeat split; try reflexivity; try lia; try assumption.
    intros yy Hyy. assert (yy = y p) by lia. subst yy.
    rewrite <- Hfree. apply collide_ext; reflexivity.
  - destruct (has_cell_spec (set_y (y p + 1) p) Hcell) as (r & c & Hr & Hc & Ht).
    destruct (free_cell_above_floor b (set_y (y p + 1) p) r c Hrect E Hr Hc Ht) as (Hlow & _).
    cbn [y set_y] in Hlow. unfold ROWS in *.
    destruct (IH (set_y (y p + 1) p) Hcell E) as (landed & Ef & Hl).
    { cbn [y set_y]. lia. }
    exists landed. split; [exact Ef|].
    destruct Hl as (H1 & H2 & H3 & H4 & H5 & H6 & H7 & H8). cbn in H1, H2, H3, H4, H5.
    repeat split; try assumption; try lia.
    intros yy Hyy. destruct (decide (yy = y p)) as [->|Hne].
    + rewrite <- Hfree. apply collide_ext; reflexivity.
    + rewrite <- (H8 yy) by (cbn; lia). apply collide_ext; reflexivity.
Qed.

(** A shape without a set cell never collides, so the loop does not end. *)
Lemma fall_forever (fuel : nat) (b : Board) (p : ActivePiece) :
  rect ROWS COLS b -> has_cell_b (shape p) = false ->
  fall fuel b p = Snake.Unfinished.
Proof.
  intros Hrect Hno. revert p Hno. induction fuel as [|fuel IH]; intros p Hno; [reflexivity|].
  cbn [fall].
  destruct (collide_blocked b (set_y (y p + 1) p) Hrect) as ([|] & E & Hbo); rewrite E.
  - exfalso. destruct (proj1 Hbo eq_refl) as (r & c & Hr & Hc & Ht & _).
    cbn [shape set_y] in *.
    assert (has_cell_b (shape p) = true); [|congruence].
    unfold has_cell_b. apply existsb_exists. exists r. split; [apply in_seq; lia|].
    apply existsb_exists. exists c. split; [apply in_seq; unfold width in Hc; cbn in Hc; lia|].
    exact Ht.
  - apply IH. exact Hno.
Qed.

(** *** The invariant *)

Ltac gfields :=
  cbn [board piece stats running gameOver nextIdx holdIdx canHold gen
       set_board set_piece set_stats set_running set_gameOver set_nextIdx
       set_holdIdx set_canHold set_gen gameEnds] in *.

Lemma randomIndex_lt (g : rng) : ((randomIndex g).1 < length SHAPES)%nat.
Proof.
  unfold randomIndex. cbn [random fst].
  pose proof (floor_mul_range (draws g (cursor g)) 7 ltac:(lia)) as H.
  change (Z.of_nat (length SHAPES)) with 7. change (length SHAPES) with 7%nat. lia.
Qed.

Lemma orbit_idx (i : nat) (sh : PieceShape) : In sh (orbit i) -> (i < length SHAPES)%nat.
Proof.
  intros Hin. destruct (decide (i < length SHAPES)%nat) as [?|Hge]; [assumption|exfalso].
  unfold orbit in Hin. rewrite lookup_ge_None_2 in Hin by lia. destruct Hin.
Qed.

Lemma buildPiece_ok (i : nat) :
  (i < length SHAPES)%nat ->
  exists p, buildPiece i = Some p /\ In (shape p) (orbit i) /\ idx p = i /\
    color p = Z.of_nat i + 1 /\ y p = 0 /\ collide emptyBoard p = Some false.
Proof.
  intros Hi.
  do 7 (destruct i as [|i];
        [eexists; split; [reflexivity|]; split; [left; reflexivity|];
         repeat split; vm_compute; reflexivity|]).
  simpl in Hi. lia.
Qed.

Lemma emptyRow_not_full : full emptyRow = false.
Proof. reflexivity. Qed.

Lemma clearLines_clean (m : Board) :
  rect ROWS COLS m ->
  rect ROWS COLS (Tetris.board (clearLines m)) /\
  Forall (fun row => full row = false) (Tetris.board (clearLines m)) /\
  linesCleared (clearLines m) = length (List.filter full m).
Proof.
  intros [Hl Hrows]. rewrite clearLines_eq by lia. cbn [Tetris.board linesCleared].
  set (kept := List.filter (fun row => negb (full row)) m).
  assert (Hk : (length kept <= ROWS)%nat).
  { pose proof (filter_split_length full m). fold kept in H. lia. }
  assert (Hkept : Forall (fun row => length row = COLS /\ full row = false) kept).
  { apply Forall_forall. intros row Hin. apply list_elem_of_In in Hin.
    apply filter_In in Hin. destruct Hin as [Hin Hnf].
    rewrite Forall_forall in Hrows. split.
    - apply Hrows. apply list_elem_of_In. exact Hin.
    - apply negb_true_iff. exact Hnf. }
  split; [|split; [|reflexivity]].
  - split.
    + rewrite length_app, length_replicate. lia.
    + apply Forall_app. split.
      * apply Forall_replicate. apply length_replicate.
      * eapply Forall_impl; [exact Hkept|]. intros row [H _]. exact H.
  - apply Forall_app. split.
    + apply Forall_replicate. apply emptyRow_not_full.
    + eapply Forall_impl; [exact Hkept|]. intros row [_ H]. exact H.
Qed.

Lemma addScoreAndLevel_good (n : nat) (st : TetrisStats) :
  goodStats st -> (n <= 4)%nat ->
  goodStats (if decide (n = O) then st else addScoreAndLevel n st) /\
  exists z, score st = Num z /\
    (if decide (n = O) then st else addScoreAndLevel n st) =
      (if decide (n = O) then st
       else mkStats (Num (z + tablePoints n)) (lines st + Z.of_nat n)
                    (Z.min 10 (1 + (lines st + Z.of_nat n) / 10))).
Proof.
  intros ((z & Hz & Hz0) & Hl & Hlv) Hn.
  split; [|exists z; split; [exact Hz|]].
  - case_decide as E; [repeat split; eauto|].
    rewrite (addScoreAndLevel_table n st z Hz) by lia.
    split; [|split]; cbn [score lines level].
    + eexists. split; [reflexivity|].
      destruct n as [|[|[|[|[|n]]]]]; simpl; lia.
    + lia.
    + reflexivity.
  - case_decide as E; [reflexivity|].
    apply (addScoreAndLevel_table n st z Hz). lia.
Qed.

(** A lock on a board without full rows. *)
Lemma lock_ok (b : Board) (p : ActivePiece) (st : TetrisStats) :
  rect ROWS COLS b -> Forall (fun row => full row = false) b ->
  goodPiece b p -> goodStats st ->
  exists m cl st', merge b p = Some m /\ cl = clearLines m /\
    lock b p st = Some (cl, st') /\
    rect ROWS COLS (Tetris.board cl) /\
    Forall (fun row => full row = false) (Tetris.board cl) /\
    (linesCleared cl <= 4)%nat /\ goodStats st' /\
    exists z, score st = Num z /\
      st' = (if decide (linesCleared cl = O) then st
             else mkStats (Num (z + tablePoints (linesCleared cl)))
                          (lines st + Z.of_nat (linesCleared cl))
                          (Z.min 10 (1 + (lines st + Z.of_nat (linesCleared cl)) / 10))).
Proof.
  intros Hrect Hnf (Hfree & Horb & Hcol & Hy) Hst.
  destruct (merge_total b p Hrect) as (m & Em & Hrm & _).
  destruct (clearLines_clean m Hrm) as (Hrc & Hnfc & Hcount).
  pose proof (merge_full_rows b m p Hrect Hnf Hy Em) as Hfull.
  destruct (orbit_facts _ _ Horb) as (Hlen & _).
  assert (Hn : (linesCleared (clearLines m) <= 4)%nat) by lia.
  destruct (addScoreAndLevel_good _ st Hst Hn) as (Hgood & z & Hz & Heq).
  exists m, (clearLines m), (if decide (linesCleared (clearLines m) = O) then st
                  else addScoreAndLevel (linesCleared (clearLines m)) st).
  split; [exact Em|]. split; [reflexivity|].
  split; [unfold lock; rewrite Em; reflexivity|].
  split; [exact Hrc|]. split; [exact Hnfc|]. split; [exact Hn|]. split; [exact Hgood|].
  exists z. split; [exact Hz|exact Heq].
Qed.

(** [spawn] on a board of the right size. *)
Lemma spawn_ok (b : Board) (s : Game) :
  rect ROWS COLS b -> (nextIdx s < length SHAPES)%nat ->
  exists current np s2, buildPiece (nextIdx s) = Some current /\
    spawn b s = Some (np, s2) /\
    board s2 = board s /\ piece s2 = piece s /\ stats s2 = stats s /\
    running s2 = running s /\ gameOver s2 = gameOver s /\ holdIdx s2 = holdIdx s /\
    (nextIdx s2 < length SHAPES)%nat /\
    match np with
    | Some q => q = current /\ goodPiece b q /\ canHold s2 = true
    | None => collide b current = Some true /\ canHold s2 = canHold s
    end.
Proof.
  intros Hrect Hn.
  destruct (buildPiece_ok (nextIdx s) Hn) as (cur & Eb & Horb & Hidx & Hcol & Hy & _).
  unfold spawn. rewrite Eb.
  pose proof (randomIndex_lt (gen s)) as Hlt.
  destruct (randomIndex (gen s)) as [next g]. cbn [fst] in Hlt.
  destruct (collide_blocked b cur Hrect) as ([|] & Ec & _); rewrite Ec.
  - exists cur, None. eexists. split; [reflexivity|]. split; [reflexivity|]. gfields.
    repeat split; try reflexivity; assumption.
  - exists cur, (Some cur). eexists. split; [reflexivity|]. split; [reflexivity|]. gfields.
    do 6 (split; [reflexivity|]). split; [exact Hlt|].
    split; [reflexivity|]. split; [|reflexivity].
    split; [exact Ec|]. rewrite Hidx. split; [exact Horb|]. split; [exact Hcol|lia].
Qed.

Lemma Inv_piece_good (s : Game) (p : ActivePiece) :
  Inv s -> piece s = Some p -> goodPiece (board s) p.
Proof. intros HI Hp. exact (inv_piece s HI p Hp). Qed.

Lemma Inv_stats_good (s : Game) : Inv s -> goodStats (stats s).
Proof.
  intros HI. split; [exact (inv_score s HI)|].
  split; [exact (inv_lines s HI)|exact (inv_level s HI)].
Qed.

(** A landed piece: merge, clear, score and spawn keep the invariant. *)
Lemma lockAndSpawn_ok (p : ActivePiece) (s : Game) :
  Inv s -> gameOver s = false -> goodPiece (board s) p ->
  exists s', lockAndSpawn p s = Some s' /\ Inv s'.
Proof.
  intros HI Hover Hp.
  destruct (lock_ok (board s) p (stats s) (inv_board s HI) (inv_rows s HI) Hp
              (Inv_stats_good s HI))
    as (m & cl & st' & _ & _ & El & Hrc & Hnfc & _ & ((z & Hz & Hz0) & Hl & Hlv) & _).
  destruct (spawn_ok (Tetris.board cl) (set_stats st' s) Hrc (inv_next s HI))
    as (cur & np & s2 & _ & Es & S1 & S2 & S3 & S4 & S5 & S6 & S7 & Hnp).
  unfold lockAndSpawn. rewrite El, Es. gfields.
  destruct np as [q|].
  - destruct Hnp as (_ & Hq & _). eexists. split; [reflexivity|].
    split; gfields; rewrite ?S3; gfields; try assumption.
    + eauto.
    + rewrite S6. exact (inv_hold s HI).
    + intros p0 [= <-]. exact Hq.
    + rewrite S5, Hover. discriminate.
  - eexists. split; [reflexivity|].
    split; gfields; rewrite ?S3; gfields; try assumption.
    + eauto.
    + rewrite S6. exact (inv_hold s HI).
    + discriminate.
    + auto.
Qed.

Lemma Inv_set_piece (s : Game) (q : ActivePiece) :
  Inv s -> gameOver s = false -> goodPiece (board s) q -> Inv (set_piece (Some q) s).
Proof.
  intros HI Hover Hq. split; gfields.
  - exact (inv_board s HI).
  - exact (inv_rows s HI).
  - exact (inv_score s HI).
  - exact (inv_lines s HI).
  - exact (inv_level s HI).
  - exact (inv_next s HI).
  - exact (inv_hold s HI).
  - intros p0 [= <-]. exact Hq.
  - rewrite Hover. discriminate.
Qed.

Lemma tryMove_ok (moved : ActivePiece) (s : Game) :
  Inv s -> gameOver s = false ->
  In (shape moved) (orbit (idx moved)) -> color moved = Z.of_nat (idx moved) + 1 ->
  0 <= y moved ->
  exists s', tryMove moved s = Snake.Done s' /\ Inv s' /\
    (s' = s \/ (s' = set_piece (Some moved) s /\ collide (board s) moved = Some false)).
Proof.
  intros HI Hover Horb Hcol Hy. unfold tryMove.
  destruct (collide_blocked (board s) moved (inv_board s HI)) as ([|] & E & _); rewrite E.
  - exists s. split; [reflexivity|]. split; [exact HI|left; reflexivity].
  - eexists. split; [reflexivity|]. split; [|right; split; reflexivity].
    apply Inv_set_piece; [exact HI|exact Hover|]. repeat split; assumption.
Qed.

Lemma tick_ok (s : Game) :
  Inv s -> exists s', tick s = Some s' /\ Inv s'.
Proof.
  intros HI. unfold tick.
  destruct (negb (running s) || gameOver s) eqn:Hguard; [eauto|].
  apply orb_false_iff in Hguard. destruct Hguard as [_ Hover].
  destruct (piece s) as [prev|] eqn:Hp; [|eauto].
  pose proof (Inv_piece_good s prev HI Hp) as Hgood.
  destruct (collide_blocked (board s) (set_y (y prev + 1) prev) (inv_board s HI))
    as ([|] & E & _); rewrite E.
  - apply lockAndSpawn_ok; assumption.
  - eexists. split; [reflexivity|].
    apply Inv_set_piece; [exact HI|exact Hover|].
    destruct Hgood as (_ & Horb & Hcol & Hy).
    split; [exact E|]. cbn. repeat split; (assumption || lia).
Qed.

(** [fall] on a free piece of a shape in play: it lands, or the fuel
    was too small. *)
Lemma fall_cases (fuel : nat) (b : Board) (p : ActivePiece) :
  rect ROWS COLS b -> has_cell_b (shape p) = true -> collide b p = Some false ->
  (exists landed, fall fuel b p = Snake.Done landed /\ landing b p landed) \/
  (fall fuel b p = Snake.Unfinished /\ (fuel <= Z.to_nat (Z.of_nat ROWS - y p))%nat).
Proof.
  intros Hrect Hcell Hfree.
  destruct (decide (Z.to_nat (Z.of_nat ROWS - y p) < fuel)%nat) as [Hbig|Hsmall].
  - left. apply fall_lands; assumption.
  - revert p Hcell Hfree Hsmall. induction fuel as [|fuel IH]; intros p Hcell Hfree Hsmall.
    + right. split; [reflexivity|lia].
    + cbn [fall].
      destruct (collide_blocked b (set_y (y p + 1) p) Hrect) as ([|] & E & _); rewrite E.
      * left. exists p. split; [reflexivity|].
        repeat split; try reflexivity; try lia; try assumption.
        intros yy Hyy. assert (yy = y p) by lia. subst yy.
        rewrite <- Hfree. apply collide_ext; reflexivity.
      * destruct (IH (set_y (y p + 1) p) Hcell E) as [(landed & Ef & Hl)|[Ef Hf]].
        { cbn [y set_y]. lia. }
        -- left. exists landed. split; [exact Ef|].
           destruct Hl as (H1 & H2 & H3 & H4 & H5 & H6 & H7 & H8).
           cbn in H1, H2, H3, H4, H5. repeat split; try assumption; try lia.
           intros yy Hyy. destruct (decide (yy = y p)) as [->|Hne].
           ++ rewrite <- Hfree. apply collide_ext; reflexivity.
           ++ rewrite <- (H8 yy) by (cbn; lia). apply collide_ext; reflexivity.
        -- right. split; [exact Ef|]. lia.
Qed.

Lemma landing_good (b : Board) (p landed : ActivePiece) :
  goodPiece b p -> landing b p landed -> goodPiece b landed.
Proof.
  intros (_ & Horb & Hcol & Hy) (H1 & H2 & H3 & H4 & H5 & H6 & _).
  split; [exact H6|]. rewrite H1, H4, H3. repeat split; (assumption || lia).
Qed.

Lemma startGame_ok (s : Game) : exists s', startGame s = Some s' /\ Inv s'.
Proof.
  unfold startGame.
  pose proof (randomIndex_lt (gen s)) as Hn.
  destruct (randomIndex (gen s)) as [n g1]. cbn [fst] in Hn.
  pose proof (randomIndex_lt g1) as Hf.
  destruct (randomIndex g1) as [f g2]. cbn [fst] in Hf.
  destruct (buildPiece_ok f Hf) as (first & Eb & Horb & Hidx & Hcol & Hy & Hfree).
  rewrite Eb. eexists. split; [reflexivity|]. split; gfields.
  - apply rect_replicate.
  - apply Forall_replicate. reflexivity.
  - exists 0. split; [reflexivity|lia].
  - cbn. lia.
  - reflexivity.
  - exact Hn.
  - discriminate.
  - intros p0 [= <-]. split; [exact Hfree|]. rewrite Hidx. repeat split; (assumption || lia).
  - discriminate.
Qed.

Lemma doHold_ok (s : Game) :
  Inv s -> gameOver s = false -> exists s', doHold s = Some s' /\ Inv s'.
Proof.
  intros HI Hover. unfold doHold.
  destruct (piece s) as [prev|] eqn:Hp; [|eauto].
  destruct (canHold s); cbn [negb]; [|eauto].
  pose proof (Inv_piece_good s prev HI Hp) as (_ & Horb & _).
  pose proof (orbit_idx _ _ Horb) as Hidx.
  destruct (holdIdx s) as [h|] eqn:Hh.
  - destruct (buildPiece_ok h (inv_hold s HI h Hh)) as (sw & Eb & Hso & Hsi & Hsc & Hsy & _).
    rewrite Eb.
    destruct (collide_blocked (board s) sw (inv_board s HI)) as ([|] & E & _); rewrite E.
    + eexists. split; [reflexivity|]. split; gfields;
        try (first [exact (inv_board s HI)|exact (inv_rows s HI)|exact (inv_score s HI)
                   |exact (inv_lines s HI)|exact (inv_level s HI)|exact (inv_next s HI)]).
      * intros h0 [= <-]. exact Hidx.
      * discriminate.
      * auto.
    + eexists. split; [reflexivity|]. split; gfields;
        try (first [exact (inv_board s HI)|exact (inv_rows s HI)|exact (inv_score s HI)
                   |exact (inv_lines s HI)|exact (inv_level s HI)|exact (inv_next s HI)]).
      * intros h0 [= <-]. exact Hidx.
      * intros p0 [= <-]. split; [exact E|]. rewrite Hsi.
        repeat split; (assumption || lia).
      * rewrite Hover. discriminate.
  - destruct (spawn_ok (board s) (set_holdIdx (Some (idx prev)) (set_canHold false s))
                (inv_board s HI) (inv_next s HI))
      as (cur & np & s2 & _ & Es & S1 & S2 & S3 & S4 & S5 & S6 & S7 & Hnp).
    rewrite Es. gfields.
    destruct np as [q|].
    + destruct Hnp as (_ & Hq & _). eexists. split; [reflexivity|].
      split; gfields; rewrite ?S1, ?S3.
      * exact (inv_board s HI).
      * exact (inv_rows s HI).
      * exact (inv_score s HI).
      * exact (inv_lines s HI).
      * exact (inv_level s HI).
      * exact S7.
      * rewrite S6. intros h0 [= <-]. exact Hidx.
      * intros p0 [= <-]. exact Hq.
      * rewrite S5, Hover. discriminate.
    + eexists. split; [reflexivity|].
      split; gfields; rewrite ?S1, ?S3.
      * exact (inv_board s HI).
      * exact (inv_rows s HI).
      * exact (inv_score s HI).
      * exact (inv_lines s HI).
      * exact (inv_level s HI).
      * exact S7.
      * rewrite S6. intros h0 [= <-]. exact Hidx.
      * discriminate.
      * auto.
Qed.

Lemma handleKey_ok (fuel : nat) (k : Key) (s : Game) :
  Inv s ->
  (exists s', handleKey fuel k s = Snake.Done s' /\ Inv s') \/
  (handleKey fuel k s = Snake.Unfinished /\ k = Space /\ (fuel <= ROWS)%nat).
Proof.
  intros HI. unfold handleKey.
  destruct (piece s) as [p|] eqn:Hp; [|left; eauto].
  destruct (negb (running s) || gameOver s) eqn:Hguard; [left; eauto|].
  apply orb_false_iff in Hguard. destruct Hguard as [_ Hover].
  pose proof (Inv_piece_good s p HI Hp) as Hgood.
  pose proof Hgood as (Hfree & Horb & Hcol & Hy).
  destruct k.
  - left. destruct (tryMove_ok (set_x (x p - 1) p) s HI Hover) as (s' & E & HI' & _); eauto.
  - left. destruct (tryMove_ok (set_x (x p + 1) p) s HI Hover) as (s' & E & HI' & _); eauto.
  - left. destruct (tryMove_ok (set_y (y p + 1) p) s HI Hover) as (s' & E & HI' & _);
      cbn; eauto; lia.
  - left. destruct (orbit_facts _ _ Horb) as (_ & _ & sh & Er & Hsh). rewrite Er.
    destruct (tryMove_ok (set_shape sh p) s HI Hover) as (s' & E & HI' & _); eauto.
  - destruct (orbit_facts _ _ Horb) as (_ & Hcell & _).
    destruct (fall_cases fuel (board s) p (inv_board s HI) Hcell Hfree)
      as [(landed & Ef & Hl)|[Ef Hf]].
    + left. rewrite Ef.
      destruct (lockAndSpawn_ok landed s HI Hover (landing_good _ _ _ Hgood Hl))
        as (s' & E & HI').
      rewrite E. eauto.
    + right. rewrite Ef. split; [reflexivity|]. split; [reflexivity|]. unfold ROWS in *. lia.
  - left. eexists. split; [reflexivity|]. split; gfields.
    + exact (inv_board s HI).
    + exact (inv_rows s HI).
    + exact (inv_score s HI).
    + exact (inv_lines s HI).
    + exact (inv_level s HI).
    + exact (inv_next s HI).
    + exact (inv_hold s HI).
    + exact (inv_piece s HI).
    + rewrite Hover. discriminate.
  - left. destruct (doHold_ok s HI Hover) as (s' & E & HI'). rewrite E. eauto.
  - left. eauto.
Qed.

Lemma initial_Inv (g : rng) : Inv (initial g).
Proof.
  unfold initial. pose proof (randomIndex_lt g) as Hn.
  destruct (randomIndex g) as [n g']. cbn [fst] in Hn. split; gfields.
  - apply rect_replicate.
  - apply Forall_replicate. reflexivity.
  - exists 0. split; [reflexivity|lia].
  - cbn. lia.
  - reflexivity.
  - exact Hn.
  - discriminate.
  - discriminate.
  - discriminate.
Qed.

Lemma Inv_set_running (r : bool) (s : Game) :
  Inv s -> gameOver s = false -> Inv (set_running r s).
Proof.
  intros HI Hover. split; gfields.
  - exact (inv_board s HI).
  - exact (inv_rows s HI).
  - exact (inv_score s HI).
  - exact (inv_lines s HI).
  - exact (inv_level s HI).
  - exact (inv_next s HI).
  - exact (inv_hold s HI).
  - exact (inv_piece s HI).
  - rewrite Hover. discriminate.
Qed.

(** Every event either completes in a state that satisfies the
    invariant, or it is a hard drop that ran out of fuel. *)
Lemma step_ok (fuel : nat) (e : Event) (s : Game) :
  Inv s ->
  (exists s', step fuel e s = Snake.Done s' /\ Inv s') \/
  (step fuel e s = Snake.Unfinished /\ e = KeyDown Space /\ (fuel <= ROWS)%nat).
Proof.
  intros HI. destruct e as [|k| | |]; cbn [step].
  - left. destruct (running s && negb (gameOver s)); [|eauto].
    destruct (tick_ok s HI) as (s' & E & HI'). rewrite E. eauto.
  - destruct (handleKey_ok fuel k s HI) as [H|(E & -> & Hf)]; [left; exact H|].
    right. auto.
  - left. eexists. split; [reflexivity|].
    destruct (running s) eqn:Hr; [|exact HI].
    apply Inv_set_running; [exact HI|].
    destruct (gameOver s) eqn:Ho; [|reflexivity].
    destruct (inv_over s HI Ho) as [Hr' _]. congruence.
  - left. eexists. split; [reflexivity|].
    destruct (negb (running s) && negb (gameOver s)) eqn:Hg; [|exact HI].
    apply andb_true_iff in Hg. destruct Hg as [_ Ho]. apply negb_true_iff in Ho.
    apply Inv_set_running; assumption.
  - left. destruct (startGame_ok s) as (s' & E & HI'). rewrite E. eauto.
Qed.

Lemma tetris_reachable_Inv (s : Game) : reachable s -> Inv s.
Proof.
  induction 1 as [g|fuel e s s' _ IH Hstep]; [apply initial_Inv|].
  destruct (step_ok fuel e s IH) as [(s0 & E & HI)|(E & _)]; congruence.
Qed.

(** What a lock leaves: the cleared board and the new statistics. *)
Lemma lockAndSpawn_detail (p : ActivePiece) (s : Game) :
  Inv s -> gameOver s = false -> goodPiece (board s) p ->
  exists m z s', merge (board s) p = Some m /\ score (stats s) = Num z /\
    lockAndSpawn p s = Some s' /\
    (length (List.filter full m) <= 4)%nat /\
    board s' = Tetris.board (clearLines m) /\
    stats s' = mkStats (Num (z + tablePoints (length (List.filter full m))))
                       (lines (stats s) + Z.of_nat (length (List.filter full m)))
                       (Z.min 10 (1 + (lines (stats s)
                                       + Z.of_nat (length (List.filter full m))) / 10)) /\
    holdIdx s' = holdIdx s /\
    ((piece s' = buildPiece (nextIdx s) /\ gameOver s' = false /\ running s' = running s /\
      canHold s' = true) \/
     (piece s' = None /\ gameOver s' = true /\ running s' = false)).
Proof.
  intros HI Hover Hp.
  destruct (lock_ok (board s) p (stats s) (inv_board s HI) (inv_rows s HI) Hp
              (Inv_stats_good s HI))
    as (m & cl & st' & Em & -> & El & Hrc & _ & Hn & _ & z & Hz & Hst).
  destruct (clearLines_clean m) as (_ & _ & Hcount).
  { destruct (merge_total (board s) p (inv_board s HI)) as (m' & E' & Hr' & _). congruence. }
  destruct (spawn_ok (Tetris.board (clearLines m)) (set_stats st' s) Hrc (inv_next s HI))
    as (cur & np & s2 & Ecur & Es & S1 & S2 & S3 & S4 & S5 & S6 & S7 & Hnp).
  gfields.
  assert (Hstats : st' = mkStats (Num (z + tablePoints (length (List.filter full m))))
                       (lines (stats s) + Z.of_nat (length (List.filter full m)))
                       (Z.min 10 (1 + (lines (stats s)
                                       + Z.of_nat (length (List.filter full m))) / 10))).
  { rewrite Hst, <- Hcount.
    destruct (decide (linesCleared (clearLines m) = O)) as [E0|E0]; [|reflexivity].
    rewrite E0. cbn [tablePoints Z.of_nat]. rewrite !Z.add_0_r.
    rewrite <- (inv_level s HI), <- Hz. destruct (stats s); reflexivity. }
  exists m, z. unfold lockAndSpawn. rewrite El, Es.
  destruct np as [q|].
  - destruct Hnp as (-> & _ & Hc). eexists. split; [exact Em|]. split; [exact Hz|].
    split; [reflexivity|]. split; [lia|]. gfields.
    split; [reflexivity|]. split; [rewrite S3; exact Hstats|]. split; [exact S6|].
    left. rewrite Ecur, S5, S4. auto.
  - eexists. split; [exact Em|]. split; [exact Hz|].
    split; [reflexivity|]. split; [lia|]. gfields.
    split; [reflexivity|]. split; [rewrite S3; exact Hstats|]. split; [exact S6|].
    right. auto.
Qed.

Lemma tetris_demo_started_reachable : reachable demo_started.
Proof.
  apply (reachable_step 0 StartButton (initial demo_rng)); [apply reachable_initial|].
  vm_compute. reflexivity.
Defined.

Lemma tetris_demo_dropped_reachable : reachable demo_dropped.
Proof.
  apply (reachable_step 30 (KeyDown Space) demo_started);
    [apply tetris_demo_started_reachable|].
  vm_compute. reflexivity.
Defined.

(** X22. On a board of 20 rows of 10 cells [collide] never throws, and
    it answers [true] exactly when some set cell of the shape lies left
    or right of the board, below it, or on a cell of the board that is
    not [0].  Cells above the board never collide: a piece whose set
    cells are all above the top row and between the side walls is free. *)
Theorem collide_spec (b : Board) (p : ActivePiece) :
  rect ROWS COLS b ->
  exists bo, collide b p = Some bo /\
    (bo = true <->
     exists r c, (r < length (shape p))%nat /\ (c < width p)%nat /\ blocked_at b p r c) /\
    ((forall r c, (r < length (shape p))%nat -> (c < width p)%nat ->
        truthy (read (shape p) r c) = true ->
        y p + Z.of_nat r < 0 /\ 0 <= x p + Z.of_nat c < Z.of_nat COLS) ->
     bo = false).
Proof.
  intros Hrect. destruct (collide_blocked b p Hrect) as (bo & E & Hbo).
  exists bo. split; [exact E|]. split; [exact Hbo|].
  intros Habove. destruct bo; [exfalso|reflexivity].
  destruct (proj1 Hbo eq_refl) as (r & c & Hr & Hc & Ht & Hblk).
  destruct (Habove r c Hr Hc Ht) as [Hy Hx]. cbv zeta in Hblk.
  unfold ROWS, COLS in *. lia.
Qed.

Lemma collide_spec_witness :
  collide emptyBoard (mkPiece [[Num 1; Num 1]; [Num 1; Num 1]] 4 0 2 1) = Some false /\
  collide emptyBoard (mkPiece [[Num 1; Num 1]; [Num 1; Num 1]] 4 19 2 1) = Some true /\
  exists bo, collide emptyBoard (mkPiece [[Num 1; Num 1]; [Num 1; Num 1]] 9 (-5) 2 1)
             = Some bo.
Proof.
  split; [reflexivity|]. split; [reflexivity|].
  destruct (collide_spec emptyBoard (mkPiece [[Num 1; Num 1]; [Num 1; Num 1]] 9 (-5) 2 1))
    as (bo & E & _).
  - apply rect_replicate.
  - exists bo. exact E.
Defined.

(** X23. On a board of 20 rows of 10 cells [merge] never throws and
    gives a board of the same size on which exactly the cells covered by
    set cells of the piece carry the colour of the piece; every other
    cell is as before.  When the piece does not collide, every cell it
    covers was [0]: a lock never overwrites the stack. *)
Theorem merge_spec (b : Board) (p : ActivePiece) :
  rect ROWS COLS b ->
  exists m, merge b p = Some m /\ rect ROWS COLS m /\
    (forall i j, (i < ROWS)%nat -> (j < COLS)%nat ->
       (covers p i j -> mget m i j = Some (Num (color p))) /\
       (~ covers p i j -> mget m i j = mget b i j)) /\
    (collide b p = Some false ->
     forall i j, (i < ROWS)%nat -> (j < COLS)%nat -> covers p i j ->
       mget b i j = Some (Num 0)).
Proof.
  intros Hrect. destruct (merge_total b p Hrect) as (m & E & Hrm & Hcells).
  exists m. split; [exact E|]. split; [exact Hrm|]. split; [exact Hcells|].
  intros Hfree i j Hi Hj (r & c & Ht & Hr & Hc & Ei & Ej). fold (width p) in Hc.
  destruct (free_cell_above_floor b p r c Hrect Hfree Hr Hc Ht) as (_ & _ & Hzero).
  specialize (Hzero ltac:(lia)). rewrite <- Ei, <- Ej, !Nat2Z.id in Hzero.
  destruct (mget_is_Some ROWS COLS b i j Hrect Hi Hj) as [v Hv].
  unfold read in Hzero. rewrite Hv in Hzero. cbn in Hzero.
  rewrite Hv. f_equal. exact Hzero.
Qed.

Lemma merge_spec_witness :
  exists m, merge emptyBoard (mkPiece [[Num 1; Num 1]; [Num 1; Num 1]] 4 18 2 1) = Some m /\
    mget m 19 4 = Some (Num 2) /\ mget m 19 3 = Some (Num 0).
Proof.
  destruct (merge_spec emptyBoard (mkPiece [[Num 1; Num 1]; [Num 1; Num 1]] 4 18 2 1))
    as (m & E & _ & Hcells & _).
  - apply rect_replicate.
  - exists m. split; [exact E|].
    vm_compute in E. injection E as <-. split; reflexivity.
Defined.

(** X24. The hard drop and the ghost.  In every reachable state with an
    active piece, the loop that lets the piece fall ends within 20
    rounds and never throws; the piece lands straight below where it
    is, free of the stack at every row on the way, and resting: one row
    further down it would collide.  [computeGhost] answers the same
    piece, so the ghost shows where a hard drop lands.  For a shape
    without a set cell the loop would never end. *)
Theorem fall_lands_where_ghost_shows :
  (forall (fuel : nat) (s : Game) (p : ActivePiece),
     reachable s -> piece s = Some p -> (ROWS < fuel)%nat ->
     exists landed,
       fall fuel (board s) p = Snake.Done landed /\
       computeGhost fuel (piece s) (board s) = Snake.Done (Some landed) /\
       shape landed = shape p /\ x landed = x p /\ y p <= y landed /\
       collide (board s) landed = Some false /\
       collide (board s) (set_y (y landed + 1) landed) = Some true /\
       forall yy, y p <= yy <= y landed -> collide (board s) (set_y yy p) = Some false) /\
  (forall (fuel : nat) (b : Board) (q : ActivePiece),
     rect ROWS COLS b -> has_cell_b (shape q) = false ->
     fall fuel b q = Snake.Unfinished).
Proof.
  split; [|intros fuel b q; apply fall_forever].
  intros fuel s p Hr Hp Hfuel. pose proof (tetris_reachable_Inv s Hr) as HI.
  destruct (Inv_piece_good s p HI Hp) as (Hfree & Horb & _ & Hy).
  destruct (orbit_facts _ _ Horb) as (_ & Hcell & _).
  destruct (fall_lands fuel (board s) p (inv_board s HI) Hcell Hfree) as (landed & Ef & Hl).
  { unfold ROWS in *. lia. }
  exists landed. split; [exact Ef|]. split; [rewrite Hp; cbn; rewrite Ef; reflexivity|].
  destruct Hl as (H1 & H2 & _ & _ & H5 & H6 & H7 & H8). auto 10.
Qed.

Lemma fall_lands_where_ghost_shows_witness :
  exists landed, fall 30 (board demo_started) (mkPiece [[Num 1; Num 1]; [Num 1; Num 1]] 4 0 2 1)
                 = Snake.Done landed /\ y landed = 18.
Proof.
  destruct (proj1 fall_lands_where_ghost_shows 30%nat demo_started
              (mkPiece [[Num 1; Num 1]; [Num 1; Num 1]] 4 0 2 1))
    as (landed & E & _).
  - exact tetris_demo_started_reachable.
  - vm_compute. reflexivity.
  - unfold ROWS. lia.
  - exists landed. split; [exact E|]. vm_compute in E. injection E as <-. reflexivity.
Defined.

(** X25. What holds in every reachable state.  The board has 20 rows of
    10 cells and no full row; the score is a number (never [NaN]) and
    not negative, the level is [min 10 (1 + lines / 10)] and so between
    1 and 10; the active piece, if there is one, does not collide with
    the walls or the stack, has the colour of its kind and a shape that
    is a quarter turn of the shape of its kind; and when the game is
    over it does not run and has no piece. *)
Theorem tetris_invariant (s : Game) :
  reachable s ->
  rect ROWS COLS (board s) /\
  Forall (fun row => full row = false) (board s) /\
  (exists z, score (stats s) = Num z /\ 0 <= z) /\
  0 <= lines (stats s) /\
  level (stats s) = Z.min 10 (1 + lines (stats s) / 10) /\
  1 <= level (stats s) <= 10 /\
  (forall p, piece s = Some p ->
     collide (board s) p = Some false /\ In (shape p) (orbit (idx p)) /\
     color p = Z.of_nat (idx p) + 1 /\ 0 <= y p) /\
  (gameOver s = true -> running s = false /\ piece s = None).
Proof.
  intros Hr. destruct (tetris_reachable_Inv s Hr) as [H1 H2 H3 H4 H5 H6 H7 H8 H9].
  split; [exact H1|]. split; [exact H2|]. split; [exact H3|]. split; [exact H4|].
  split; [exact H5|]. split; [|split; [exact H8|exact H9]].
  rewrite H5. pose proof (Z.div_pos (lines (stats s)) 10 H4 ltac:(lia)). lia.
Qed.

Lemma tetris_invariant_witness :
  rect ROWS COLS (board demo_dropped) /\
  exists p, piece demo_dropped = Some p /\ collide (board demo_dropped) p = Some false.
Proof.
  destruct (tetris_invariant demo_dropped tetris_demo_dropped_reachable)
    as (H1 & _ & _ & _ & _ & _ & H7 & _).
  split; [exact H1|].
  assert (E : piece demo_dropped
              = Some (mkPiece [[Num 1; Num 0; Num 0]; [Num 1; Num 1; Num 1]] 3 0 6 5))
    by (vm_compute; reflexivity).
  eexists. split; [exact E|]. apply (H7 _ E).
Defined.

(** X26. Nothing throws and nothing hangs.  In every reachable state
    every event (a tick, a key, a button) completes when the hard drop
    is given more than 20 rounds, and the state it leads to is
    reachable; with fewer rounds the only event that can fail to
    complete is the hard drop, and no event ever throws. *)
Theorem tetris_events_complete (fuel : nat) (e : Event) (s : Game) :
  reachable s ->
  step fuel e s <> Snake.Throws /\
  (step fuel e s = Snake.Unfinished -> e = KeyDown Space /\ (fuel <= ROWS)%nat) /\
  ((ROWS < fuel)%nat -> exists s', step fuel e s = Snake.Done s' /\ reachable s').
Proof.
  intros Hr. pose proof (tetris_reachable_Inv s Hr) as HI.
  destruct (step_ok fuel e s HI) as [(s' & E & _)|(E & He & Hf)].
  - split; [rewrite E; discriminate|]. split; [rewrite E; discriminate|].
    intros _. exists s'. split; [exact E|]. exact (reachable_step fuel e s s' Hr E).
  - split; [rewrite E; discriminate|]. split; [auto|]. intros Hbig. lia.
Qed.

Lemma tetris_events_complete_witness :
  exists s', step 30 (KeyDown ArrowUp) demo_dropped = Snake.Done s' /\ reachable s'.
Proof.
  destruct (tetris_events_complete 30 (KeyDown ArrowUp) demo_dropped
              tetris_demo_dropped_reachable) as (_ & _ & H).
  apply H. unfold ROWS. lia.
Defined.

(** X27. The key P pauses but does not resume.  In a running game with
    a piece the key P stops the game; while the game does not run,
    every key, P included, and every tick of the interval leaves the
    state as it is; the resume button sets it running again. *)
Theorem key_P_pauses_only (fuel : nat) (s : Game) (p : ActivePiece) :
  piece s = Some p -> running s = true -> gameOver s = false ->
  let paused := set_running false s in
  handleKey fuel KeyP s = Snake.Done paused /\
  (forall k, handleKey fuel k paused = Snake.Done paused) /\
  step fuel Tick paused = Snake.Done paused /\
  step fuel ResumeButton paused = Snake.Done (set_running true paused) /\
  running (set_running true paused) = true.
Proof.
  intros Hp Hr Ho. cbv zeta. split; [|split; [|split; [|split]]].
  - unfold handleKey. rewrite Hp, Hr, Ho. reflexivity.
  - intros k. unfold handleKey. gfields. rewrite Hp. reflexivity.
  - reflexivity.
  - cbn [step]. gfields. rewrite Ho. reflexivity.
  - reflexivity.
Qed.

Lemma key_P_pauses_only_witness :
  handleKey 30 KeyP demo_started = Snake.Done (set_running false demo_started) /\
  handleKey 30 KeyP (set_running false demo_started)
    = Snake.Done (set_running false demo_started).
Proof.
  destruct (key_P_pauses_only 30 demo_started
              (mkPiece [[Num 1; Num 1]; [Num 1; Num 1]] 4 0 2 1))
    as (H1 & H2 & _); [vm_compute; reflexivity..|].
  split; [exact H1|exact (H2 KeyP)].
Defined.

(** X28. Holding.  In a reachable state with a piece and [canHold]
    set, [doHold] stores the kind of the piece and leaves board and
    statistics alone.  With an empty slot the next piece comes in, a new
    next piece is drawn, and [canHold] is set again, so the player may
    hold once more at once; with a kind in the slot that piece comes in
    at the top, the next piece stays, and [canHold] stays cleared until
    the next spawn.  If the incoming piece collides the game is over.
    With [canHold] cleared [doHold] does nothing. *)
Theorem hold_swaps (s : Game) (p : ActivePiece) :
  reachable s -> piece s = Some p ->
  (canHold s = false -> doHold s = Some s) /\
  (canHold s = true ->
   exists s' incoming,
     doHold s = Some s' /\ holdIdx s' = Some (idx p) /\
     board s' = board s /\ stats s' = stats s /\
     buildPiece (match holdIdx s with Some h => h | None => nextIdx s end) = Some incoming /\
     ((collide (board s) incoming = Some false /\ piece s' = Some incoming /\
       gameOver s' = false /\
       canHold s' = match holdIdx s with Some _ => false | None => true end /\
       (forall h, holdIdx s = Some h -> nextIdx s' = nextIdx s)) \/
      (collide (board s) incoming = Some true /\ piece s' = None /\
       gameOver s' = true /\ running s' = false))).
Proof.
  intros Hr Hp. pose proof (tetris_reachable_Inv s Hr) as HI.
  assert (Hover : gameOver s = false).
  { destruct (gameOver s) eqn:Ho; [|reflexivity].
    destruct (inv_over s HI Ho) as [_ Hn]. congruence. }
  split.
  - intros Hc. unfold doHold. rewrite Hp, Hc. reflexivity.
  - intros Hc. unfold doHold. rewrite Hp, Hc. cbn [negb].
    destruct (holdIdx s) as [h|] eqn:Hh.
    + destruct (buildPiece_ok h (inv_hold s HI h Hh)) as (sw & Eb & _).
      rewrite Eb.
      destruct (collide_blocked (board s) sw (inv_board s HI)) as ([|] & E & _); rewrite E.
      * eexists _, sw. split; [reflexivity|]. gfields.
        do 4 (split; [reflexivity|]). right. auto.
      * eexists _, sw. split; [reflexivity|]. gfields.
        do 4 (split; [reflexivity|]). left. repeat split; auto.
    + destruct (spawn_ok (board s) (set_holdIdx (Some (idx p)) (set_canHold false s))
                  (inv_board s HI) (inv_next s HI))
        as (cur & np & s2 & Ecur & Es & S1 & S2 & S3 & S4 & S5 & S6 & S7 & Hnp).
      rewrite Es. gfields. destruct np as [q|].
      * destruct Hnp as (-> & (Hfree & _) & Hcan).
        eexists _, cur. split; [reflexivity|]. gfields.
        split; [exact S6|]. split; [exact S1|]. split; [exact S3|]. split; [exact Ecur|].
        left. split; [exact Hfree|]. split; [reflexivity|].
        split; [rewrite S5; exact Hover|]. split; [exact Hcan|]. discriminate.
      * destruct Hnp as (Hcol & _).
        eexists _, cur. split; [reflexivity|]. gfields.
        split; [exact S6|]. split; [exact S1|]. split; [exact S3|]. split; [exact Ecur|].
        right. auto.
Qed.

Lemma hold_swaps_witness :
  exists s', doHold demo_started = Some s' /\ holdIdx s' = Some 1%nat /\
    canHold s' = true.
Proof.
  assert (Ep : piece demo_started = Some (mkPiece [[Num 1; Num 1]; [Num 1; Num 1]] 4 0 2 1))
    by (vm_compute; reflexivity).
  assert (Ec : canHold demo_started = true) by (vm_compute; reflexivity).
  destruct (hold_swaps demo_started (mkPiece [[Num 1; Num 1]; [Num 1; Num 1]] 4 0 2 1)
              tetris_demo_started_reachable Ep) as (_ & H).
  destruct (H Ec) as (s' & inc & E & Hh & _).
  exists s'. split; [exact E|]. split; [exact Hh|].
  vm_compute in E. injection E as <-. reflexivity.
Defined.

(** X29. A tick in a reachable running game either moves the piece one
    row down, when it is free there, or locks it: the piece is merged
    into the board, at most four rows are full and are cleared, the
    score grows by 0, 100, 300, 500 or 800 for 0 to 4 rows, the lines by
    the number of rows and the level follows them; then the next piece
    comes in, or the game is over. *)
Theorem tick_moves_or_locks (s : Game) (p : ActivePiece) :
  reachable s -> running s = true -> piece s = Some p ->
  exists s', tick s = Some s' /\
    ((collide (board s) (set_y (y p + 1) p) = Some false /\
      s' = set_piece (Some (set_y (y p + 1) p)) s) \/
     (collide (board s) (set_y (y p + 1) p) = Some true /\
      exists m z, merge (board s) p = Some m /\ score (stats s) = Num z /\
        let n := length (List.filter full m) in
        (n <= 4)%nat /\
        board s' = Tetris.board (clearLines m) /\
        stats s' = mkStats (Num (z + tablePoints n)) (lines (stats s) + Z.of_nat n)
                           (Z.min 10 (1 + (lines (stats s) + Z.of_nat n) / 10)) /\
        ((piece s' = buildPiece (nextIdx s) /\ gameOver s' = false) \/
         (piece s' = None /\ gameOver s' = true /\ running s' = false)))).
Proof.
  intros Hr Hrun Hp. pose proof (tetris_reachable_Inv s Hr) as HI.
  assert (Hover : gameOver s = false).
  { destruct (gameOver s) eqn:Ho; [|reflexivity].
    destruct (inv_over s HI Ho) as [_ Hn]. congruence. }
  unfold tick. rewrite Hrun, Hover, Hp. cbn [negb orb].
  destruct (collide_blocked (board s) (set_y (y p + 1) p) (inv_board s HI))
    as ([|] & E & _); rewrite E.
  - destruct (lockAndSpawn_detail p s HI Hover (Inv_piece_good s p HI Hp))
      as (m & z & s' & Em & Hz & El & Hn & Hb & Hst & _ & Hcase).
    exists s'. split; [exact El|]. right. split; [reflexivity|].
    exists m, z. split; [exact Em|]. split; [exact Hz|]. cbv zeta.
    split; [exact Hn|]. split; [exact Hb|]. split; [exact Hst|].
    destruct Hcase as [(H1 & H2 & _)|H]; [left; auto|right; exact H].
  - eexists. split; [reflexivity|]. left. split; reflexivity.
Qed.

Lemma tick_moves_or_locks_witness :
  exists s', tick demo_started = Some s' /\
    piece s' = Some (mkPiece [[Num 1; Num 1]; [Num 1; Num 1]] 4 1 2 1).
Proof.
  assert (Ep : piece demo_started = Some (mkPiece [[Num 1; Num 1]; [Num 1; Num 1]] 4 0 2 1))
    by (vm_compute; reflexivity).
  assert (Er : running demo_started = true) by (vm_compute; reflexivity).
  destruct (tick_moves_or_locks demo_started (mkPiece [[Num 1; Num 1]; [Num 1; Num 1]] 4 0 2 1)
              tetris_demo_started_reachable Er Ep) as (s' & E & _).
  exists s'. split; [exact E|]. vm_compute in E. injection E as <-. reflexivity.
Defined.

(** X30. The falling interval.  In every reachable state the delay is
    [null] when the game does not run, and otherwise the entry of
    [SPEEDS] for the level, a number from 800 down to 100 ms; it is
    never [undefined], and a higher level never falls slower. *)
Theorem delay_follows_level (s : Game) :
  reachable s ->
  (running s = false -> delay s = None) /\
  (running s = true ->
   exists d, delay s = Some (Num d) /\
     SPEEDS !! Z.to_nat (level (stats s) - 1) = Some d /\ 100 <= d <= 800) /\
  (forall i j d d', (i <= j)%nat -> SPEEDS !! i = Some d -> SPEEDS !! j = Some d' -> d' <= d).
Proof.
  intros Hr. pose proof (tetris_reachable_Inv s Hr) as HI.
  split; [|split].
  - intros Hrun. unfold delay. rewrite Hrun. reflexivity.
  - intros Hrun.
    assert (Hover : gameOver s = false).
    { destruct (gameOver s) eqn:Ho; [|reflexivity].
      destruct (inv_over s HI Ho) as [Hn _]. congruence. }
    unfold delay. rewrite Hrun, Hover. cbn [negb andb].
    pose proof (inv_level s HI) as Hl. pose proof (inv_lines s HI) as Hlines.
    pose proof (Z.div_pos (lines (stats s)) 10 Hlines ltac:(lia)) as Hdiv.
    assert (Hlev : 1 <= level (stats s) <= 10) by lia.
    change (Z.of_nat (length SPEEDS) - 1) with 9.
    rewrite Z.min_l by lia.
    destruct (Z.ltb_spec (level (stats s) - 1) 0); [lia|].
    assert (Hk : (Z.to_nat (level (stats s) - 1) < 10)%nat) by lia.
    set (k := Z.to_nat (level (stats s) - 1)) in *.
    do 10 (destruct k as [|k]; [eexists; split; [reflexivity|]; split; [reflexivity|lia]|]).
    lia.
  - intros i j d d' Hij Hi Hj.
    assert (Hj' : (j < 10)%nat) by (apply lookup_lt_Some in Hj; exact Hj).
    do 10 (destruct i as [|i]; [
      do 10 (destruct j as [|j]; [cbn in Hi, Hj; try lia;
                                   injection Hi as <-; injection Hj as <-; lia|]); lia|]).
    lia.
Qed.

Lemma delay_follows_level_witness :
  delay demo_dropped = Some (Num 800).
Proof.
  destruct (delay_follows_level demo_dropped tetris_demo_dropped_reachable) as (_ & H & _).
  assert (Er : running demo_dropped = true) by (vm_compute; reflexivity).
  destruct (H Er) as (d & E & _). rewrite E.
  vm_compute in E. injection E as <-. reflexivity.
Defined.

End TetrisGameFacts.

